(** * Saurus: a shallow embedding of the session pipeline

    The development follows the TypeScript sources of the proxy:
    - the session source (the file of the [Session] class: split reassembly,
      reliable window, acknowledgement, fragmentation, batch and handshake
      interception); line numbers with no file name are lines of it,
    - [protocol/online/datagram.ts] (the [Datagram] codec),
    - [protocol/bedrock/handshake.ts] (the server-to-client handshake packet),
    - [node/src/encrypt.ts] (the outbound batch encryption helper).

    JavaScript numbers that hold integers are [Z]; byte arrays are
    [list byte]; a [Set<number>] is a [gset Z]; arrays with holes are lists of
    options.  A call that throws is an [Outcome] of its own, and the session
    is threaded explicitly, so that what was mutated before a [throw] stays
    mutated. *)

From Stdlib Require Import ZArith Lia List String.
From Stdlib.Strings Require Import Byte.
From stdpp Require Import base option list gmap sets.

Local Open Scope Z_scope.

Abbreviation bytes := (list byte).

(** ** Origins ([handler.ts]; lines 67-73) *)

Inductive Origin := client | server.

#[global] Instance Origin_eq_dec : EqDecision Origin.
Proof. solve_decision. Defined.

(** [opposite(origin)]: [origin === "client" ? "server" : "client"]. *)
Definition opposite (origin : Origin) : Origin :=
  match origin with client => server | server => client end.

(** [inRange(n, [start, end])]: [n >= start && n <= end]. *)
Definition inRange (n start end_ : Z) : bool :=
  (start <=? n) && (n <=? end_).

(** ** Packets *)

(** The split descriptor of an encapsulated packet. *)
Record Split := mkSplit {
  split_id : Z;
  split_index : Z;
  split_count : Z
}.

(** [EncapsulatedPacket]: the fields [Session] reads and writes.  An absent
    optional field ([undefined]) is [None]. *)
Record EncapsulatedPacket := mkPacket {
  reliability : Z;
  sub : bytes;
  index : option Z;
  sequence : option Z;
  order : option Z;
  split : option Split
}.

(** [Datagram] ([datagram.ts] lines 10-16). *)
Record Datagram := mkDatagram {
  headerFlags : Z;
  seqNumber : Z;
  packets : list EncapsulatedPacket
}.

Definition flag_valid : Z := 0x80.
Definition flag_ack : Z := 0x40.
Definition flag_nak : Z := 0x20.

(** Modelled from the spec: [isReliable] of [protocol/mod.ts] is not among
    the sources; section 4.2 gives it as membership in {2,3,4,6,7}. *)
Definition isReliable (r : Z) : bool :=
  (r =? 2) || (r =? 3) || (r =? 4) || (r =? 6) || (r =? 7).

(** ** Outcomes of a call *)

(** What a call can raise: [Error(msg)] thrown by the session itself, a
    [TypeError] of the runtime (a property read on [undefined]), or a failure
    inside a collaborator (a parser, the key agreement). *)
Inductive Exn :=
| Error (msg : string)
| TypeError (what : string)
| Foreign (who : string).

(** [Hang] is a call that never returns: a loop that has no end (in the
    runtime, one that goes on until memory runs out). *)
Inductive Outcome (A : Type) :=
| Done (a : A)
| Throw (e : Exn)
| Hang.
Arguments Done {A} a.
Arguments Throw {A} e.
Arguments Hang {A}.

(** ** Split memory (lines 39-46, 125-135) *)

(** [SplitMemory], with its fields [id] and [packets]: [packets] only ever
    grows through [insert], so it has no holes and a list holds it. *)
Record SplitMemory := mkMemory {
  memory_id : Z;
  memory_packets : list EncapsulatedPacket
}.

(** A table of split memories: [new Array<SplitMemory>(4)], whose holes,
    and the ones [delete] leaves, are [None]. *)
Abbreviation Splits := (list (option SplitMemory)).

Definition empty_splits : Splits := replicate 4 None.

(** [array[i]] for an integer [i]: [undefined] outside the array. *)
Definition js_nth {A} (array : list A) (i : Z) : option A :=
  if i <? 0 then None else array !! Z.to_nat i.

(** [Array.prototype.splice(i, 0, value)]: the start is clamped to the
    array, a negative one counting from the end. *)
Definition splice_start (len i : Z) : Z :=
  if i <? 0 then Z.max (len + i) 0 else Z.min i len.

(** [insert(array, i, value)] (lines 39-41). *)
Definition insert {A} (array : list A) (i : Z) (value : A) : list A :=
  let start := Z.to_nat (splice_start (Z.of_nat (length array)) i) in
  take start array ++ value :: drop start array.

(** [Array.prototype.findIndex]; [None] is the source's [-1].  Holes are
    visited, as [undefined]. *)
Fixpoint findIndex {A} (p : A -> bool) (array : list A) : option nat :=
  match array with
  | [] => None
  | x :: rest => if p x then Some 0%nat else S <$> findIndex p rest
  end.

(** [m?.id === id] *)
Definition has_id (id0 : Z) (m : option SplitMemory) : bool :=
  match m with Some m => memory_id m =? id0 | None => false end.

(** [!m] *)
Definition is_hole (m : option SplitMemory) : bool :=
  match m with Some _ => false | None => true end.

(** [memoryOf(splits, id)]: the slot, the memory, and the table as the call
    leaves it. *)
Definition memoryOf (splits : Splits) (id0 : Z)
  : Outcome (nat * SplitMemory * Splits) :=
  match findIndex (has_id id0) splits with
  | Some slot =>
      match splits !! slot with
      | Some (Some m) => Done (slot, m, splits)
      | _ => Throw (TypeError "splits[slot] is undefined") (* not reached *)
      end
  | None =>
      match findIndex is_hole splits with
      | None => Throw (Error "Too many split packets")
      | Some slot =>
          let memory := mkMemory id0 [] in
          Done (slot, memory, <[slot := Some memory]> splits)
      end
  end.

(** The number of reassemblies in progress. *)
Definition active (splits : Splits) : nat :=
  length (filter (fun m => is_hole m = false) splits).

(** ** The session record (lines 61-65, 76-100, 364-365) *)

Inductive SessionState := Offline | Online | Encrypted.

#[global] Instance SessionState_eq_dec : EqDecision SessionState.
Proof. solve_decision. Defined.

Record Window := mkWindow { w_start : Z; w_end : Z }.

Record KeyPair := mkKeyPair { privateKey : string; publicKey : string }.

(** The class [EncryptedBatchPacket(secret, origin)] returns, by what it was
    made from. *)
Record Codec := mkCodec { codec_secret : bytes; codec_origin : Origin }.

Record Session := mkSession {
  _state : SessionState;
  _mtuSize : Z;
  _serverSplits : Splits;
  _clientSplits : Splits;
  _serverSplitID : Z;
  _clientSplitID : Z;
  _serverPacketIndex : Z;
  _clientPacketIndex : Z;
  _clientReliableWindow : Window;
  _serverReliableWindow : Window;
  _clientPacketIndexes : gset Z;
  _serverPacketIndexes : gset Z;
  _serverSeqNumber : Z;
  _clientSeqNumber : Z;
  _keyPair : option KeyPair;
  _salt : string;
  _clientBatch : option Codec;
  _serverBatch : option Codec
}.

(** The field initialisers of the class.  [time] is never read, and the
    addresses and listeners only say where [send] sends: an effect names the
    side instead. *)
Definition new_session : Session :=
  {| _state := Offline; _mtuSize := 1492;
     _serverSplits := empty_splits; _clientSplits := empty_splits;
     _serverSplitID := 0; _clientSplitID := 0;
     _serverPacketIndex := 0; _clientPacketIndex := 0;
     _clientReliableWindow := mkWindow 0 2048;
     _serverReliableWindow := mkWindow 0 2048;
     _clientPacketIndexes := ∅; _serverPacketIndexes := ∅;
     _serverSeqNumber := 0; _clientSeqNumber := 0;
     _keyPair := None; _salt := EmptyString;
     _clientBatch := None; _serverBatch := None |}.

(** Field updates. *)
Definition set_state (v : SessionState) (s : Session) : Session :=
  mkSession v (_mtuSize s) (_serverSplits s) (_clientSplits s)
    (_serverSplitID s) (_clientSplitID s) (_serverPacketIndex s)
    (_clientPacketIndex s) (_clientReliableWindow s) (_serverReliableWindow s)
    (_clientPacketIndexes s) (_serverPacketIndexes s) (_serverSeqNumber s)
    (_clientSeqNumber s) (_keyPair s) (_salt s) (_clientBatch s) (_serverBatch s).

Definition set_mtuSize (v : Z) (s : Session) : Session :=
  mkSession (_state s) v (_serverSplits s) (_clientSplits s)
    (_serverSplitID s) (_clientSplitID s) (_serverPacketIndex s)
    (_clientPacketIndex s) (_clientReliableWindow s) (_serverReliableWindow s)
    (_clientPacketIndexes s) (_serverPacketIndexes s) (_serverSeqNumber s)
    (_clientSeqNumber s) (_keyPair s) (_salt s) (_clientBatch s) (_serverBatch s).

Definition set_splits (o : Origin) (v : Splits) (s : Session) : Session :=
  mkSession (_state s) (_mtuSize s)
    (match o with server => v | client => _serverSplits s end)
    (match o with client => v | server => _clientSplits s end)
    (_serverSplitID s) (_clientSplitID s) (_serverPacketIndex s)
    (_clientPacketIndex s) (_clientReliableWindow s) (_serverReliableWindow s)
    (_clientPacketIndexes s) (_serverPacketIndexes s) (_serverSeqNumber s)
    (_clientSeqNumber s) (_keyPair s) (_salt s) (_clientBatch s) (_serverBatch s).

Definition set_splitID (o : Origin) (v : Z) (s : Session) : Session :=
  mkSession (_state s) (_mtuSize s) (_serverSplits s) (_clientSplits s)
    (match o with server => v | client => _serverSplitID s end)
    (match o with client => v | server => _clientSplitID s end)
    (_serverPacketIndex s)
    (_clientPacketIndex s) (_clientReliableWindow s) (_serverReliableWindow s)
    (_clientPacketIndexes s) (_serverPacketIndexes s) (_serverSeqNumber s)
    (_clientSeqNumber s) (_keyPair s) (_salt s) (_clientBatch s) (_serverBatch s).

Definition set_packetIndex (o : Origin) (v : Z) (s : Session) : Session :=
  mkSession (_state s) (_mtuSize s) (_serverSplits s) (_clientSplits s)
    (_serverSplitID s) (_clientSplitID s)
    (match o with server => v | client => _serverPacketIndex s end)
    (match o with client => v | server => _clientPacketIndex s end)
    (_clientReliableWindow s) (_serverReliableWindow s)
    (_clientPacketIndexes s) (_serverPacketIndexes s) (_serverSeqNumber s)
    (_clientSeqNumber s) (_keyPair s) (_salt s) (_clientBatch s) (_serverBatch s).

Definition set_window (o : Origin) (v : Window) (s : Session) : Session :=
  mkSession (_state s) (_mtuSize s) (_serverSplits s) (_clientSplits s)
    (_serverSplitID s) (_clientSplitID s) (_serverPacketIndex s)
    (_clientPacketIndex s)
    (match o with client => v | server => _clientReliableWindow s end)
    (match o with server => v | client => _serverReliableWindow s end)
    (_clientPacketIndexes s) (_serverPacketIndexes s) (_serverSeqNumber s)
    (_clientSeqNumber s) (_keyPair s) (_salt s) (_clientBatch s) (_serverBatch s).

Definition set_indexes (o : Origin) (v : gset Z) (s : Session) : Session :=
  mkSession (_state s) (_mtuSize s) (_serverSplits s) (_clientSplits s)
    (_serverSplitID s) (_clientSplitID s) (_serverPacketIndex s)
    (_clientPacketIndex s) (_clientReliableWindow s) (_serverReliableWindow s)
    (match o with client => v | server => _clientPacketIndexes s end)
    (match o with server => v | client => _serverPacketIndexes s end)
    (_serverSeqNumber s)
    (_clientSeqNumber s) (_keyPair s) (_salt s) (_clientBatch s) (_serverBatch s).

Definition set_seqNumber (o : Origin) (v : Z) (s : Session) : Session :=
  mkSession (_state s) (_mtuSize s) (_serverSplits s) (_clientSplits s)
    (_serverSplitID s) (_clientSplitID s) (_serverPacketIndex s)
    (_clientPacketIndex s) (_clientReliableWindow s) (_serverReliableWindow s)
    (_clientPacketIndexes s) (_serverPacketIndexes s)
    (match o with server => v | client => _serverSeqNumber s end)
    (match o with client => v | server => _clientSeqNumber s end)
    (_keyPair s) (_salt s) (_clientBatch s) (_serverBatch s).

Definition set_keyPair (v : option KeyPair) (s : Session) : Session :=
  mkSession (_state s) (_mtuSize s) (_serverSplits s) (_clientSplits s)
    (_serverSplitID s) (_clientSplitID s) (_serverPacketIndex s)
    (_clientPacketIndex s) (_clientReliableWindow s) (_serverReliableWindow s)
    (_clientPacketIndexes s) (_serverPacketIndexes s) (_serverSeqNumber s)
    (_clientSeqNumber s) v (_salt s) (_clientBatch s) (_serverBatch s).

Definition set_salt (v : string) (s : Session) : Session :=
  mkSession (_state s) (_mtuSize s) (_serverSplits s) (_clientSplits s)
    (_serverSplitID s) (_clientSplitID s) (_serverPacketIndex s)
    (_clientPacketIndex s) (_clientReliableWindow s) (_serverReliableWindow s)
    (_clientPacketIndexes s) (_serverPacketIndexes s) (_serverSeqNumber s)
    (_clientSeqNumber s) (_keyPair s) v (_clientBatch s) (_serverBatch s).

Definition set_batch (o : Origin) (v : option Codec) (s : Session) : Session :=
  mkSession (_state s) (_mtuSize s) (_serverSplits s) (_clientSplits s)
    (_serverSplitID s) (_clientSplitID s) (_serverPacketIndex s)
    (_clientPacketIndex s) (_clientReliableWindow s) (_serverReliableWindow s)
    (_clientPacketIndexes s) (_serverPacketIndexes s) (_serverSeqNumber s)
    (_clientSeqNumber s) (_keyPair s) (_salt s)
    (match o with client => v | server => _clientBatch s end)
    (match o with server => v | client => _serverBatch s end).

(** The per-origin selections, [from === "client" ? this._clientX : this._serverX]. *)
Definition splits_of (o : Origin) (s : Session) : Splits :=
  match o with client => _clientSplits s | server => _serverSplits s end.
Definition window_of (o : Origin) (s : Session) : Window :=
  match o with client => _clientReliableWindow s | server => _serverReliableWindow s end.
Definition indexes_of (o : Origin) (s : Session) : gset Z :=
  match o with client => _clientPacketIndexes s | server => _serverPacketIndexes s end.
Definition splitID_of (o : Origin) (s : Session) : Z :=
  match o with client => _clientSplitID s | server => _serverSplitID s end.
Definition packetIndex_of (o : Origin) (s : Session) : Z :=
  match o with client => _clientPacketIndex s | server => _serverPacketIndex s end.
Definition seqNumber_of (o : Origin) (s : Session) : Z :=
  match o with client => _clientSeqNumber s | server => _serverSeqNumber s end.
Definition batch_of (o : Origin) (s : Session) : option Codec :=
  match o with client => _clientBatch s | server => _serverBatch s end.

(** ** Effects and the session monad *)

Inductive SessionEvent := ev_state | data_in | data_out | bedrock_in | bedrock_out.

(** What the session does to the outside, in the order it does it:
    [this.emit(event, data, origin)], [this.emit("state", value)], and
    [listener.send(data, address)] on the listener that faces [to]
    ([handler.listener] for the client, [listener] for the server).
    [console.log] is left out. *)
Inductive Effect :=
| Emit (event : SessionEvent) (data : bytes) (o : Origin)
| EmitState (value : SessionState)
| ListenerSend (data : bytes) (to : Origin).

(** What [emit] resolves to: ["cancelled"], or the tuple of arguments the
    subscribers leave, either of which may be [undefined] (or, for the
    origin, the empty string): [None] is a value [!] makes true.  A byte
    array, even one of length zero, is an object, and [!] makes it false. *)
Inductive EmitResult :=
| cancelled
| replaced (data : option bytes) (o : option Origin).

Record World := mkWorld {
  session : Session;
  trace : list Effect;
  draws : nat  (* random values drawn so far *)
}.

Definition M (A : Type) : Type := World -> Outcome A * World.

#[global] Instance M_ret : MRet M := fun A a w => (Done a, w).
#[global] Instance M_bind : MBind M := fun A B f m w =>
  match m w with
  | (Done a, w') => f a w'
  | (Throw e, w') => (Throw e, w')
  | (Hang, w') => (Hang, w')
  end.

Definition throw {A} (e : Exn) : M A := fun w => (Throw e, w).
Definition hang {A} : M A := fun w => (Hang, w).
Definition get : M Session := fun w => (Done (session w), w).
Definition modify (f : Session -> Session) : M unit :=
  fun w => (Done tt, mkWorld (f (session w)) (trace w) (draws w)).
Definition perform (e : Effect) : M unit :=
  fun w => (Done tt, mkWorld (session w) (trace w ++ [e]) (draws w)).
Definition draw : M nat :=
  fun w => (Done (draws w), mkWorld (session w) (trace w) (S (draws w))).

(** A collaborator that may throw. *)
Definition foreign {A} (who : string) (r : option A) : M A :=
  match r with Some a => mret a | None => throw (Foreign who) end.

(** [for (const x of xs) await f(x)] *)
Fixpoint forM_ {A} (xs : list A) (f : A -> M unit) : M unit :=
  match xs with
  | [] => mret tt
  | x :: rest => f x ;; forM_ rest f
  end.

(** [for (const x of xs) ys.push(await f(x))] *)
Fixpoint mapM {A B} (f : A -> M B) (xs : list A) : M (list B) :=
  match xs with
  | [] => mret []
  | x :: rest => y ← f x; ys ← mapM f rest; mret (y :: ys)
  end.

(** [this.state = value] (lines 115-118): the setter emits, then stores. *)
Definition set_state_M (value : SessionState) : M unit :=
  perform (EmitState value) ;; modify (set_state value).

(** ** The reliable window ([handlePacket], lines 223-252) *)

(** The loop of lines 246-250.  [start] is the constant destructured at
    line 235, not [window.start]: the test reads the same [start] on every
    turn.  Each turn deletes an element, so [fuel] above the size of the
    set is never used up. *)
Fixpoint slide (fuel : nat) (start : Z) (indexes : gset Z) (window : Window)
  : option (gset Z * Window) :=
  match fuel with
  | O => if decide (start ∈ indexes) then None else Some (indexes, window)
  | S fuel =>
      if decide (start ∈ indexes)
      then slide fuel start (indexes ∖ {[start]})
             (mkWindow (w_start window + 1) (w_end window + 1))
      else Some (indexes, window)
  end.

(** Lines 223-252; the result says whether [handlePacket] goes on ([false]
    is the [return] of line 237). *)
Definition admit_reliable (packet : EncapsulatedPacket) (from : Origin) : M bool :=
  if isReliable (reliability packet) then
    match index packet with
    | None => throw (Error "No index")
    | Some index =>
        s ← get;
        let window := window_of from s in
        let indexes := indexes_of from s in
        let start := w_start window in
        let end_ := w_end window in
        if negb (inRange index start end_) then mret false
        else if decide (index ∈ indexes) then throw (Error "Duplicate packet index")
        else
          let indexes := {[index]} ∪ indexes in
          if index =? start then
            match slide (S (size indexes)) start indexes window with
            | Some (indexes, window) =>
                modify (set_indexes from indexes) ;;
                modify (set_window from window) ;;
                mret true
            | None => hang
            end
          else modify (set_indexes from indexes) ;; mret true
    end
  else mret true.

(** ** Split reassembly ([handlePacket], lines 254-277) *)

(** Modelled from the spec: [Buffer] ([protocol/buffer.ts]) is not among the
    sources.  [Buffer.empty(0)] followed by [expand(n)] and [writeArray(a)]
    for each packet leaves in [buffer.array] the arrays written, in order. *)
Definition write_all (packets : list EncapsulatedPacket) : bytes :=
  concat (map sub packets).

Definition with_sub (v : bytes) (p : EncapsulatedPacket) : EncapsulatedPacket :=
  mkPacket (reliability p) v (index p) (sequence p) (order p) (split p).

Definition without_split (p : EncapsulatedPacket) : EncapsulatedPacket :=
  mkPacket (reliability p) (sub p) (index p) (sequence p) (order p) None.

(** Lines 254-277; [None] is one of the two [return]s, [Some packet] the
    packet [handlePacket] goes on with.  The table is written back at once:
    what [memoryOf] and [insert] mutate is the session's own array. *)
Definition reassemble (packet : EncapsulatedPacket) (from : Origin)
  : M (option EncapsulatedPacket) :=
  match split packet with
  | None => mret (Some packet)
  | Some sp =>
      s ← get;
      match memoryOf (splits_of from s) (split_id sp) with
      | Throw e => throw e
      | Hang => hang
      | Done (slot, memory, splits) =>
          modify (set_splits from splits) ;;
          let packets := memory_packets memory in
          match js_nth packets (split_index sp) with
          | Some _ => mret None
          | None =>
              let packets := insert packets (split_index sp) packet in
              let splits := <[slot := Some (mkMemory (memory_id memory) packets)]> splits in
              modify (set_splits from splits) ;;
              if negb (Z.of_nat (length packets) =? split_count sp) then mret None
              else
                let packet := without_split (with_sub (write_all packets) packet) in
                modify (set_splits from (<[slot := None]> splits)) ;;
                mret (Some packet)
          end
      end
  end.

(** ** Collaborators

    What the session source imports and the sources do not hold: the event bus
    ([EventEmitter]), the packet codecs of [protocol/mod.ts], the JSON web
    tokens, the key agreement and the random generators.  They are taken as
    they are used; a parser or a key agreement that throws answers [None].
    Every buffer a parser is handed was built from a byte array and read by
    nothing but [header] before, so parsers are functions of that array. *)

(** A JSON web token by the fields the session touches; [jwt_rest] stands
    for every other field of header and payload. *)
Record JWT := mkJWT {
  x5u : string;                (* token.header.x5u *)
  salt : string;               (* token.payload.salt *)
  identityPublicKey : string;  (* token.payload.identityPublicKey *)
  jwt_rest : string;
  signature : string
}.

Record LoginPacket := mkLogin { tokens : list JWT; login_client : JWT }.

(** What [datagramOf] makes of a byte array. *)
Inductive OnlinePacket :=
| IsDatagram (datagram : Datagram)
| IsAck (seqNumbers : list Z)
| IsNack (seqNumbers : list Z)
| IsNeither.

Class Collaborators := {
  (* EventEmitter: what the subscribers of a data event resolve to *)
  emit : SessionEvent -> bytes -> Origin -> EmitResult;
  (* protocol/mod.ts *)
  ProtocolPacket_header : bytes -> option Z;
  Open2Request_id : Z;
  Open2Reply_id : Z;
  Open2Request_mtuSize : bytes -> option Z;    (* Open2Request.from(buffer).mtuSize *)
  datagramOf : bytes -> option OnlinePacket;
  ACK_export : list Z -> bytes;                (* new ACK(seqNumbers).export() *)
  Datagram_export : Datagram -> bytes;
  BatchPacket_id : Z;
  BatchPacket_from : bytes -> option (list bytes);
  BatchPacket_export : list bytes -> option bytes;
  EncryptedBatchPacket_from : Codec -> bytes -> option (list bytes);
  EncryptedBatchPacket_export : Codec -> list bytes -> option bytes;
  BedrockPacket_header : bytes -> option Z;
  LoginPacket_id : Z;
  LoginPacket_from : bytes -> option LoginPacket;
  LoginPacket_export : LoginPacket -> bytes;
  ResourcePackResponse_id : Z;
  ResourcePackResponse_from : bytes -> option Z;
  ServerHandshakePacket_from : bytes -> option JWT;   (* handshake.ts lines 14-18 *)
  ServerHandshakePacket_export : JWT -> bytes;        (* handshake.ts lines 20-23 *)
  (* jwt.ts, mod.ts, saurus.ts *)
  signature_of : KeyPair -> JWT -> string;
  diffieHellman : string -> string -> string -> option bytes;
  toB64 : bytes -> string;
  (* genKeyPair() and crypto.getRandomValues(new Uint8Array(16)), by draw *)
  genKeyPair : nat -> KeyPair;
  getRandomValues : nat -> bytes
}.

(** [ServerToClientHandshakePacket.id] ([handshake.ts] line 6). *)
Definition ServerHandshakePacket_id : Z := 0x03.

(** Modelled from the spec: [JWT.sign] ([protocol/bedrock/jwt.ts]) is not
    among the sources; section 6 gives it as the operation that rewrites the
    signature. *)
Definition sign `{Collaborators} (keyPair : KeyPair) (t : JWT) : JWT :=
  mkJWT (x5u t) (salt t) (identityPublicKey t) (jwt_rest t) (signature_of keyPair t).

Definition with_salt (v : string) (t : JWT) : JWT :=
  mkJWT (x5u t) v (identityPublicKey t) (jwt_rest t) (signature t).

Definition with_identityPublicKey (v : string) (t : JWT) : JWT :=
  mkJWT (x5u t) (salt t) v (jwt_rest t) (signature t).

(** Modelled from the spec: [Buffer.readArray(n)] ([protocol/buffer.ts]) is
    not among the sources; section 4.1 gives it as the read of a raw array of
    [n] bytes at the read cursor, a short read failing. *)
Record Buffer := mkBuffer { array : bytes; offset : nat }.

Definition readArray (n : Z) (buffer : Buffer) : option (bytes * Buffer) :=
  let rest := drop (offset buffer) (array buffer) in
  if (n <? 0) || (Z.of_nat (length rest) <? n) then None
  else Some (take (Z.to_nat n) rest, mkBuffer (array buffer) (offset buffer + Z.to_nat n)).

Section Pipeline.
Context `{Collaborators}.

(** [send(data, to)] (lines 151-167). *)
Definition send (data : bytes) (to : Origin) : M unit :=
  perform (Emit data_out data to) ;;
  match emit data_out data to with
  | cancelled => mret tt
  | replaced (Some data) (Some to) => perform (ListenerSend data to)
  | replaced _ _ => throw (Error "Event error")
  end.

(** [sendAck(ack, to)] (lines 203-206). *)
Definition sendAck (ack : list Z) (to : Origin) : M unit :=
  send (ACK_export ack) to.

(** [sendDatagram(datagram, to)] (lines 217-220). *)
Definition sendDatagram (datagram : Datagram) (to : Origin) : M unit :=
  send (Datagram_export datagram) to.

(** The loop of lines 299-302, [i] running from its argument up to
    [quotient]; [fuel] bounds the turns. *)
Fixpoint read_buffers (fuel : nat) (i quotient remainder maxSize : Z)
    (buffer : Buffer) (buffers : list bytes) : Outcome (list bytes) :=
  if i <=? quotient then
    match fuel with
    | O => Hang
    | S fuel =>
        let size := if i =? quotient then remainder else maxSize in
        match readArray size buffer with
        | None => Throw (Foreign "Buffer.readArray")
        | Some (chunk, buffer) =>
            read_buffers fuel (i + 1) quotient remainder maxSize buffer
              (buffers ++ [chunk])
        end
    end
  else Done buffers.

(** Lines 291-302.  With [maxSize = 0] the quotient is [Infinity] and the
    loop has no end, or [NaN] (for an empty payload) and it has no turn;
    otherwise [Math.floor(length / maxSize)] is [Z.div] and [%] is
    [Z.rem]. *)
Definition split_buffers (sub : bytes) (mtuSize : Z) : Outcome (list bytes) :=
  let length := Z.of_nat (length sub) in
  let maxSize := mtuSize - 60 in
  if maxSize =? 0 then (if length =? 0 then Done [] else Hang)
  else
    let quotient := length / maxSize in
    let remainder := Z.rem length maxSize in
    read_buffers (Z.to_nat (quotient + 1)) 0 quotient remainder maxSize
      (mkBuffer sub 0) [].

(** The loop of lines 320-342 from position [i] on; every datagram is
    exported and sent before [split.index] is written again. *)
Fixpoint send_buffers (i : Z) (buffers : list bytes) (split : option Split)
    (packet : EncapsulatedPacket) (to : Origin) : M unit :=
  match buffers with
  | [] => mret tt
  | sub :: rest =>
      let split := (fun sp => mkSplit (split_id sp) i (split_count sp)) <$> split in
      s ← get;
      let index := packetIndex_of to s in
      modify (set_packetIndex to (index + 1)) ;;
      let fragment :=
        mkPacket (reliability packet) sub (Some index) (sequence packet)
          (order packet) split in
      s ← get;
      let seqNumber := seqNumber_of to s in
      modify (set_seqNumber to (seqNumber + 1)) ;;
      sendDatagram (mkDatagram flag_valid seqNumber [fragment]) to ;;
      send_buffers (i + 1) rest split packet to
  end.

(** [sendPacket(packet, to)] (lines 290-343). *)
Definition sendPacket (packet : EncapsulatedPacket) (to : Origin) : M unit :=
  s ← get;
  match split_buffers (sub packet) (_mtuSize s) with
  | Hang => hang
  | Throw e => throw e
  | Done buffers =>
      split ←
        (if 1 <? Z.of_nat (length buffers) then
           s ← get;
           let splitID := splitID_of to s in
           modify (set_splitID to (splitID + 1)) ;;
           mret (Some (mkSplit (Z.rem splitID 65536) 0 (Z.of_nat (length buffers))))
         else mret None);
      send_buffers 0 buffers split packet to
  end.

(** [handleLoginPacket(buffer)] (lines 433-460). *)
Definition handleLoginPacket (buffer : bytes) : M bytes :=
  login ← foreign "LoginPacket.from" (LoginPacket_from buffer);
  let last := last (tokens login) in
  n ← draw;
  let keyPair := genKeyPair n in
  n ← draw;
  let salt := toB64 (getRandomValues n) in
  modify (set_keyPair (Some keyPair)) ;;
  modify (set_salt salt) ;;
  match last with
  | None => throw (TypeError "last is undefined")
  | Some last =>
      secret ← foreign "diffieHellman"
                 (diffieHellman (privateKey keyPair) (identityPublicKey last) salt);
      modify (set_batch client (Some (mkCodec secret client))) ;;
      let last := sign keyPair (with_identityPublicKey (publicKey keyPair) last) in
      let login :=
        mkLogin (take (length (tokens login) - 1)%nat (tokens login) ++ [last])
                (sign keyPair (login_client login)) in
      mret (LoginPacket_export login)
  end.

(** [handleHandshakePacket(buffer)] (lines 413-431). *)
Definition handleHandshakePacket (buffer : bytes) : M bytes :=
  token ← foreign "ServerHandshakePacket.from" (ServerHandshakePacket_from buffer);
  s ← get;
  match _keyPair s with
  | None => throw (TypeError "keyPair is undefined")
  | Some keyPair =>
      secret ← foreign "diffieHellman"
                 (diffieHellman (privateKey keyPair) (x5u token) (salt token));
      modify (set_batch server (Some (mkCodec secret server))) ;;
      s ← get;
      let token := sign keyPair (with_salt (_salt s) token) in
      set_state_M Encrypted ;;
      mret (ServerHandshakePacket_export token)
  end.

(** [handleBedrock(data, from)] (lines 388-411). *)
Definition handleBedrock (data : bytes) (from : Origin) : M bytes :=
  let buffer := data in
  id ← foreign "BedrockPacket.header" (BedrockPacket_header buffer);
  data ←
    (if decide (from = client) then
       data ← (if id =? LoginPacket_id then handleLoginPacket buffer else mret data);
       (if id =? ResourcePackResponse_id
        then foreign "ResourcePackResponse.from" (ResourcePackResponse_from buffer) ;; mret tt
        else mret tt) ;;
       mret data
     else mret data);
  if decide (from = server) then
    if id =? ServerHandshakePacket_id then handleHandshakePacket buffer else mret data
  else mret data.

(** [handleUnencryptedBatch(buffer, from)] (lines 353-362). *)
Definition handleUnencryptedBatch (buffer : bytes) (from : Origin) : M bytes :=
  batch ← foreign "BatchPacket.from" (BatchPacket_from buffer);
  packets ← mapM (fun data => handleBedrock data from) batch;
  foreign "BatchPacket.export" (BatchPacket_export packets).

(** [handleEncryptedBatch(buffer, from)] (lines 367-386): both classes are
    read before the batch is gone through. *)
Definition handleEncryptedBatch (buffer : bytes) (from : Origin) : M bytes :=
  s ← get;
  let ReceiveBatch := batch_of from s in
  let SendBatch := batch_of (opposite from) s in
  match ReceiveBatch with
  | None => throw (TypeError "ReceiveBatch is undefined")
  | Some ReceiveBatch =>
      batch ← foreign "EncryptedBatchPacket.from" (EncryptedBatchPacket_from ReceiveBatch buffer);
      packets ← mapM (fun data => handleBedrock data from) batch;
      match SendBatch with
      | None => throw (TypeError "SendBatch is not a constructor")
      | Some SendBatch =>
          foreign "EncryptedBatchPacket.export" (EncryptedBatchPacket_export SendBatch packets)
      end
  end.

(** [handleBatch(buffer, from)] (lines 345-351). *)
Definition handleBatch (buffer : bytes) (from : Origin) : M bytes :=
  s ← get;
  if decide (_state s = Encrypted)
  then handleEncryptedBatch buffer from
  else handleUnencryptedBatch buffer from.

(** Lines 279-287 of [handlePacket]. *)
Definition forward (packet : EncapsulatedPacket) (from : Origin) : M unit :=
  let buffer := sub packet in
  id ← foreign "ProtocolPacket.header" (ProtocolPacket_header buffer);
  packet ←
    (if id =? BatchPacket_id
     then sub' ← handleBatch buffer from; mret (with_sub sub' packet)
     else mret packet);
  sendPacket packet (opposite from).

(** [handlePacket(packet, from)] (lines 222-288). *)
Definition handlePacket (packet : EncapsulatedPacket) (from : Origin) : M unit :=
  admit_reliable packet from ≫= fun go_on : bool =>
  if go_on then
    whole ← reassemble packet from;
    match whole with
    | None => mret tt
    | Some packet => forward packet from
    end
  else mret tt.

(** [handleDatagram(datagram, from)] (lines 208-215). *)
Definition handleDatagram (datagram : Datagram) (from : Origin) : M unit :=
  let ack := [seqNumber datagram] in
  sendAck ack from ;;
  forM_ (packets datagram) (fun packet => handlePacket packet from).

(** [handleAck(ack, from)] (lines 197-201): a NACK is logged, no more. *)
Definition handleAck (nack : bool) (ack : list Z) (from : Origin) : M unit :=
  mret tt.

(** [handleOnline(data, from)] (lines 185-195). *)
Definition handleOnline (data : bytes) (from : Origin) : M unit :=
  datagram ← foreign "datagramOf" (datagramOf data);
  match datagram with
  | IsDatagram datagram => handleDatagram datagram from
  | IsAck ack => handleAck false ack from
  | IsNack ack => handleAck true ack from
  | IsNeither => mret tt
  end.

(** [handleOffline(data, from)] (lines 169-183). *)
Definition handleOffline (data : bytes) (from : Origin) : M unit :=
  let buffer := data in
  id ← foreign "ProtocolPacket.header" (ProtocolPacket_header buffer);
  (if id =? Open2Request_id then
     mtuSize ← foreign "Open2Request.from" (Open2Request_mtuSize buffer);
     s ← get;
     modify (set_mtuSize (Z.min mtuSize (_mtuSize s)))
   else mret tt) ;;
  (if id =? Open2Reply_id then set_state_M Online else mret tt) ;;
  send data (opposite from).

(** [handle(data, from)] (lines 137-149). *)
Definition handle (data : bytes) (from : Origin) : M unit :=
  perform (Emit data_in data from) ;;
  match emit data_in data from with
  | cancelled => mret tt
  | replaced (Some data) (Some from) =>
      s ← get;
      if decide (_state s = Offline)
      then handleOffline data from
      else handleOnline data from
  | replaced _ _ => mret tt
  end.
End Pipeline.

(** ** The datagram codec ([datagram.ts] lines 18-37) *)

(** Modelled from the spec: [Buffer] ([protocol/buffer.ts]) is not among the
    sources.  By section 4.1, [readByte] and [readLTriad] read one byte and
    a 24-bit little-endian triad at the read cursor and fail on a short
    read, [remaining] is the number of bytes left to read, and [writeByte]
    and [writeLTriad] append what their counterparts read; a value written
    as a byte is stored modulo 256, as a typed array does. *)
Definition value_of (b : byte) : Z := Z.of_N (Byte.to_N b).

Definition byte_of (n : Z) : byte :=
  match Byte.of_N (Z.to_N (n mod 256)) with Some b => b | None => x00 end.

Definition remaining (buffer : Buffer) : nat :=
  length (array buffer) - offset buffer.

Definition readByte (buffer : Buffer) : option (Z * Buffer) :=
  match array buffer !! offset buffer with
  | Some b => Some (value_of b, mkBuffer (array buffer) (S (offset buffer)))
  | None => None
  end.

Definition readLTriad (buffer : Buffer) : option (Z * Buffer) :=
  match readByte buffer with
  | Some (b0, buffer) =>
      match readByte buffer with
      | Some (b1, buffer) =>
          match readByte buffer with
          | Some (b2, buffer) => Some (b0 + 256 * b1 + 65536 * b2, buffer)
          | None => None
          end
      | None => None
      end
  | None => None
  end.

Definition writeByte (n : Z) : bytes := [byte_of n].

Definition writeLTriad (n : Z) : bytes :=
  [byte_of n; byte_of (Z.shiftr n 8); byte_of (Z.shiftr n 16)].

Section Codec.
(** [EncapsulatedPacket.from] and [EncapsulatedPacket.to]
    ([protocol/online/encapsulation.ts]) are not among the sources: the
    first reads a packet at the cursor and answers it with the buffer as it
    leaves it, the second answers the bytes it writes. *)
Variable EncapsulatedPacket_from : Buffer -> option (EncapsulatedPacket * Buffer).
Variable EncapsulatedPacket_to : EncapsulatedPacket -> bytes.

(** The loop of lines 23-25. *)
Fixpoint read_packets (fuel : nat) (buffer : Buffer) (packets : list EncapsulatedPacket)
  : Outcome (list EncapsulatedPacket) :=
  if decide (remaining buffer = 0%nat) then Done packets
  else
    match fuel with
    | O => Hang
    | S fuel =>
        match EncapsulatedPacket_from buffer with
        | None => Throw (Foreign "EncapsulatedPacket.from")
        | Some (packet, buffer) => read_packets fuel buffer (packets ++ [packet])
        end
    end.

(** [Datagram.from(buffer)] (lines 18-28).  A packet that is read without
    the cursor moving is read again for ever, so as many turns as there are
    bytes left are enough for a loop that ends. *)
Definition Datagram_from (buffer : Buffer) : Outcome Datagram :=
  match readByte buffer with
  | None => Throw (Foreign "Buffer.readByte")
  | Some (headerFlags, buffer) =>
      match readLTriad buffer with
      | None => Throw (Foreign "Buffer.readLTriad")
      | Some (seqNumber, buffer) =>
          match read_packets (remaining buffer) buffer [] with
          | Done packets => Done (mkDatagram headerFlags seqNumber packets)
          | Throw e => Throw e
          | Hang => Hang
          end
      end
  end.

(** [Datagram.to(buffer)] (lines 30-37): the bytes written. *)
Definition Datagram_to (datagram : Datagram) : bytes :=
  writeByte (Z.lor flag_valid (headerFlags datagram))
  ++ writeLTriad (seqNumber datagram)
  ++ concat (map EncapsulatedPacket_to (packets datagram)).

(** What the codec of encapsulated packets has to do for a datagram to be
    written back as it was read: the bytes [to] writes are the bytes [from]
    has read, and [from] leaves the array alone. *)
Definition packets_round_trip : Prop :=
  forall buffer packet buffer',
    EncapsulatedPacket_from buffer = Some (packet, buffer') ->
    array buffer' = array buffer /\
    drop (offset buffer) (array buffer)
    = EncapsulatedPacket_to packet ++ drop (offset buffer') (array buffer').
End Codec.

(** A codec of encapsulated packets to run the datagram codec with: a
    packet is one byte of payload. *)
Definition one_byte_from (buffer : Buffer) : option (EncapsulatedPacket * Buffer) :=
  match array buffer !! offset buffer with
  | Some b =>
      Some (mkPacket 0 [b] None None None None,
            mkBuffer (array buffer) (S (offset buffer)))
  | None => None
  end.

Definition one_byte_to (packet : EncapsulatedPacket) : bytes := sub packet.

(** ** The outbound encryption helper ([node/src/encrypt.ts])

    AES-256 (FIPS 197) in Galois/counter mode (SP 800-38D), which
    [createCipheriv("aes-256-gcm", key, iv)] of Node's [crypto] runs. *)

Module Gcm.
(** Bytes are integers below 256, blocks of 128 bits are lists of 16 bytes
    (AES) or integers below 2^128, first byte most significant (GHASH). *)

(** Multiplication by x in GF(2^8), modulo x^8 + x^4 + x^3 + x + 1. *)

Definition xtime (b : Z) : Z :=
  let s := Z.shiftl b 1 in if Z.testbit s 8 then Z.lxor s 0x11b else s.

Fixpoint gmul_bits (n : nat) (a b : Z) : Z :=
  match n with
  | O => 0
  | S n => Z.lxor (if Z.odd b then a else 0) (gmul_bits n (xtime a) (Z.shiftr b 1))
  end.

Definition gmul (a b : Z) : Z := gmul_bits 8 a b.

Fixpoint gpow (n : nat) (a : Z) : Z :=
  match n with O => 1 | S n => gmul a (gpow n a) end.

(** The S-box: the inverse in GF(2^8), then the affine map. *)
Definition rotl8 (b n : Z) : Z :=
  Z.land (Z.lor (Z.shiftl b n) (Z.shiftr b (8 - n))) 0xff.

Definition sbox_of (b : Z) : Z :=
  let i := gpow 254 b in
  Z.lxor i (Z.lxor (rotl8 i 1) (Z.lxor (rotl8 i 2) (Z.lxor (rotl8 i 3) (Z.lxor (rotl8 i 4) 0x63)))).

Definition sbox_table : list Z :=
  Eval vm_compute in map (fun n => sbox_of (Z.of_nat n)) (seq 0 256).

Definition sbox (b : Z) : Z := nth (Z.to_nat b) sbox_table 0.

(** The state is in column order: byte [r + 4c] is row [r] of column [c]. *)
Definition at_ (s : list Z) (i : nat) : Z := nth i s 0.

Definition SubBytes (s : list Z) : list Z := map sbox s.

Definition ShiftRows (s : list Z) : list Z :=
  map (fun i => at_ s (i mod 4 + 4 * ((i / 4 + i mod 4) mod 4)))%nat (seq 0 16).

Definition MixColumns (s : list Z) : list Z :=
  map (fun i =>
         let a := fun j => at_ s (4 * (i / 4) + (i mod 4 + j) mod 4)%nat in
         Z.lxor (gmul 2 (a 0%nat)) (Z.lxor (gmul 3 (a 1%nat)) (Z.lxor (a 2%nat) (a 3%nat))))
      (seq 0 16).

Definition AddRoundKey (s k : list Z) : list Z :=
  map (fun i => Z.lxor (at_ s i) (at_ k i)) (seq 0 16).

Definition xor_word (a b : list Z) : list Z :=
  map (fun i => Z.lxor (at_ a i) (at_ b i)) (seq 0 4).

Definition RotWord (w : list Z) : list Z := [at_ w 1; at_ w 2; at_ w 3; at_ w 0].
Definition SubWord (w : list Z) : list Z := map sbox w.

(** Key expansion for a key of 8 words: [w] holds the words below [i]. *)
Fixpoint expand (n i : nat) (w : list (list Z)) : list (list Z) :=
  match n with
  | O => w
  | S n =>
      let temp := nth (i - 1) w [] in
      let temp :=
        if (i mod 8 =? 0)%nat
        then xor_word (SubWord (RotWord temp)) [gpow (i / 8 - 1) 2; 0; 0; 0]
        else if (i mod 8 =? 4)%nat then SubWord temp else temp in
      expand n (S i) (w ++ [xor_word (nth (i - 8) w []) temp])
  end.

Definition KeyExpansion (key : list Z) : list (list Z) :=
  expand 52 8 (map (fun i => firstn 4 (skipn (4 * i) key)) (seq 0 8)).

Definition round_key (w : list (list Z)) (r : nat) : list Z :=
  concat (firstn 4 (skipn (4 * r) w)).

Fixpoint rounds (n r : nat) (w : list (list Z)) (s : list Z) : list Z :=
  match n with
  | O => s
  | S n => rounds n (S r) w (AddRoundKey (MixColumns (ShiftRows (SubBytes s))) (round_key w r))
  end.

(** The cipher of FIPS 197 for 14 rounds. *)
Definition Cipher (w : list (list Z)) (block : list Z) : list Z :=
  let s := AddRoundKey block (round_key w 0) in
  let s := rounds 13 1 w s in
  AddRoundKey (ShiftRows (SubBytes s)) (round_key w 14).

Definition block_value (b : list Z) : Z :=
  fold_left (fun acc i => acc * 256 + at_ b i) (seq 0 16) 0.

Definition block_bytes (v : Z) : list Z :=
  map (fun i => Z.land (Z.shiftr v (8 * (15 - Z.of_nat i))) 0xff) (seq 0 16).

(** Multiplication in GF(2^128) as SP 800-38D writes it. *)
Definition R : Z := Z.shiftl 0xe1 120.

Fixpoint mul_loop (n : nat) (x v z : Z) : Z :=
  match n with
  | O => z
  | S n =>
      let z := if Z.testbit x (Z.of_nat n) then Z.lxor z v else z in
      let v := if Z.odd v then Z.lxor (Z.shiftr v 1) R else Z.shiftr v 1 in
      mul_loop n x v z
  end.

Definition mul (x y : Z) : Z := mul_loop 128 x y 0.

Definition GHASH (h : Z) (blocks : list Z) : Z :=
  fold_left (fun y x => mul (Z.lxor y x) h) blocks 0.

Fixpoint blocks_of (fuel : nat) (l : list Z) : list Z :=
  match fuel, l with
  | _, [] => []
  | O, _ => []
  | S fuel, _ => block_value (firstn 16 l) :: blocks_of fuel (skipn 16 l)
  end.

Definition length_block (a c : list Z) : Z :=
  Z.of_nat (length a) * 8 * 2 ^ 64 + Z.of_nat (length c) * 8.

Definition inc32 (v : Z) (n : Z) : Z :=
  Z.shiftl (Z.shiftr v 32) 32 + (Z.land v 0xffffffff + n) mod 2 ^ 32.

(** The pre-counter block: the IV and a counter of 1 for an IV of 96 bits,
    the hash of the IV and its length otherwise. *)
Definition J0 (h : Z) (iv : list Z) : Z :=
  if (length iv =? 12)%nat then block_value iv + 1
  else GHASH h (blocks_of (length iv) iv ++ [length_block [] iv]).

(** Counter mode from the block [icb]: byte [i] is masked with byte
    [i mod 16] of the cipher of the counter block number [i / 16]. *)
Definition GCTR (w : list (list Z)) (icb : Z) (x : list Z) : list Z :=
  map (fun '(i, b) =>
         Z.lxor b (at_ (Cipher w (block_bytes (inc32 icb (Z.of_nat (i / 16))))) (i mod 16)))
      (combine (seq 0 (length x)) x).

(** Authenticated encryption: the ciphertext and the tag of 16 bytes. *)
Definition encrypt (key iv aad plaintext : list Z) : list Z * list Z :=
  let w := KeyExpansion key in
  let h := block_value (Cipher w (repeat 0 16)) in
  let j0 := J0 h iv in
  let c := GCTR w (inc32 j0 1) plaintext in
  let s := GHASH h (blocks_of (length aad) aad ++ blocks_of (length c) c ++ [length_block aad c]) in
  (c, GCTR w j0 (block_bytes s)).
End Gcm.

(** Node's cipher object for ["aes-256-gcm"], by what it was made from.
    [createCipheriv] throws unless the key has 32 bytes and the IV is not
    empty; other algorithms are not modelled. *)
Record Cipheriv := mkCipheriv { cipher_key : bytes; cipher_iv : bytes }.

Definition createCipheriv (algorithm : string) (key iv : bytes) : option Cipheriv :=
  if String.eqb algorithm "aes-256-gcm"
       && (length key =? 32)%nat && negb (length iv =? 0)%nat
  then Some (mkCipheriv key iv)
  else None.

Definition gcm_of (cipher : Cipheriv) (data : bytes) : list Z * list Z :=
  Gcm.encrypt (map value_of (cipher_key cipher)) (map value_of (cipher_iv cipher)) []
    (map value_of data).

(** [cipher.update(data)], called once: the ciphertext of [data]. *)
Definition update (cipher : Cipheriv) (data : bytes) : bytes :=
  map byte_of (fst (gcm_of cipher data)).

(** [cipher.final()]: the mode has no padding and holds nothing back, so
    nothing is left to answer. *)
Definition final (cipher : Cipheriv) : bytes := [].

(** [cipher.getAuthTag()], which Node answers once [final] was called: the
    tag over what [update] was given. *)
Definition getAuthTag (cipher : Cipheriv) (data : bytes) : bytes :=
  map byte_of (snd (gcm_of cipher data)).

(** The request of one line, once [JSON.parse] has read it: [data] is an
    array of integers, and [secret] stands for the bytes
    [Buffer.from(request.secret, "base64")] decodes. *)
Record Request := mkRequest { request_data : list Z; request_secret : bytes }.

(** [Buffer.from(array)]: every entry is stored modulo 256. *)
Definition Buffer_from (values : list Z) : bytes := map byte_of values.

(** The handler of [std.on("line", ...)] (lines 6-19): what it prints
    before the process exits. *)
Definition on_line (request : Request) : Outcome bytes :=
  let data := Buffer_from (request_data request) in
  let secret := request_secret request in
  let iv := take 16 secret in
  match createCipheriv "aes-256-gcm" secret iv with
  | None => Throw (Foreign "createCipheriv")
  | Some cipher =>
      let result := update cipher data ++ final cipher in
      Done result
  end.

(** ** Reading a trace *)

(** The messages handed to [send], in order, each with its destination:
    the data-out events of a trace. *)
Definition outbound (t : list Effect) : list (bytes * Origin) :=
  omap (fun e => match e with
                 | Emit data_out data to => Some (data, to)
                 | _ => None
                 end) t.

(** A result of [emit] that [send] accepts: a cancellation, or a tuple that
    has both its data and its destination. *)
Definition keeps_tuple (r : EmitResult) : Prop :=
  match r with
  | cancelled => True
  | replaced (Some _) (Some _) => True
  | replaced _ _ => False
  end.

(** An effect that is no data-out event toward another side than [o]. *)
Definition toward (o : Origin) (e : Effect) : Prop :=
  match e with
  | Emit data_out _ to => to = o
  | _ => True
  end.

(** The payloads handed to [send] toward [o], in order. *)
Definition sent_toward (o : Origin) (t : list Effect) : list bytes :=
  omap (fun e => match e with
                 | Emit data_out data to => if decide (to = o) then Some data else None
                 | _ => None
                 end) t.

(** A computation that only adds to the trace, and whose data-out events
    all go toward [o]. *)
Definition sends_toward (o : Origin) {A} (m : M A) : Prop :=
  forall w, exists rest, trace (snd (m w)) = trace w ++ rest /\ Forall (toward o) rest.

(** A world in another state of the session. *)
Definition with_state (v : SessionState) (w : World) : World :=
  mkWorld (set_state v (session w)) (trace w) (draws w).

(** A computation that does not consult the state of the session: in any
    other state it gives the same result and does the same, up to the state
    it leaves. *)
Definition oblivious {A} (m : M A) : Prop :=
  forall v w,
    fst (m (with_state v w)) = fst (m w) /\
    exists v', snd (m (with_state v w)) = with_state v' (snd (m w)).

(** ** Collaborators to run the model with

    A plain set of collaborators, for evaluating the model on concrete
    inputs: no subscriber on the event bus ([emit] resolves to its
    arguments), headers that are the first byte of the array and fail on an
    empty one, and codecs, tokens and keys reduced to what the session reads
    of them. *)

Definition first_byte (data : bytes) : option Z :=
  match data with
  | [] => None
  | b :: _ => Some (value_of b)
  end.

Definition plain_token : JWT :=
  mkJWT "peer-public-key" "peer-salt" "client-public-key" "" "peer-signature".

Definition plain_emit (with_data_in : EmitResult -> EmitResult)
    (with_data_out : EmitResult -> EmitResult)
    (event : SessionEvent) (data : bytes) (o : Origin) : EmitResult :=
  match event with
  | data_in => with_data_in (replaced (Some data) (Some o))
  | data_out => with_data_out (replaced (Some data) (Some o))
  | _ => replaced (Some data) (Some o)
  end.

(** A header that reads an empty array as 0 instead of failing. *)
Definition lenient_byte (data : bytes) : option Z :=
  match data with
  | [] => Some 0
  | b :: _ => Some (value_of b)
  end.

(** The plain collaborators, with what the data-in and the data-out
    subscribers do to the tuple, and the header of protocol packets, left
    open. *)
Definition plain_with (with_data_in with_data_out : EmitResult -> EmitResult)
    (header : bytes -> option Z) : Collaborators :=
  {| emit := plain_emit with_data_in with_data_out;
     ProtocolPacket_header := header;
     Open2Request_id := 0x07;
     Open2Reply_id := 0x08;
     Open2Request_mtuSize := fun data =>
       match data with
       | _ :: hi :: lo :: _ => Some (256 * value_of hi + value_of lo)
       | _ => None
       end;
     datagramOf := fun data =>
       match data with
       | [] => None
       | b :: rest =>
           if Z.testbit (value_of b) 7
           then Some (IsDatagram (mkDatagram (value_of b) 0
                                    [mkPacket 0 rest None None None None]))
           else Some IsNeither
       end;
     ACK_export := fun seqNumbers => xc0 :: map byte_of seqNumbers;
     Datagram_export := fun d =>
       byte_of (Z.lor flag_valid (headerFlags d)) :: byte_of (seqNumber d)
       :: concat (map sub (packets d));
     BatchPacket_id := 0xfe;
     BatchPacket_from := fun data => Some [tail data];
     BatchPacket_export := fun inner => Some (xfe :: concat inner);
     EncryptedBatchPacket_from := fun _ data => Some [tail data];
     EncryptedBatchPacket_export := fun _ inner => Some (xfe :: concat inner);
     BedrockPacket_header := first_byte;
     LoginPacket_id := 0x01;
     LoginPacket_from := fun _ => Some (mkLogin [plain_token] plain_token);
     LoginPacket_export := fun login =>
       x01 :: concat (map (fun t => list_byte_of_string (identityPublicKey t)) (tokens login));
     ResourcePackResponse_id := 0x08;
     ResourcePackResponse_from := fun _ => Some 0;
     ServerHandshakePacket_from := fun _ => Some plain_token;
     ServerHandshakePacket_export := fun t => x03 :: list_byte_of_string (salt t);
     signature_of := fun keyPair _ => privateKey keyPair;
     diffieHellman := fun privateKey publicKey salt =>
       Some (list_byte_of_string (privateKey ++ publicKey ++ salt));
     toB64 := string_of_list_byte;
     genKeyPair := fun _ => mkKeyPair "proxy-private-key" "proxy-public-key";
     getRandomValues := fun _ => replicate 16 x41 |}.

Definition plain : Collaborators := plain_with (fun r => r) (fun r => r) first_byte.

(** Subscribers that lose the data or the origin of the tuple, and one
    that replaces the data by an array of length zero. *)
Definition loses_data (r : EmitResult) : EmitResult := replaced None (Some client).
Definition loses_origin (r : EmitResult) : EmitResult := replaced (Some [x00]) None.
Definition empties_data (r : EmitResult) : EmitResult := replaced (Some []) (Some client).

(** ** Inputs to run the model on *)

(** The two fragments of a payload of two bytes, split set 7. *)
Definition second_fragment : EncapsulatedPacket :=
  mkPacket 0 [x01] None None None (Some (mkSplit 7 1 2)).
Definition first_fragment : EncapsulatedPacket :=
  mkPacket 0 [x00] None None None (Some (mkSplit 7 0 2)).

(** A reliable packet of index [i]. *)
Definition reliable (i : Z) : EncapsulatedPacket :=
  mkPacket 2 [x00] (Some i) None None None.

(** The datagram that carries the array at position [k] of the loop of
    lines 320-342, entered with the counters at [index] and [seqNumber]. *)
Definition datagram_at (packet : EncapsulatedPacket) (split : option Split)
    (index seqNumber : Z) (k : nat) (sub : bytes) : Datagram :=
  mkDatagram flag_valid (seqNumber + Z.of_nat k)
    [mkPacket (reliability packet) sub (Some (index + Z.of_nat k))
       (sequence packet) (order packet)
       ((fun sp => mkSplit (split_id sp) (Z.of_nat k) (split_count sp)) <$> split)].

(** A reliable packet of 3000 bytes, and one of 5. *)
Definition packet_3000 : EncapsulatedPacket :=
  mkPacket 2 (replicate 3000 x00) (Some 0) None None None.
Definition packet_5 : EncapsulatedPacket :=
  mkPacket 2 [x01; x02; x03; x04; x05] (Some 0) None None None.

(** A session as a login interception leaves it. *)
Definition after_login : Session :=
  set_batch client (Some (mkCodec [x00] client))
    (set_salt "proxy-salt"
       (set_keyPair (Some (mkKeyPair "proxy-private-key" "proxy-public-key"))
          (set_state Online new_session))).

(** A session that is already [Encrypted]. *)
Definition encrypted_session : Session :=
  set_batch server (Some (mkCodec [x01] server)) (set_state Encrypted after_login).

(** The world in which [stored] are the fragments held for split set [sid]
    in slot [slot]. *)
Definition holding (from : Origin) (w : World) (slot : nat) (sid : Z)
    (stored : list EncapsulatedPacket) : World :=
  mkWorld (set_splits from
             (<[slot := Some (mkMemory sid stored)]> (splits_of from (session w)))
             (session w))
    (trace w) (draws w).

(** ** The inbound decryption helper and its mode *)

(** [node/src/decrypt.ts].

    AES-256 in the 8-bit cipher feedback mode (SP 800-38A, section 6.3),
    which [createDecipheriv("aes-256-cfb8", key, iv)] of Node's [crypto]
    runs: every byte is masked with the first byte of the cipher of the
    input block, and the input block takes the ciphertext byte in at its
    end. *)
Module Cfb8.
Definition shift (register : list Z) (c : Z) : list Z := skipn 1 register ++ [c].

Fixpoint decrypt (w : list (list Z)) (register : list Z) (ciphertext : list Z) : list Z :=
  match ciphertext with
  | [] => []
  | c :: rest =>
      Z.lxor c (Gcm.at_ (Gcm.Cipher w register) 0)
      :: decrypt w (shift register c) rest
  end.

(** The encryption of the mode, which the sender of the ciphertext runs. *)
Fixpoint encrypt (w : list (list Z)) (register : list Z) (plaintext : list Z) : list Z :=
  match plaintext with
  | [] => []
  | p :: rest =>
      let c := Z.lxor p (Gcm.at_ (Gcm.Cipher w register) 0) mod 256 in
      c :: encrypt w (shift register c) rest
  end.
End Cfb8.

Module Decrypt.
(** Node's decipher object for ["aes-256-cfb8"], by what it was made from.
    [createDecipheriv] throws unless the key has 32 bytes and the IV 16;
    other algorithms are not modelled. *)
Record Decipheriv := mkDecipheriv { decipher_key : bytes; decipher_iv : bytes }.

Definition createDecipheriv (algorithm : string) (key iv : bytes) : option Decipheriv :=
  if String.eqb algorithm "aes-256-cfb8"
       && (length key =? 32)%nat && (length iv =? 16)%nat
  then Some (mkDecipheriv key iv)
  else None.

(** [decipher.update(data)], called once: the mode works byte by byte and
    holds nothing back. *)
Definition update (decipher : Decipheriv) (data : bytes) : bytes :=
  map byte_of
    (Cfb8.decrypt (Gcm.KeyExpansion (map value_of (decipher_key decipher)))
       (map value_of (decipher_iv decipher)) (map value_of data)).

(** The handler of [std.on("line", ...)] (lines 6-19): what it prints
    before the process exits. *)
Definition on_line (request : Request) : Outcome bytes :=
  let data := Buffer_from (request_data request) in
  let secret := request_secret request in
  let iv := take 16 secret in
  match createDecipheriv "aes-256-cfb8" secret iv with
  | None => Throw (Foreign "createDecipheriv")
  | Some decipher =>
      let result := update decipher data in
      Done result
  end.
End Decrypt.

(** ** Reading back what [Datagram.to] wrote *)

(** What the codec of encapsulated packets has to do with a packet for a
    datagram to be read back as it was written: [to] writes at least one
    byte, and [from], at the first of the bytes [to] has written, reads the
    packet and leaves the cursor behind them. *)
Definition reads_back
    (EncapsulatedPacket_from : Buffer -> option (EncapsulatedPacket * Buffer))
    (EncapsulatedPacket_to : EncapsulatedPacket -> bytes)
    (packet : EncapsulatedPacket) : Prop :=
  forall before after : bytes,
    EncapsulatedPacket_to packet <> [] /\
    EncapsulatedPacket_from
      (mkBuffer (before ++ EncapsulatedPacket_to packet ++ after) (length before))
    = Some (packet,
            mkBuffer (before ++ EncapsulatedPacket_to packet ++ after)
              (length before + length (EncapsulatedPacket_to packet))).

(** ** Packets that pass untouched *)

(** A Bedrock packet that [handleBedrock] has no branch for: its header
    reads, it is no login from the client and no handshake from the server,
    and a resource pack response from the client parses. *)
Definition ordinary `{Collaborators} (from : Origin) (data : bytes) : bool :=
  match BedrockPacket_header data with
  | None => false
  | Some id =>
      match from with
      | client =>
          negb (id =? LoginPacket_id)
          && (negb (id =? ResourcePackResponse_id)
              || bool_decide (is_Some (ResourcePackResponse_from data)))
      | server => negb (id =? ServerHandshakePacket_id)
      end
  end.

(** An encapsulated packet that needs no window, no reassembly, no batch
    handling and no fragmentation on its way through [handlePacket]. *)
Definition passes_through `{Collaborators} (mtuSize : Z) (p : EncapsulatedPacket) : Prop :=
  isReliable (reliability p) = false /\ split p = None /\
  (exists id, ProtocolPacket_header (sub p) = Some id /\ id <> BatchPacket_id) /\
  Z.of_nat (length (sub p)) < mtuSize - 60.

(** The datagram [sendPacket] makes of such a packet, with the counters at
    [index] and [seqNumber]. *)
Definition relayed (p : EncapsulatedPacket) (index seqNumber : Z) : Datagram :=
  mkDatagram flag_valid seqNumber
    [mkPacket (reliability p) (sub p) (Some index) (sequence p) (order p) None].

(** ** Collaborators for a login that fails *)

(** The plain collaborators with another parser of logins and another key
    agreement. *)
Definition plain_login (from_ : bytes -> option LoginPacket)
    (agree : string -> string -> string -> option bytes) : Collaborators :=
  {| emit := emit (Collaborators := plain);
     ProtocolPacket_header := ProtocolPacket_header (Collaborators := plain);
     Open2Request_id := Open2Request_id (Collaborators := plain);
     Open2Reply_id := Open2Reply_id (Collaborators := plain);
     Open2Request_mtuSize := Open2Request_mtuSize (Collaborators := plain);
     datagramOf := datagramOf (Collaborators := plain);
     ACK_export := ACK_export (Collaborators := plain);
     Datagram_export := Datagram_export (Collaborators := plain);
     BatchPacket_id := BatchPacket_id (Collaborators := plain);
     BatchPacket_from := BatchPacket_from (Collaborators := plain);
     BatchPacket_export := BatchPacket_export (Collaborators := plain);
     EncryptedBatchPacket_from := EncryptedBatchPacket_from (Collaborators := plain);
     EncryptedBatchPacket_export := EncryptedBatchPacket_export (Collaborators := plain);
     BedrockPacket_header := BedrockPacket_header (Collaborators := plain);
     LoginPacket_id := LoginPacket_id (Collaborators := plain);
     LoginPacket_from := from_;
     LoginPacket_export := LoginPacket_export (Collaborators := plain);
     ResourcePackResponse_id := ResourcePackResponse_id (Collaborators := plain);
     ResourcePackResponse_from := ResourcePackResponse_from (Collaborators := plain);
     ServerHandshakePacket_from := ServerHandshakePacket_from (Collaborators := plain);
     ServerHandshakePacket_export := ServerHandshakePacket_export (Collaborators := plain);
     signature_of := signature_of (Collaborators := plain);
     diffieHellman := agree;
     toB64 := toB64 (Collaborators := plain);
     genKeyPair := genKeyPair (Collaborators := plain);
     getRandomValues := getRandomValues (Collaborators := plain) |}.

(** ** The remembered indexes *)

(** Every index held for duplicate detection lies in the reliable window of
    its origin. *)
Definition indexes_in_window (s : Session) : Prop :=
  forall o i, i ∈ indexes_of o s ->
    w_start (window_of o s) <= i <= w_end (window_of o s).

Definition keeps_indexes_in_window (s s' : Session) : Prop :=
  indexes_in_window s -> indexes_in_window s'.

(** ** A window that is stuck *)

(** A window whose start is among the remembered indexes, and a step that
    leaves such a window where it is. *)
Definition stuck (o : Origin) (s : Session) : Prop :=
  w_start (window_of o s) ∈ indexes_of o s.

Definition stays_stuck (o : Origin) (s s' : Session) : Prop :=
  stuck o s -> stuck o s' /\ window_of o s' = window_of o s.

(** ** What goes on the wire *)

(** The payloads [listener.send] was given for the side [o], in order. *)
Definition wire_toward (o : Origin) (t : list Effect) : list bytes :=
  omap (fun e => match e with
                 | ListenerSend data to => if decide (to = o) then Some data else None
                 | _ => None
                 end) t.

(** An effect that is neither a data-out event nor a [listener.send] for
    another side than [o]. *)
Definition bound_for (o : Origin) (e : Effect) : Prop :=
  match e with
  | Emit data_out _ to => to = o
  | ListenerSend _ to => to = o
  | _ => True
  end.

(** A result of [emit] that does not send the message elsewhere than to
    [o]. *)
Definition keeps_destination (o : Origin) (r : EmitResult) : Prop :=
  match r with
  | replaced (Some _) (Some to) => to = o
  | _ => True
  end.

(** A computation that only adds to the trace, and adds only effects that
    [P] holds of. *)
Definition adds (P : Effect -> Prop) {A} (m : M A) : Prop :=
  forall w, exists rest, trace (snd (m w)) = trace w ++ rest /\ Forall P rest.

(** Data-out subscribers that cancel the event, and that turn the message
    round. *)
Definition cancels (r : EmitResult) : EmitResult := cancelled.

Definition redirects (r : EmitResult) : EmitResult :=
  match r with
  | replaced data (Some o) => replaced data (Some (opposite o))
  | _ => r
  end.

(** ** Feeding a session *)

(** The calls of [handle] for the payloads received, one after the other,
    whatever each call comes to: what a call has written to the session
    stays written when it throws. *)
Fixpoint feed `{Collaborators} (inputs : list (bytes * Origin)) (w : World) : World :=
  match inputs with
  | [] => w
  | (data, from) :: rest => feed rest (snd (handle data from w))
  end.

(** [SessionState] as the numbers of the enum (lines 61-65). *)
Definition rank (v : SessionState) : Z :=
  match v with Offline => 0 | Online => 1 | Encrypted => 2 end.

(** A window that has moved forward, if at all, and kept its width. *)
Definition window_steady (a b : Window) : Prop :=
  w_end b - w_start b = w_end a - w_start a /\ w_start a <= w_start b.

(** What no call takes back: the tables keep their slots, the MTU does not
    grow, counters and windows do not go back, keys and codecs once stored
    stay stored, and the state is [Encrypted] only with a server codec and a
    key pair at hand (or because it was before). *)
Record steady (s s' : Session) : Prop := mkSteady {
  steady_clientSplits : length (_clientSplits s') = length (_clientSplits s);
  steady_serverSplits : length (_serverSplits s') = length (_serverSplits s);
  steady_mtuSize : _mtuSize s' <= _mtuSize s;
  steady_clientSplitID : _clientSplitID s <= _clientSplitID s';
  steady_serverSplitID : _serverSplitID s <= _serverSplitID s';
  steady_clientPacketIndex : _clientPacketIndex s <= _clientPacketIndex s';
  steady_serverPacketIndex : _serverPacketIndex s <= _serverPacketIndex s';
  steady_clientSeqNumber : _clientSeqNumber s <= _clientSeqNumber s';
  steady_serverSeqNumber : _serverSeqNumber s <= _serverSeqNumber s';
  steady_clientWindow : window_steady (_clientReliableWindow s) (_clientReliableWindow s');
  steady_serverWindow : window_steady (_serverReliableWindow s) (_serverReliableWindow s');
  steady_keyPair : is_Some (_keyPair s) -> is_Some (_keyPair s');
  steady_clientBatch : is_Some (_clientBatch s) -> is_Some (_clientBatch s');
  steady_serverBatch : is_Some (_serverBatch s) -> is_Some (_serverBatch s');
  steady_encrypted :
    _state s' = Encrypted ->
    _state s = Encrypted \/ (is_Some (_serverBatch s') /\ is_Some (_keyPair s'))
}.

(** The steps of the state that the online and the offline branch take. *)
Definition online_step (s s' : Session) : Prop :=
  _state s' = _state s \/ _state s' = Encrypted.

Definition offline_step (s s' : Session) : Prop :=
  _state s' = _state s \/ _state s' = Online.

(** A computation that leaves the session related to what it found. *)
Definition preserves (R : Session -> Session -> Prop) {A} (m : M A) : Prop :=
  forall w, R (session w) (session (snd (m w))).

(** * Properties *)

(** ** [findIndex] *)

Lemma findIndex_Some {A} (p : A -> bool) (l : list A) (i : nat) :
  findIndex p l = Some i <->
  (exists x, l !! i = Some x /\ p x = true) /\
  (forall j y, (j < i)%nat -> l !! j = Some y -> p y = false).
Proof.
  revert i. induction l as [|x l IH]; intros i; simpl.
  - split; [discriminate | intros [[y [Hy _]] _]; discriminate].
  - destruct (p x) eqn:Hpx.
    + split.
      * intros [= <-]. split; [exists x; auto | intros j y Hj; lia].
      * intros [[y [Hy Hpy]] Hfirst]. destruct i as [|i]; [reflexivity|].
        specialize (Hfirst 0%nat x ltac:(lia) eq_refl). congruence.
    + destruct (findIndex p l) as [k|] eqn:Hk; simpl.
      * split.
        -- intros [= <-]. destruct (proj1 (IH k) eq_refl) as [Hx Hfirst].
           split; [exact Hx|].
           intros [|j] y Hj Hy; simpl in Hy; [congruence|].
           apply (Hfirst j); [lia | exact Hy].
        -- intros [[y [Hy Hpy]] Hfirst]. destruct i as [|i]; simpl in Hy; [congruence|].
           f_equal. assert (Hi : Some k = Some i); [|congruence].
           apply IH. split; [exists y; auto|].
           intros j z Hj Hz. apply (Hfirst (S j)); [lia | exact Hz].
      * split; [discriminate|].
        intros [[y [Hy Hpy]] Hfirst]. destruct i as [|i]; simpl in Hy; [congruence|].
        assert (Hi : None = Some i); [|discriminate].
        apply IH. split; [exists y; auto|].
        intros j z Hj Hz. apply (Hfirst (S j)); [lia | exact Hz].
Qed.

Lemma findIndex_None {A} (p : A -> bool) (l : list A) :
  findIndex p l = None <-> (forall x, x ∈ l -> p x = false).
Proof.
  induction l as [|x l IH]; simpl.
  - split; [intros _ y Hy; inversion Hy | reflexivity].
  - destruct (p x) eqn:Hpx.
    + split; [discriminate|]. intros Hall.
      specialize (Hall x ltac:(left)). congruence.
    + destruct (findIndex p l) as [k|]; simpl.
      * split; [discriminate|]. intros Hall.
        assert (Hn : Some k = None); [|discriminate].
        apply IH. intros y Hy. apply Hall. now right.
      * split; [|reflexivity]. intros _ y Hy.
        apply elem_of_cons in Hy as [->|Hy]; [exact Hpx|].
        now apply IH.
Qed.

Lemma active_le_length (splits : Splits) : (active splits <= length splits)%nat.
Proof. unfold active. apply length_filter. Qed.

Lemma active_full (splits : Splits) :
  active splits = length splits <-> (forall x, x ∈ splits -> is_hole x = false).
Proof.
  unfold active. induction splits as [|x l IH]; simpl.
  - split; [intros _ y Hy; inversion Hy | reflexivity].
  - rewrite filter_cons. pose proof (length_filter (fun m => is_hole m = false) l) as Hle.
    destruct (decide (is_hole x = false)) as [Hx|Hx]; simpl.
    + split.
      * intros Hlen y Hy. apply elem_of_cons in Hy as [->|Hy]; [exact Hx|].
        apply IH; [lia | exact Hy].
      * intros Hall. f_equal. apply IH. intros y Hy. apply Hall. now right.
    + split; [lia|]. intros Hall. exfalso. apply Hx, Hall. now left.
Qed.

(** ** [memoryOf] *)

Lemma has_id_true (id0 : Z) (x : option SplitMemory) :
  has_id id0 x = true <-> exists m, x = Some m /\ memory_id m = id0.
Proof.
  destruct x as [m|]; simpl.
  - rewrite Z.eqb_eq. split; [eauto | intros [m' [[= <-] Hm]]; exact Hm].
  - split; [discriminate | intros [m [Hm _]]; discriminate].
Qed.

Lemma no_match_iff (id0 : Z) (splits : Splits) :
  (forall x, x ∈ splits -> has_id id0 x = false) <->
  (forall m, Some m ∈ splits -> memory_id m <> id0).
Proof.
  split.
  - intros Hall m Hm Hid. specialize (Hall _ Hm). simpl in Hall.
    apply Z.eqb_neq in Hall. contradiction.
  - intros Hall [m|] Hx; [|reflexivity]. simpl. apply Z.eqb_neq. now apply Hall.
Qed.

Lemma memoryOf_match (splits : Splits) (id0 : Z) (slot : nat) (m : SplitMemory) :
  splits !! slot = Some (Some m) -> memory_id m = id0 ->
  (forall j m', (j < slot)%nat -> splits !! j = Some (Some m') -> memory_id m' <> id0) ->
  memoryOf splits id0 = Done (slot, m, splits).
Proof.
  intros Hslot Hid Hfirst. unfold memoryOf.
  assert (Hfind : findIndex (has_id id0) splits = Some slot).
  { apply findIndex_Some. split.
    - exists (Some m). split; [exact Hslot|]. apply has_id_true. eauto.
    - intros j [m'|] Hj Hy; [|reflexivity]. simpl. apply Z.eqb_neq. eauto. }
  now rewrite Hfind, Hslot.
Qed.

Lemma memoryOf_allocate (splits : Splits) (id0 : Z) (slot : nat) :
  (forall m, Some m ∈ splits -> memory_id m <> id0) ->
  splits !! slot = Some None ->
  (forall j, (j < slot)%nat -> splits !! j <> Some None) ->
  memoryOf splits id0 =
    Done (slot, mkMemory id0 [], <[slot := Some (mkMemory id0 [])]> splits).
Proof.
  intros Hno Hslot Hfirst. unfold memoryOf.
  assert (Hfind : findIndex (has_id id0) splits = None)
    by (apply findIndex_None, no_match_iff, Hno).
  assert (Hhole : findIndex is_hole splits = Some slot).
  { apply findIndex_Some. split.
    - exists None. auto.
    - intros j [m'|] Hj Hy; [reflexivity|]. now apply Hfirst in Hj. }
  now rewrite Hfind, Hhole.
Qed.

Lemma memoryOf_Done (splits : Splits) (id0 : Z) slot m splits' :
  memoryOf splits id0 = Done (slot, m, splits') ->
  length splits' = length splits /\ splits' !! slot = Some (Some m) /\
  memory_id m = id0 /\
  (splits' = splits \/
   (splits !! slot = Some None /\ m = mkMemory id0 [] /\
    splits' = <[slot := Some m]> splits)).
Proof.
  unfold memoryOf. destruct (findIndex (has_id id0) splits) as [k|] eqn:Hfind.
  - apply findIndex_Some in Hfind as [[x [Hx Hpx]] _].
    apply has_id_true in Hpx as [m' [-> Hid]]. rewrite Hx.
    intros [= <- <- <-]. auto.
  - destruct (findIndex is_hole splits) as [k|] eqn:Hhole; [|discriminate].
    apply findIndex_Some in Hhole as [[x [Hx Hpx]] _].
    destruct x; [discriminate|].
    intros [= <- <- <-]. rewrite length_insert. repeat split.
    + apply list_lookup_insert_eq. now apply lookup_lt_Some in Hx.
    + right. auto.
Qed.

Lemma memoryOf_Throw (splits : Splits) (id0 : Z) (e : Exn) :
  memoryOf splits id0 = Throw e <->
  e = Error "Too many split packets" /\
  (forall m, Some m ∈ splits -> memory_id m <> id0) /\
  active splits = length splits.
Proof.
  unfold memoryOf. destruct (findIndex (has_id id0) splits) as [k|] eqn:Hfind.
  - pose proof Hfind as Hk. apply findIndex_Some in Hk as [[x [Hx Hpx]] _].
    apply has_id_true in Hpx as [m' [-> Hid]]. rewrite Hx.
    split; [discriminate|]. intros [_ [Hno _]]. exfalso.
    apply (Hno m'); [|exact Hid]. apply list_elem_of_lookup. eauto.
  - pose proof (proj1 (no_match_iff _ _) (proj1 (findIndex_None _ _) Hfind)) as Hno.
    destruct (findIndex is_hole splits) as [k|] eqn:Hhole.
    + split; [discriminate|]. intros [_ [_ Hfull]]. exfalso.
      apply findIndex_Some in Hhole as [[x [Hx Hpx]] _].
      apply active_full with (x := x) in Hfull; [congruence|].
      apply list_elem_of_lookup. eauto.
    + split.
      * intros [= <-]. repeat split; [exact Hno|].
        apply active_full, findIndex_None, Hhole.
      * intros [-> _]. reflexivity.
Qed.

Lemma memoryOf_not_Hang (splits : Splits) (id0 : Z) : memoryOf splits id0 <> Hang.
Proof.
  unfold memoryOf. destruct (findIndex (has_id id0) splits) as [k|] eqn:Hfind.
  - apply findIndex_Some in Hfind as [[x [Hx Hpx]] _].
    apply has_id_true in Hpx as [m' [-> Hid]]. now rewrite Hx.
  - now destruct (findIndex is_hole splits).
Qed.

(** C8: on a table of four slots, [memoryOf] throws ("Too many split
    packets") exactly when no slot holds the requested id and all four
    slots are occupied; the first slot that holds the id is returned with
    the table unchanged; with no such slot the first empty one receives a
    fresh memory; and whatever is returned, the table keeps its four slots,
    so at most four reassemblies are ever in progress. *)
Theorem memoryOf_four_slots (splits : Splits) (id0 : Z) :
  length splits = 4%nat ->
  (forall e, memoryOf splits id0 = Throw e <->
     e = Error "Too many split packets" /\
     (forall m, Some m ∈ splits -> memory_id m <> id0) /\ active splits = 4%nat) /\
  (forall slot m, splits !! slot = Some (Some m) -> memory_id m = id0 ->
     (forall j m', (j < slot)%nat -> splits !! j = Some (Some m') -> memory_id m' <> id0) ->
     memoryOf splits id0 = Done (slot, m, splits)) /\
  (forall slot, (forall m, Some m ∈ splits -> memory_id m <> id0) ->
     splits !! slot = Some None ->
     (forall j, (j < slot)%nat -> splits !! j <> Some None) ->
     memoryOf splits id0 =
       Done (slot, mkMemory id0 [], <[slot := Some (mkMemory id0 [])]> splits)) /\
  (forall slot m splits', memoryOf splits id0 = Done (slot, m, splits') ->
     length splits' = 4%nat /\ (active splits' <= 4)%nat /\
     splits' !! slot = Some (Some m) /\ memory_id m = id0) /\
  memoryOf splits id0 <> Hang.
Proof.
  intros Hlen. repeat split.
  - apply memoryOf_Throw in H. tauto.
  - apply memoryOf_Throw in H. tauto.
  - apply memoryOf_Throw in H. rewrite <- Hlen. tauto.
  - intros (-> & Hno & Hfull). apply memoryOf_Throw. rewrite Hlen. auto.
  - apply memoryOf_match.
  - apply memoryOf_allocate.
  - apply memoryOf_Done in H. lia.
  - apply memoryOf_Done in H as (Hl & _). rewrite <- Hlen, <- Hl. apply active_le_length.
  - apply memoryOf_Done in H. tauto.
  - apply memoryOf_Done in H. tauto.
  - apply memoryOf_not_Hang.
Qed.

Lemma memoryOf_four_slots_witness :
  length empty_splits = 4%nat /\
  memoryOf empty_splits 7 = Done (0%nat, mkMemory 7 [], <[0%nat := Some (mkMemory 7 [])]> empty_splits).
Proof.
  split; [reflexivity|].
  apply (memoryOf_four_slots empty_splits 7 eq_refl).
  - intros m Hm. vm_compute in Hm. repeat (apply elem_of_cons in Hm as [Hm|Hm]; [discriminate|]).
    inversion Hm.
  - reflexivity.
  - intros j Hj. lia.
Defined.

(** ** Split reassembly *)

Lemma js_nth_None {A} (array : list A) (i : Z) :
  js_nth array i = None <-> i < 0 \/ Z.of_nat (length array) <= i.
Proof.
  unfold js_nth. destruct (Z.ltb_spec i 0) as [Hneg|Hpos].
  - split; auto.
  - rewrite lookup_ge_None. lia.
Qed.

(** A fragment is stored only when its index is at least the number of
    fragments stored so far, and then it is appended: [splice] clamps the
    position to the length of the array. *)
Lemma insert_appends {A} (array : list A) (i : Z) (value : A) :
  0 <= i -> js_nth array i = None -> insert array i value = array ++ [value].
Proof.
  intros Hpos Hnone. apply js_nth_None in Hnone as [Hneg|Hge]; [lia|].
  unfold insert, splice_start. destruct (Z.ltb_spec i 0) as [Hlt|_]; [lia|].
  rewrite Z.min_r by lia. rewrite Nat2Z.id.
  now rewrite firstn_all, drop_all.
Qed.

(** C1: the fragments of a split set delivered out of order, index 1 before
    index 0.  The fragment of index 1 is stored in position 0, the fragment
    of index 0 then finds position 0 taken and is dropped as if it were a
    duplicate, and the set stays incomplete; a retransmission of index 1
    finds position 1 free, completes the set, and the payload that goes on
    is that of index 1 twice, not the payloads in index order.  Run through
    [handleDatagram] with the plain collaborators, the three fragments in
    one datagram put [0x01, 0x01] on the wire toward the server. *)
Theorem reassemble_out_of_order `{Collaborators} :
  (handlePacket second_fragment client ;; handlePacket first_fragment client)
    (mkWorld new_session [] 0)
  = (Done tt,
     mkWorld (set_splits client
                [Some (mkMemory 7 [second_fragment]); None; None; None] new_session)
             [] 0) /\
  reassemble second_fragment client
    (mkWorld (set_splits client
                [Some (mkMemory 7 [second_fragment]); None; None; None] new_session)
             [] 0)
  = (Done (Some (mkPacket 0 [x01; x01] None None None None)),
     mkWorld new_session [] 0) /\
  trace (snd (handleDatagram (H := plain)
                (mkDatagram flag_valid 9 [second_fragment; first_fragment; second_fragment])
                client (mkWorld (set_state Online new_session) [] 0)))
  = [Emit data_out [xc0; x09] client; ListenerSend [xc0; x09] client;
     Emit data_out [x80; x00; x01; x01] server;
     ListenerSend [x80; x00; x01; x01] server].
Proof. repeat split. Qed.

(** ** Reassembly of fragments that arrive in order *)

Lemma splits_of_set_splits (from : Origin) (v : Splits) (s : Session) :
  splits_of from (set_splits from v s) = v.
Proof. now destruct from. Qed.

Lemma set_splits_twice (from : Origin) (v v' : Splits) (s : Session) :
  set_splits from v' (set_splits from v s) = set_splits from v' s.
Proof. now destruct from. Qed.

Lemma set_splits_same (from : Origin) (s : Session) :
  set_splits from (splits_of from s) s = s.
Proof. now destruct from, s. Qed.


Section InOrder.
Variable from : Origin.
Variable w : World.
Variable sid : Z.
Variable slot : nat.
Variable count : nat.
Hypothesis Hfresh : forall m, Some m ∈ splits_of from (session w) -> memory_id m <> sid.
Hypothesis Hslot : splits_of from (session w) !! slot = Some None.
Hypothesis Hfirst : forall j, (j < slot)%nat -> splits_of from (session w) !! j <> Some None.

Lemma memoryOf_holding (stored : list EncapsulatedPacket) :
  memoryOf (<[slot := Some (mkMemory sid stored)]> (splits_of from (session w))) sid
  = Done (slot, mkMemory sid stored,
          <[slot := Some (mkMemory sid stored)]> (splits_of from (session w))).
Proof.
  pose proof (lookup_lt_Some _ _ _ Hslot) as Hlt.
  apply memoryOf_match.
  - now apply list_lookup_insert_eq.
  - reflexivity.
  - intros j m' Hj Hm'. rewrite list_lookup_insert_ne in Hm' by lia.
    apply Hfresh. apply list_elem_of_lookup. eauto.
Qed.

(** The end of a split set: the slot is empty again and the world is [w]. *)
Lemma release (stored : list EncapsulatedPacket) :
  mkWorld
    (set_splits from
       (<[slot := None]>
          (<[slot := Some (mkMemory sid stored)]> (splits_of from (session w))))
       (session w))
    (trace w) (draws w) = w.
Proof.
  rewrite list_insert_insert_eq, list_insert_id by exact Hslot.
  rewrite set_splits_same. now destruct w.
Qed.

Lemma reassemble_first (packet : EncapsulatedPacket) :
  split packet = Some (mkSplit sid 0 (Z.of_nat count)) ->
  reassemble packet from w
  = if (count =? 1)%nat
    then (Done (Some (without_split (with_sub (write_all [packet]) packet))), w)
    else (Done None, holding from w slot sid [packet]).
Proof.
  intros Hsplit. unfold reassemble. rewrite Hsplit.
  unfold mbind, M_bind, get, modify. cbn [session fst snd split_id split_index split_count].
  rewrite (memoryOf_allocate _ _ slot Hfresh Hslot Hfirst).
  cbn [memory_packets memory_id session trace draws js_nth].
  change (js_nth [] 0) with (@None EncapsulatedPacket).
  change (insert [] 0 packet) with [packet].
  cbn [length]. destruct (Nat.eqb_spec count 1) as [->|Hne].
  - rewrite Z.eqb_refl. cbn -[set_splits splits_of base.insert write_all].
    rewrite !set_splits_twice, list_insert_insert_eq. f_equal. apply release.
  - destruct (Z.eqb_spec (Z.of_nat 1) (Z.of_nat count)) as [Heq|_]; [lia|].
    cbn -[set_splits splits_of base.insert].
    now rewrite !set_splits_twice, list_insert_insert_eq.
Qed.

Lemma reassemble_next (stored : list EncapsulatedPacket) (packet : EncapsulatedPacket) :
  split packet = Some (mkSplit sid (Z.of_nat (length stored)) (Z.of_nat count)) ->
  reassemble packet from (holding from w slot sid stored)
  = if (S (length stored) =? count)%nat
    then (Done (Some (without_split (with_sub (write_all (stored ++ [packet])) packet))), w)
    else (Done None, holding from w slot sid (stored ++ [packet])).
Proof.
  intros Hsplit. unfold reassemble. rewrite Hsplit.
  unfold mbind, M_bind, get, modify, holding.
  cbn [session fst snd split_id split_index split_count trace draws].
  rewrite splits_of_set_splits, memoryOf_holding.
  cbn [memory_packets memory_id session trace draws].
  assert (Hfree : js_nth stored (Z.of_nat (length stored)) = None)
    by (apply js_nth_None; lia).
  rewrite Hfree, insert_appends by (lia || exact Hfree).
  rewrite length_app. cbn [length].
  destruct (Nat.eqb_spec (S (length stored)) count) as [<-|Hne].
  - replace (Z.of_nat (length stored + 1) =? Z.of_nat (S (length stored))) with true
      by (symmetry; apply Z.eqb_eq; lia).
    cbn -[set_splits splits_of base.insert write_all].
    rewrite !set_splits_twice, list_insert_insert_eq. f_equal. apply release.
  - destruct (Z.eqb_spec (Z.of_nat (length stored + 1)) (Z.of_nat count)) as [Heq|_];
      [lia|].
    cbn -[set_splits splits_of base.insert].
    now rewrite !set_splits_twice, list_insert_insert_eq.
Qed.

Lemma deliver_rest (rest : list EncapsulatedPacket) :
  forall (stored : list EncapsulatedPacket) (final : EncapsulatedPacket),
    last rest = Some final ->
    (length stored + length rest)%nat = count ->
    (forall k p, rest !! k = Some p ->
       split p = Some (mkSplit sid (Z.of_nat (length stored + k)) (Z.of_nat count))) ->
    mapM (fun p => reassemble p from) rest (holding from w slot sid stored)
    = (Done (replicate (length rest - 1) None
             ++ [Some (without_split (with_sub (write_all (stored ++ rest)) final))]), w).
Proof.
  induction rest as [|p rest IH]; intros stored final Hlast Hcount Hsplits; [discriminate|].
  cbn [mapM]. unfold mbind at 1. unfold M_bind.
  rewrite reassemble_next
    by (specialize (Hsplits 0%nat p eq_refl); now rewrite Nat.add_0_r in Hsplits).
  cbn [length] in Hcount.
  destruct rest as [|p' rest'].
  - cbn in Hlast. injection Hlast as <-. cbn [length] in *.
    replace (S (length stored) =? count)%nat with true
      by (symmetry; apply Nat.eqb_eq; lia).
    reflexivity.
  - replace (S (length stored) =? count)%nat with false
      by (symmetry; apply Nat.eqb_neq; cbn [length] in Hcount; lia).
    unfold mbind, M_bind.
    rewrite (IH (stored ++ [p]) final).
    + rewrite <- app_assoc. cbn [length app Nat.sub].
      rewrite !Nat.sub_0_r. reflexivity.
    + exact Hlast.
    + rewrite length_app. cbn [length] in *. lia.
    + intros k q Hq. rewrite length_app. cbn [length].
      specialize (Hsplits (S k) q Hq).
      now replace (length stored + 1 + k)%nat with (length stored + S k)%nat by lia.
Qed.
End InOrder.

(** X1: the fragments of one split set, delivered in the order of their
    split indexes to a table that does not hold the set yet and has an empty
    slot: every fragment but the last is held back, the last one goes on
    with the payloads of all of them in order and without split descriptor,
    and table, trace and draws are as before. *)
Theorem reassemble_in_order (from : Origin) (w : World) (sid : Z)
    (fragments : list EncapsulatedPacket) (final : EncapsulatedPacket) :
  last fragments = Some final ->
  (forall k p, fragments !! k = Some p ->
     split p = Some (mkSplit sid (Z.of_nat k) (Z.of_nat (length fragments)))) ->
  (forall m, Some m ∈ splits_of from (session w) -> memory_id m <> sid) ->
  (exists slot, splits_of from (session w) !! slot = Some None) ->
  mapM (fun p => reassemble p from) fragments w
  = (Done (replicate (length fragments - 1) None
           ++ [Some (without_split (with_sub (write_all fragments) final))]), w).
Proof.
  intros Hlast Hsplits Hfresh [slot' Hhole].
  destruct (findIndex is_hole (splits_of from (session w))) as [slot|] eqn:Hfind.
  2: { pose proof (proj1 (findIndex_None _ _) Hfind None) as Hnone.
       specialize (Hnone ltac:(apply list_elem_of_lookup; eauto)). discriminate. }
  apply findIndex_Some in Hfind as [[x [Hslot Hx]] Hfirst].
  destruct x; [discriminate|].
  assert (Hfirst' : forall j, (j < slot)%nat -> splits_of from (session w) !! j <> Some None).
  { intros j Hj Hnone. specialize (Hfirst j None Hj Hnone). discriminate. }
  destruct fragments as [|p rest]; [discriminate|].
  cbn [mapM]. unfold mbind at 1. unfold M_bind.
  rewrite (reassemble_first from w sid slot (length (p :: rest)) Hfresh Hslot Hfirst')
    by apply (Hsplits 0%nat p eq_refl).
  destruct rest as [|p' rest'].
  - cbn in Hlast. injection Hlast as <-. reflexivity.
  - cbn [length Nat.eqb]. unfold mbind, M_bind.
    rewrite (deliver_rest from w sid slot (length (p :: p' :: rest')) Hfresh Hslot Hfirst'
               (p' :: rest') [p] final).
    + cbn [length app Nat.sub]. rewrite !Nat.sub_0_r. reflexivity.
    + exact Hlast.
    + reflexivity.
    + intros k q Hq. apply (Hsplits (S k) q Hq).
Qed.

Lemma reassemble_in_order_witness :
  last [first_fragment; second_fragment] = Some second_fragment /\
  mapM (fun p => reassemble p client) [first_fragment; second_fragment]
    (mkWorld new_session [] 0)
  = (Done [None; Some (mkPacket 0 [x00; x01] None None None None)],
     mkWorld new_session [] 0).
Proof.
  split; [reflexivity|].
  apply (reassemble_in_order client (mkWorld new_session [] 0) 7
           [first_fragment; second_fragment] second_fragment eq_refl).
  - intros [|[|k]] p; cbn; intros [= <-]; reflexivity.
  - intros m Hm. cbn in Hm. unfold empty_splits in Hm. cbn in Hm.
    repeat (apply elem_of_cons in Hm as [Hm|Hm]; [discriminate|]).
    inversion Hm.
  - now exists 0%nat.
Defined.

(** ** The reliable window *)

(** The loop of lines 246-250 takes one turn: the test reads the [start] it
    has just deleted. *)
Lemma slide_one_turn (fuel : nat) (start : Z) (indexes : gset Z) (window : Window) :
  start ∈ indexes ->
  slide (S fuel) start indexes window
  = Some (indexes ∖ {[start]}, mkWindow (w_start window + 1) (w_end window + 1)).
Proof.
  intros Hin. simpl. destruct (decide (start ∈ indexes)); [|contradiction].
  destruct fuel; simpl;
    (destruct (decide (start ∈ indexes ∖ {[start]})) as [Hstill|_];
     [apply elem_of_difference in Hstill as [_ Hne];
      exfalso; apply Hne; apply elem_of_singleton; reflexivity
     | reflexivity]).
Qed.

(** C2: two reliable packets from the client on a new session, index 1
    before index 0.  Index 0 equals [window.start] and 1 is in the set, yet
    the window advances by one only, to [1, 2049], and 1 stays in the set;
    a packet of index 1 that arrives next is inside the window and throws
    "Duplicate packet index".  The same window and set are left when the
    two packets come in one datagram through [handleDatagram]. *)
Theorem window_slides_one_step :
  (admit_reliable (reliable 1) client ;; admit_reliable (reliable 0) client)
    (mkWorld new_session [] 0)
  = (Done true,
     mkWorld (set_window client (mkWindow 1 2049)
                (set_indexes client {[1]} new_session)) [] 0) /\
  admit_reliable (reliable 1) client
    (mkWorld (set_window client (mkWindow 1 2049)
                (set_indexes client {[1]} new_session)) [] 0)
  = (Throw (Error "Duplicate packet index"),
     mkWorld (set_window client (mkWindow 1 2049)
                (set_indexes client {[1]} new_session)) [] 0) /\
  window_of client
    (session (snd (handleDatagram (H := plain)
                     (mkDatagram flag_valid 9 [reliable 1; reliable 0]) client
                     (mkWorld (set_state Online new_session) [] 0))))
  = mkWindow 1 2049 /\
  indexes_of client
    (session (snd (handleDatagram (H := plain)
                     (mkDatagram flag_valid 9 [reliable 1; reliable 0]) client
                     (mkWorld (set_state Online new_session) [] 0))))
  = {[1]}.
Proof. repeat split; vm_compute; reflexivity. Qed.

(** ** What the reliable window does *)

Lemma set_indexes_same (from : Origin) (s : Session) :
  set_indexes from (indexes_of from s) s = s.
Proof. now destruct from, s. Qed.

(** X2: the reliable window, case by case.  A reliable packet whose index
    is outside the window is dropped and nothing changes; one whose index is
    in the set throws "Duplicate packet index" and nothing changes; any
    other index is added to the set, unless it equals [window.start]: then
    it is removed again, and start and end advance by one, whatever else the
    set holds. *)
Theorem admit_reliable_cases (packet : EncapsulatedPacket) (from : Origin)
    (w : World) (i : Z) :
  isReliable (reliability packet) = true ->
  index packet = Some i ->
  (inRange i (w_start (window_of from (session w))) (w_end (window_of from (session w)))
   = false ->
   admit_reliable packet from w = (Done false, w)) /\
  (inRange i (w_start (window_of from (session w))) (w_end (window_of from (session w)))
   = true ->
   (i ∈ indexes_of from (session w) ->
    admit_reliable packet from w = (Throw (Error "Duplicate packet index"), w)) /\
   (i ∉ indexes_of from (session w) ->
    i <> w_start (window_of from (session w)) ->
    admit_reliable packet from w
    = (Done true,
       mkWorld (set_indexes from ({[i]} ∪ indexes_of from (session w)) (session w))
         (trace w) (draws w))) /\
   (i ∉ indexes_of from (session w) ->
    i = w_start (window_of from (session w)) ->
    admit_reliable packet from w
    = (Done true,
       mkWorld (set_window from
                  (mkWindow (w_start (window_of from (session w)) + 1)
                     (w_end (window_of from (session w)) + 1))
                  (session w))
         (trace w) (draws w)))).
Proof.
  intros Hreliable Hindex. unfold admit_reliable. rewrite Hreliable, Hindex.
  unfold mbind, M_bind, get. cbn [fst snd].
  split; [intros ->; reflexivity|].
  intros ->. cbn [negb]. split; [|split].
  - intros Hin. now rewrite decide_True by exact Hin.
  - intros Hout Hne. rewrite decide_False by exact Hout.
    destruct (Z.eqb_spec i (w_start (window_of from (session w)))) as [Heq|_];
      [contradiction | reflexivity].
  - intros Hout Heq. rewrite decide_False by exact Hout.
    rewrite <- Heq, Z.eqb_refl.
    rewrite slide_one_turn by (apply elem_of_union_l, elem_of_singleton; reflexivity).
    assert (Hsame : ({[i]} ∪ indexes_of from (session w)) ∖ {[i]}
                    = indexes_of from (session w)).
    { apply set_eq. intros x.
      rewrite elem_of_difference, elem_of_union, !elem_of_singleton.
      split; [tauto|]. intros Hx. split; [now right|]. intros ->. contradiction. }
    rewrite Hsame. unfold modify.
    cbn -[set_window set_indexes indexes_of window_of].
    now rewrite set_indexes_same, <- Heq.
Qed.

Lemma admit_reliable_cases_witness :
  isReliable (reliability (reliable 0)) = true /\
  index (reliable 0) = Some 0 /\
  admit_reliable (reliable 0) client
    (mkWorld (set_indexes client {[1]} new_session) [] 0)
  = (Done true,
     mkWorld (set_window client (mkWindow 1 2049) (set_indexes client {[1]} new_session))
       [] 0).
Proof.
  split; [reflexivity|]. split; [reflexivity|].
  destruct (admit_reliable_cases (reliable 0) client
              (mkWorld (set_indexes client {[1]} new_session) [] 0) 0 eq_refl eq_refl)
    as [_ Hin].
  destruct (Hin eq_refl) as (_ & _ & Hslide).
  apply Hslide; [|reflexivity].
  cbn. intros Hin'. apply elem_of_singleton in Hin'. discriminate.
Defined.

(** ** Traces *)

Lemma outbound_app (t1 t2 : list Effect) :
  outbound (t1 ++ t2) = outbound t1 ++ outbound t2.
Proof. apply omap_app. Qed.

(** ** Fragmentation *)

Lemma readArray_enough (n : Z) (buffer : Buffer) :
  0 <= n -> n <= Z.of_nat (length (drop (offset buffer) (array buffer))) ->
  readArray n buffer
  = Some (take (Z.to_nat n) (drop (offset buffer) (array buffer)),
          mkBuffer (array buffer) (offset buffer + Z.to_nat n)).
Proof.
  intros Hn Hle. unfold readArray.
  destruct (Z.ltb_spec n 0); [lia|].
  destruct (Z.ltb_spec (Z.of_nat (length (drop (offset buffer) (array buffer)))) n); [lia|].
  reflexivity.
Qed.

Lemma read_buffers_turn (fuel : nat) (i quotient remainder maxSize : Z)
    (buffer : Buffer) (buffers : list bytes) :
  read_buffers (S fuel) i quotient remainder maxSize buffer buffers
  = if i <=? quotient then
      match readArray (if i =? quotient then remainder else maxSize) buffer with
      | None => Throw (Foreign "Buffer.readArray")
      | Some (chunk, buffer) =>
          read_buffers fuel (i + 1) quotient remainder maxSize buffer (buffers ++ [chunk])
      end
    else Done buffers.
Proof. reflexivity. Qed.

Lemma read_buffers_end (i quotient remainder maxSize : Z)
    (buffer : Buffer) (buffers : list bytes) :
  quotient < i ->
  read_buffers 0 i quotient remainder maxSize buffer buffers = Done buffers.
Proof. intros Hi. simpl. destruct (Z.leb_spec i quotient); [lia | reflexivity]. Qed.

Lemma read_buffers_chunks (maxSize quotient remainder : Z) :
  0 < maxSize -> 0 <= remainder ->
  forall (n : nat) (i : Z) (buffer : Buffer) (buffers : list bytes),
    i = quotient - Z.of_nat n ->
    Z.of_nat (length (drop (offset buffer) (array buffer)))
      = Z.of_nat n * maxSize + remainder ->
    exists chunks,
      read_buffers (S n) i quotient remainder maxSize buffer buffers
        = Done (buffers ++ chunks) /\
      length chunks = S n /\
      concat chunks = drop (offset buffer) (array buffer) /\
      map (fun c => Z.of_nat (length c)) chunks = replicate n maxSize ++ [remainder].
Proof.
  intros Hmax Hrem. induction n as [|n IH]; intros i buffer buffers Hi Hlen.
  - exists [drop (offset buffer) (array buffer)].
    rewrite read_buffers_turn. replace i with quotient by lia.
    rewrite Z.leb_refl, Z.eqb_refl.
    rewrite readArray_enough by lia.
    rewrite read_buffers_end by lia.
    rewrite firstn_all2 by lia.
    repeat split; simpl.
    + now rewrite app_nil_r.
    + f_equal. lia.
  - set (rest := drop (offset buffer) (array buffer)) in *.
    rewrite read_buffers_turn.
    destruct (Z.leb_spec i quotient) as [_|Hgt]; [|lia].
    destruct (Z.eqb_spec i quotient) as [Heq|_]; [lia|].
    rewrite readArray_enough by (fold rest; nia). fold rest.
    destruct (IH (i + 1) (mkBuffer (array buffer) (offset buffer + Z.to_nat maxSize))
                (buffers ++ [take (Z.to_nat maxSize) rest]))
      as (chunks & Hrun & Hn & Hcat & Hsizes).
    + lia.
    + simpl. rewrite <- drop_drop. fold rest. rewrite length_drop. nia.
    + exists (take (Z.to_nat maxSize) rest :: chunks).
      simpl in Hcat. rewrite <- drop_drop in Hcat. fold rest in Hcat.
      repeat split.
      * rewrite Hrun. now rewrite <- app_assoc.
      * simpl. now rewrite Hn.
      * simpl. rewrite Hcat. apply take_drop.
      * simpl. rewrite Hsizes. f_equal. rewrite length_take. nia.
Qed.

(** With a positive [maxSize], lines 291-302 cut the payload into
    [quotient + 1] arrays, all of [maxSize] bytes but the last, which has
    the remainder. *)
Lemma split_buffers_chunks (sub : bytes) (mtuSize : Z) :
  60 < mtuSize ->
  exists chunks,
    split_buffers sub mtuSize = Done chunks /\
    Z.of_nat (length chunks) = Z.of_nat (length sub) / (mtuSize - 60) + 1 /\
    concat chunks = sub /\
    map (fun c => Z.of_nat (length c)) chunks
      = replicate (Z.to_nat (Z.of_nat (length sub) / (mtuSize - 60))) (mtuSize - 60)
        ++ [Z.of_nat (length sub) mod (mtuSize - 60)].
Proof.
  intros Hmtu. unfold split_buffers.
  set (L := Z.of_nat (length sub)). set (maxSize := mtuSize - 60).
  assert (Hmax : 0 < maxSize) by (unfold maxSize; lia).
  assert (HL : 0 <= L) by (unfold L; lia).
  destruct (Z.eqb_spec maxSize 0) as [H0|_]; [lia|].
  assert (Hq : 0 <= L / maxSize) by (apply Z.div_pos; lia).
  rewrite Z.rem_mod_nonneg by lia.
  pose proof (Z.mod_pos_bound L maxSize Hmax) as Hr.
  pose proof (Z.div_mod L maxSize ltac:(lia)) as Hdm.
  replace (Z.to_nat (L / maxSize + 1)) with (S (Z.to_nat (L / maxSize))) by lia.
  destruct (read_buffers_chunks maxSize (L / maxSize) (L mod maxSize) Hmax
              ltac:(lia) (Z.to_nat (L / maxSize)) 0 (mkBuffer sub 0) [])
    as (chunks & Hrun & Hn & Hcat & Hsizes).
  - lia.
  - simpl. fold L. rewrite Z2Nat.id by lia. rewrite (Z.mul_comm _ maxSize). exact Hdm.
  - exists chunks. simpl in Hrun, Hcat. repeat split; auto. lia.
Qed.

Lemma counters_after_step (to : Origin) (s : Session) (i n : Z) :
  seqNumber_of to (set_seqNumber to n (set_packetIndex to i s)) = n /\
  packetIndex_of to (set_seqNumber to n (set_packetIndex to i s)) = i.
Proof. destruct to; split; reflexivity. Qed.

Lemma seqNumber_of_set_packetIndex (to : Origin) (s : Session) (i : Z) :
  seqNumber_of to (set_packetIndex to i s) = seqNumber_of to s.
Proof. now destruct to. Qed.

Lemma restamp_split (i j : Z) (sp : option Split) :
  (fun sp => mkSplit (split_id sp) j (split_count sp))
    <$> ((fun sp => mkSplit (split_id sp) i (split_count sp)) <$> sp)
  = (fun sp => mkSplit (split_id sp) j (split_count sp)) <$> sp.
Proof. now destruct sp. Qed.

Section Sending.
Context `{Collaborators}.

(** [send] leaves the session alone, and is one data-out event. *)
Lemma send_outbound (data : bytes) (to : Origin) (w : World) :
  exists r w',
    send data to w = (r, w') /\ r <> Hang /\
    session w' = session w /\ draws w' = draws w /\
    outbound (trace w') = outbound (trace w) ++ [(data, to)] /\
    (keeps_tuple (emit data_out data to) -> r = Done tt).
Proof.
  unfold send, mbind, M_bind, perform. cbn.
  destruct (emit data_out data to) as [|[d|] [o|]]; cbn;
    eexists _, _; (split; [reflexivity|]); cbn;
    rewrite ?outbound_app, ?app_nil_r; cbn; rewrite ?app_nil_r;
    repeat split; try discriminate; try tauto.
Qed.

Lemma send_buffers_outbound (buffers : list bytes) (packet : EncapsulatedPacket)
    (to : Origin) :
  (forall data, keeps_tuple (emit data_out data to)) ->
  forall (i : nat) (split : option Split) (w : World),
  exists w',
    send_buffers (Z.of_nat i) buffers split packet to w = (Done tt, w') /\
    outbound (trace w')
    = outbound (trace w)
      ++ imap (fun k sub =>
                 (Datagram_export
                    (datagram_at packet split
                       (packetIndex_of to (session w) - Z.of_nat i)
                       (seqNumber_of to (session w) - Z.of_nat i) (i + k) sub), to))
           buffers.
Proof.
  intros Hkeep. induction buffers as [|sub rest IH]; intros i split w.
  - exists w. split; [reflexivity|]. simpl. now rewrite app_nil_r.
  - cbn [send_buffers].
    set (split' := (fun sp => mkSplit (split_id sp) (Z.of_nat i) (split_count sp)) <$> split).
    set (index := packetIndex_of to (session w)).
    set (seq := seqNumber_of to (session w)).
    set (d := mkDatagram flag_valid seq
                [mkPacket (reliability packet) sub (Some index) (sequence packet)
                   (order packet) split']).
    set (s1 := set_seqNumber to (seq + 1) (set_packetIndex to (index + 1) (session w))).
    destruct (send_outbound (Datagram_export d) to (mkWorld s1 (trace w) (draws w)))
      as (r & w1 & Hsend & _ & Hs1 & _ & Hout1 & Hdone).
    specialize (Hdone (Hkeep _)). subst r.
    destruct (IH (S i) split' w1) as (w' & Hrun & Hout).
    exists w'. split.
    + unfold mbind, M_bind, get, modify, sendDatagram. cbn -[send send_buffers].
      rewrite seqNumber_of_set_packetIndex.
      fold index. fold seq. fold split'. fold d. fold s1.
      rewrite Hsend. replace (Z.of_nat i + 1) with (Z.of_nat (S i)) by lia. exact Hrun.
    + rewrite Hout, Hout1. cbn [trace]. rewrite <- app_assoc. f_equal.
      cbn [imap app]. f_equal.
      * unfold datagram_at. fold index. fold seq. fold split'. unfold d.
        rewrite Nat.add_0_r.
        replace (index - Z.of_nat i + Z.of_nat i) with index by lia.
        replace (seq - Z.of_nat i + Z.of_nat i) with seq by lia.
        reflexivity.
      * apply imap_ext. intros k x _. cbn. rewrite Hs1. unfold s1. cbn [session].
        destruct (counters_after_step to (session w) (index + 1) (seq + 1)) as [-> ->].
        unfold datagram_at, split'. rewrite restamp_split.
        replace (S (i + k))%nat with (i + S k)%nat by lia.
        replace (index + 1 - Z.of_nat (S i)) with (index - Z.of_nat i) by lia.
        replace (seq + 1 - Z.of_nat (S i)) with (seq - Z.of_nat i) by lia.
        reflexivity.
Qed.
End Sending.

Lemma imap_imap {A B C} (f : nat -> B -> C) (g : nat -> A -> B) (l : list A) :
  imap f (imap g l) = imap (fun k x => f k (g k x)) l.
Proof.
  revert f g. induction l as [|x l IH]; intros f g; [reflexivity|].
  rewrite !imap_cons. f_equal. apply IH.
Qed.

Lemma counters_of_set_splitID (to : Origin) (s : Session) (v : Z) :
  seqNumber_of to (set_splitID to v s) = seqNumber_of to s /\
  packetIndex_of to (set_splitID to v s) = packetIndex_of to s.
Proof. destruct to; split; reflexivity. Qed.

(** C3, as amended: with [mtuSize] above 60 and data-out subscribers that
    leave [send] a tuple, [sendPacket] hands to [send], toward [to] and in
    this order, exactly [floor(L / maxPayload) + 1] datagrams of one fragment
    each; the fragments have [maxPayload] bytes each but the last, which has
    [L mod maxPayload] (none when that is zero); their payloads, in this
    order, which is the order of their split indexes, concatenate to the
    payload of the packet. *)
Theorem sendPacket_fragments `{Collaborators}
    (packet : EncapsulatedPacket) (to : Origin) (w : World) :
  60 < _mtuSize (session w) ->
  (forall data, keeps_tuple (emit data_out data to)) ->
  exists (fragments : list EncapsulatedPacket) (w' : World),
    sendPacket packet to w = (Done tt, w') /\
    outbound (trace w')
    = outbound (trace w)
      ++ imap (fun k fragment =>
                 (Datagram_export
                    (mkDatagram flag_valid (seqNumber_of to (session w) + Z.of_nat k)
                       [fragment]), to)) fragments /\
    Z.of_nat (length fragments)
    = Z.of_nat (length (sub packet)) / (_mtuSize (session w) - 60) + 1 /\
    map (fun f => Z.of_nat (length (sub f))) fragments
    = replicate (Z.to_nat (Z.of_nat (length (sub packet)) / (_mtuSize (session w) - 60)))
        (_mtuSize (session w) - 60)
      ++ [Z.of_nat (length (sub packet)) mod (_mtuSize (session w) - 60)] /\
    concat (map sub fragments) = sub packet /\
    (forall k f, fragments !! k = Some f ->
       split_index <$> split f
       = if 1 <? Z.of_nat (length fragments) then Some (Z.of_nat k) else None).
Proof.
  intros Hmtu Hkeep.
  destruct (split_buffers_chunks (sub packet) (_mtuSize (session w)) Hmtu)
    as (chunks & Hsplit & Hcount & Hcat & Hsizes).
  set (n := Z.of_nat (length chunks)) in *.
  set (split0 := if 1 <? n
                 then Some (mkSplit (Z.rem (splitID_of to (session w)) 65536) 0 n)
                 else None).
  set (w0 := if 1 <? n
             then mkWorld (set_splitID to (splitID_of to (session w) + 1) (session w))
                    (trace w) (draws w)
             else w).
  assert (Hcounters : seqNumber_of to (session w0) = seqNumber_of to (session w) /\
                      packetIndex_of to (session w0) = packetIndex_of to (session w) /\
                      trace w0 = trace w).
  { unfold w0. destruct (1 <? n); [|auto]. cbn [session trace].
    destruct (counters_of_set_splitID to (session w) (splitID_of to (session w) + 1)).
    auto. }
  destruct Hcounters as (Hseq & Hidx & Htrace).
  destruct (send_buffers_outbound chunks packet to Hkeep 0%nat split0 w0)
    as (w' & Hrun & Hout).
  exists (imap (fun k sub =>
                  mkPacket (reliability packet) sub
                    (Some (packetIndex_of to (session w) + Z.of_nat k))
                    (sequence packet) (order packet)
                    ((fun sp => mkSplit (split_id sp) (Z.of_nat k) (split_count sp))
                       <$> split0)) chunks), w'.
  repeat split.
  - unfold sendPacket, mbind, M_bind, get. cbn -[send_buffers split_buffers].
    rewrite Hsplit. fold n. unfold w0, split0 in Hrun.
    destruct (1 <? n); cbn -[send_buffers]; exact Hrun.
  - rewrite Hout, Htrace. f_equal. rewrite imap_imap. apply imap_ext.
    intros k x _. cbn. unfold datagram_at. rewrite Hseq, Hidx, !Z.sub_0_r.
    reflexivity.
  - rewrite length_imap. exact Hcount.
  - rewrite <- Hsizes. change (@map) with (@fmap list _).
    rewrite fmap_imap. rewrite <- imap_const. now apply imap_ext.
  - rewrite <- Hcat. f_equal. change (@map) with (@fmap list _).
    rewrite fmap_imap.
    transitivity (imap (const (fun x : bytes => x)) chunks);
      [now apply imap_ext | rewrite imap_const; apply list_fmap_id].
  - intros k f Hf. rewrite list_lookup_imap in Hf.
    destruct (chunks !! k) as [c|]; [|discriminate]. injection Hf as <-.
    cbn [split]. rewrite length_imap. fold n. unfold split0.
    now destruct (1 <? n).
Qed.

Lemma sendPacket_fragments_witness :
  60 < _mtuSize new_session /\
  (forall data, keeps_tuple (emit (Collaborators := plain) data_out data server)) /\
  exists (fragments : list EncapsulatedPacket) (w' : World),
    sendPacket (H := plain) packet_3000 server (mkWorld new_session [] 0) = (Done tt, w') /\
    length fragments = 3%nat /\
    map (fun f => Z.of_nat (length (sub f))) fragments = [1432; 1432; 136] /\
    concat (map sub fragments) = sub packet_3000.
Proof.
  split; [reflexivity|]. split; [intros data; exact I|].
  destruct (sendPacket_fragments (H := plain) packet_3000 server
              (mkWorld new_session [] 0) eq_refl (fun _ => I))
    as (fragments & w' & Hrun & _ & Hcount & Hsizes & Hcat & _).
  exists fragments, w'. split; [exact Hrun|].
  split; [|split; [exact Hsizes | exact Hcat]].
  change (Z.of_nat (length fragments) = 3) in Hcount. lia.
Defined.

(** C3, as stated, fails below the bound: with [mtuSize] 50, as
    [Math.min(request.mtuSize, 1492)] leaves it after an Open2Request of MTU
    50, [maxSize] is -10, the quotient of a payload of 5 bytes is -1, the
    loop has no turn and nothing is sent; with [mtuSize] 60 the call does not
    return. *)
Lemma sendPacket_small_mtu :
  _mtuSize (session (snd (handleOffline (H := plain) [x07; x00; x32] client
                            (mkWorld new_session [] 0)))) = 50 /\
  sendPacket (H := plain) packet_5 server (mkWorld (set_mtuSize 50 new_session) [] 0)
  = (Done tt, mkWorld (set_mtuSize 50 new_session) [] 0) /\
  length (sub packet_5) = 5%nat /\
  fst (sendPacket (H := plain) packet_5 server (mkWorld (set_mtuSize 60 new_session) [] 0))
  = Hang.
Proof. repeat split. Qed.

(** ** Where the data-out events go *)

Lemma sends_toward_ret (o : Origin) {A} (a : A) : sends_toward o (mret a).
Proof. intros w. exists []. cbn. now rewrite app_nil_r. Qed.

Lemma sends_toward_throw (o : Origin) {A} (e : Exn) : sends_toward o (throw (A := A) e).
Proof. intros w. exists []. cbn. now rewrite app_nil_r. Qed.

Lemma sends_toward_hang (o : Origin) {A} : sends_toward o (hang (A := A)).
Proof. intros w. exists []. cbn. now rewrite app_nil_r. Qed.

Lemma sends_toward_get (o : Origin) : sends_toward o get.
Proof. intros w. exists []. cbn. now rewrite app_nil_r. Qed.

Lemma sends_toward_modify (o : Origin) (f : Session -> Session) :
  sends_toward o (modify f).
Proof. intros w. exists []. cbn. now rewrite app_nil_r. Qed.

Lemma sends_toward_draw (o : Origin) : sends_toward o draw.
Proof. intros w. exists []. cbn. now rewrite app_nil_r. Qed.

Lemma sends_toward_foreign (o : Origin) {A} (who : string) (r : option A) :
  sends_toward o (foreign who r).
Proof. destruct r; [apply sends_toward_ret | apply sends_toward_throw]. Qed.

Lemma sends_toward_perform (o : Origin) (e : Effect) :
  toward o e -> sends_toward o (perform e).
Proof. intros He w. exists [e]. cbn. split; [reflexivity | now constructor]. Qed.

Lemma sends_toward_bind (o : Origin) {A B} (m : M A) (f : A -> M B) :
  sends_toward o m -> (forall a, sends_toward o (f a)) -> sends_toward o (m ≫= f).
Proof.
  intros Hm Hf w. destruct (Hm w) as (rest & Htrace & Hrest).
  unfold mbind, M_bind. destruct (m w) as [[a|e|] w1]; cbn in *.
  - destruct (Hf a w1) as (rest' & Htrace' & Hrest').
    exists (rest ++ rest'). rewrite Htrace', Htrace, app_assoc.
    split; [reflexivity | now apply Forall_app].
  - eauto.
  - eauto.
Qed.

Lemma sends_toward_mapM (o : Origin) {A B} (f : A -> M B) (xs : list A) :
  (forall x, sends_toward o (f x)) -> sends_toward o (mapM f xs).
Proof.
  intros Hf. induction xs as [|x xs IH]; cbn [mapM].
  - apply sends_toward_ret.
  - apply sends_toward_bind; [apply Hf | intros y].
    apply sends_toward_bind; [apply IH | intros ys]. apply sends_toward_ret.
Qed.

Lemma sends_toward_forM_ (o : Origin) {A} (f : A -> M unit) (xs : list A) :
  (forall x, sends_toward o (f x)) -> sends_toward o (forM_ xs f).
Proof.
  intros Hf. induction xs as [|x xs IH]; cbn [forM_].
  - apply sends_toward_ret.
  - apply sends_toward_bind; [apply Hf | intros _; apply IH].
Qed.

Create HintDb toward.
#[export] Hint Resolve sends_toward_ret sends_toward_throw sends_toward_hang
  sends_toward_get sends_toward_modify sends_toward_draw sends_toward_foreign
  : toward.

(** Goes through a computation, bind by bind and case by case; what is
    already known of a callee is taken from the hints. *)
Ltac toward_steps :=
  repeat first
    [ solve [auto with toward]
    | apply sends_toward_perform; exact I
    | apply sends_toward_mapM; intros ?
    | apply sends_toward_forM_; intros ?
    | match goal with
      | |- sends_toward _ (match ?x with _ => _ end) => destruct x
      | |- sends_toward _ (let _ := _ in _) => cbv zeta
      end
    | apply sends_toward_bind; [|intros ?] ].

Section Destinations.
Context `{Collaborators}.

Lemma sends_toward_send (data : bytes) (to : Origin) : sends_toward to (send data to).
Proof.
  unfold send. apply sends_toward_bind.
  - apply sends_toward_perform. reflexivity.
  - intros _. toward_steps.
Qed.
#[local] Hint Resolve sends_toward_send : toward.

Lemma sends_toward_set_state_M (o : Origin) (v : SessionState) :
  sends_toward o (set_state_M v).
Proof. unfold set_state_M. toward_steps. Qed.
#[local] Hint Resolve sends_toward_set_state_M : toward.

Lemma sends_toward_send_buffers (buffers : list bytes) (i : Z) (split : option Split)
    (packet : EncapsulatedPacket) (to : Origin) :
  sends_toward to (send_buffers i buffers split packet to).
Proof.
  revert i split. induction buffers as [|sub rest IH]; intros i split; cbn [send_buffers].
  - toward_steps.
  - unfold sendDatagram. toward_steps.
Qed.
#[local] Hint Resolve sends_toward_send_buffers : toward.

Lemma sends_toward_sendPacket (packet : EncapsulatedPacket) (to : Origin) :
  sends_toward to (sendPacket packet to).
Proof. unfold sendPacket. toward_steps. Qed.
#[local] Hint Resolve sends_toward_sendPacket : toward.

Lemma sends_toward_handleLoginPacket (o : Origin) (buffer : bytes) :
  sends_toward o (handleLoginPacket buffer).
Proof. unfold handleLoginPacket. toward_steps. Qed.
#[local] Hint Resolve sends_toward_handleLoginPacket : toward.

Lemma sends_toward_handleHandshakePacket (o : Origin) (buffer : bytes) :
  sends_toward o (handleHandshakePacket buffer).
Proof. unfold handleHandshakePacket. toward_steps. Qed.
#[local] Hint Resolve sends_toward_handleHandshakePacket : toward.

Lemma sends_toward_handleBedrock (o : Origin) (data : bytes) (from : Origin) :
  sends_toward o (handleBedrock data from).
Proof. unfold handleBedrock. toward_steps. Qed.
#[local] Hint Resolve sends_toward_handleBedrock : toward.

Lemma sends_toward_handleBatch (o : Origin) (buffer : bytes) (from : Origin) :
  sends_toward o (handleBatch buffer from).
Proof.
  unfold handleBatch, handleEncryptedBatch, handleUnencryptedBatch. toward_steps.
Qed.
#[local] Hint Resolve sends_toward_handleBatch : toward.

Lemma sends_toward_admit_reliable (o : Origin) (packet : EncapsulatedPacket)
    (from : Origin) :
  sends_toward o (admit_reliable packet from).
Proof. unfold admit_reliable. toward_steps. Qed.
#[local] Hint Resolve sends_toward_admit_reliable : toward.

Lemma sends_toward_reassemble (o : Origin) (packet : EncapsulatedPacket) (from : Origin) :
  sends_toward o (reassemble packet from).
Proof. unfold reassemble. toward_steps. Qed.
#[local] Hint Resolve sends_toward_reassemble : toward.

Lemma sends_toward_handlePacket (packet : EncapsulatedPacket) (from : Origin) :
  sends_toward (opposite from) (handlePacket packet from).
Proof. unfold handlePacket, forward. toward_steps. Qed.
End Destinations.

(** ** Acknowledgement *)

Lemma send_trace `{Collaborators} (data : bytes) (to : Origin) (w : World) :
  exists rest,
    trace (snd (send data to w)) = trace w ++ Emit data_out data to :: rest /\
    (forall o, Forall (toward o) rest) /\
    (forall data' to', emit data_out data to = replaced (Some data') (Some to') ->
       rest = [ListenerSend data' to'] /\ fst (send data to w) = Done tt).
Proof.
  unfold send, mbind, M_bind, perform. cbn.
  destruct (emit data_out data to) as [|[d|] [o'|]]; cbn.
  1, 3, 4, 5: exists []; split; [reflexivity | split; [constructor | discriminate]].
  exists [ListenerSend d o']. rewrite <- app_assoc. split; [reflexivity|].
  split; [intros o; repeat constructor | intros ? ? [= <- <-]; auto].
Qed.

Lemma sent_toward_opposite (from : Origin) (rest : list Effect) :
  Forall (toward (opposite from)) rest -> sent_toward from rest = [].
Proof.
  induction 1 as [|e rest He _ IH]; [reflexivity|].
  unfold sent_toward in *. cbn [omap list_omap]. rewrite IH.
  destruct e as [[] data to| |]; try reflexivity.
  cbn in He. subst to. destruct from; reflexivity.
Qed.

(** Whatever the subscribers do, the datagram holds and becomes of its
    packets, the first thing [handleDatagram] does is hand to [send] the ACK
    of the single sequence number of the datagram, toward the origin the
    datagram came from, and every other message it hands to [send] is for the
    opposite side. *)
Lemma handleDatagram_ack_event_first `{Collaborators}
    (datagram : Datagram) (from : Origin) (w : World) :
  exists rest,
    trace (snd (handleDatagram datagram from w))
    = trace w ++ Emit data_out (ACK_export [seqNumber datagram]) from :: rest /\
    Forall (toward (opposite from)) rest /\
    sent_toward from (Emit data_out (ACK_export [seqNumber datagram]) from :: rest)
    = [ACK_export [seqNumber datagram]] /\
    (emit data_out (ACK_export [seqNumber datagram]) from
     = replaced (Some (ACK_export [seqNumber datagram])) (Some from) ->
     exists rest', rest = ListenerSend (ACK_export [seqNumber datagram]) from :: rest').
Proof.
  assert (Hone : forall rest, Forall (toward (opposite from)) rest ->
            sent_toward from (Emit data_out (ACK_export [seqNumber datagram]) from :: rest)
            = [ACK_export [seqNumber datagram]]).
  { intros rest Hrest. unfold sent_toward. cbn [omap list_omap].
    rewrite decide_True by reflexivity.
    fold (sent_toward from rest). now rewrite sent_toward_opposite. }
  unfold handleDatagram, sendAck.
  destruct (send_trace (ACK_export [seqNumber datagram]) from w)
    as (rest1 & Hack & Hrest1 & Hwire).
  unfold mbind at 1. unfold M_bind.
  destruct (send (ACK_export [seqNumber datagram]) from w) as [[[]|e|] w1]; cbn [snd fst] in *.
  - destruct (sends_toward_forM_ (opposite from)
                (fun packet => handlePacket packet from) (packets datagram)
                (fun packet => sends_toward_handlePacket packet from) w1)
      as (rest2 & Hrest & Htoward).
    assert (Hall : Forall (toward (opposite from)) (rest1 ++ rest2))
      by (apply Forall_app; split; [apply Hrest1 | exact Htoward]).
    exists (rest1 ++ rest2). rewrite Hrest, Hack, <- app_assoc. split; [reflexivity|].
    split; [exact Hall|]. split; [apply Hone, Hall|].
    intros Hquiet. destruct (Hwire _ _ Hquiet) as [-> _]. eauto.
  - exists rest1. split; [exact Hack|]. split; [apply Hrest1|].
    split; [apply Hone, Hrest1|].
    intros Hquiet. destruct (Hwire _ _ Hquiet) as [_ [=]].
  - exists rest1. split; [exact Hack|]. split; [apply Hrest1|].
    split; [apply Hone, Hrest1|].
    intros Hquiet. destruct (Hwire _ _ Hquiet) as [_ [=]].
Qed.

(** ** What a call puts on the wire *)

Section Adds.
Variable P : Effect -> Prop.

Lemma adds_nothing {A} (m : M A) : (forall w, trace (snd (m w)) = trace w) -> adds P m.
Proof. intros Hm w. exists []. rewrite Hm, app_nil_r. split; [reflexivity | constructor]. Qed.

Lemma adds_ret {A} (a : A) : adds P (mret a).
Proof. now apply adds_nothing. Qed.

Lemma adds_throw {A} (e : Exn) : adds P (throw (A := A) e).
Proof. now apply adds_nothing. Qed.

Lemma adds_hang {A} : adds P (hang (A := A)).
Proof. now apply adds_nothing. Qed.

Lemma adds_get : adds P get.
Proof. now apply adds_nothing. Qed.

Lemma adds_modify (f : Session -> Session) : adds P (modify f).
Proof. now apply adds_nothing. Qed.

Lemma adds_draw : adds P draw.
Proof. now apply adds_nothing. Qed.

Lemma adds_foreign {A} (who : string) (r : option A) : adds P (foreign who r).
Proof. destruct r; [apply adds_ret | apply adds_throw]. Qed.

Lemma adds_perform (e : Effect) : P e -> adds P (perform e).
Proof. intros He w. exists [e]. cbn. split; [reflexivity | now constructor]. Qed.

Lemma adds_bind {A B} (m : M A) (f : A -> M B) :
  adds P m -> (forall a, adds P (f a)) -> adds P (m ≫= f).
Proof.
  intros Hm Hf w. destruct (Hm w) as (rest & Htrace & Hrest).
  unfold mbind, M_bind. destruct (m w) as [[a|e|] w1]; cbn in *.
  - destruct (Hf a w1) as (rest' & Htrace' & Hrest').
    exists (rest ++ rest'). rewrite Htrace', Htrace, app_assoc.
    split; [reflexivity | now apply Forall_app].
  - eauto.
  - eauto.
Qed.

Lemma adds_mapM {A B} (f : A -> M B) (xs : list A) :
  (forall x, adds P (f x)) -> adds P (mapM f xs).
Proof.
  intros Hf. induction xs as [|x xs IH]; cbn [mapM].
  - apply adds_ret.
  - apply adds_bind; [apply Hf | intros y].
    apply adds_bind; [apply IH | intros ys]. apply adds_ret.
Qed.

Lemma adds_forM_ {A} (f : A -> M unit) (xs : list A) :
  (forall x, adds P (f x)) -> adds P (forM_ xs f).
Proof.
  intros Hf. induction xs as [|x xs IH]; cbn [forM_].
  - apply adds_ret.
  - apply adds_bind; [apply Hf | intros _; apply IH].
Qed.
End Adds.

(** Goes through a computation bind by bind; what is known of a callee is
    among the hypotheses. *)
Ltac adds_steps :=
  repeat first
    [ progress intros
    | solve [auto]
    | apply adds_ret | apply adds_throw | apply adds_hang | apply adds_get
    | apply adds_modify | apply adds_draw | apply adds_foreign
    | apply adds_perform; exact I
    | apply adds_mapM
    | apply adds_forM_
    | apply adds_bind
    | match goal with
      | |- adds _ (if ?c then _ else _) => destruct c
      | |- adds _ (match ?c with _ => _ end) => destruct c
      end ].

Section Wire.
Context `{Collaborators}.
Variable o : Origin.
Hypothesis Hkeeps : forall data, keeps_destination o (emit data_out data o).

Lemma adds_send (data : bytes) : adds (bound_for o) (send data o).
Proof.
  intros w. unfold send, mbind, M_bind, perform. cbn.
  pose proof (Hkeeps data) as Hkeep.
  destruct (emit data_out data o) as [|[d|] [o'|]]; cbn in *.
  1, 3, 4, 5: exists [Emit data_out data o]; split; [reflexivity | now repeat constructor].
  exists [Emit data_out data o; ListenerSend d o']. rewrite <- app_assoc.
  split; [reflexivity | now repeat constructor].
Qed.

Lemma adds_send_buffers (buffers : list bytes) (packet : EncapsulatedPacket)
    (i : Z) (split : option Split) :
  adds (bound_for o) (send_buffers i buffers split packet o).
Proof.
  pose proof adds_send as Hsend.
  revert i split. induction buffers as [|sub rest IH]; intros i split; cbn [send_buffers].
  - apply adds_ret.
  - cbv zeta. unfold sendDatagram. adds_steps.
Qed.

Lemma adds_handlePacket (packet : EncapsulatedPacket) (from : Origin) :
  opposite from = o -> adds (bound_for o) (handlePacket packet from).
Proof.
  intros Hside. pose proof adds_send_buffers as Hloop.
  unfold handlePacket, admit_reliable, reassemble, forward, handleBatch,
    handleEncryptedBatch, handleUnencryptedBatch, handleBedrock, handleLoginPacket,
    handleHandshakePacket, set_state_M, sendPacket.
  rewrite Hside. cbv zeta. adds_steps.
Qed.
End Wire.

Lemma wire_toward_opposite (from : Origin) (rest : list Effect) :
  Forall (bound_for (opposite from)) rest ->
  wire_toward from rest = [] /\ sent_toward from rest = [].
Proof.
  induction 1 as [|e rest He _ [IHwire IHsent]]; [split; reflexivity|].
  unfold wire_toward, sent_toward in *. cbn [omap list_omap]. rewrite IHwire, IHsent.
  destruct e as [[] data to| |data to]; try (split; reflexivity);
    cbn in He; subst to; destruct from; split; reflexivity.
Qed.

(** C7, as amended: with data-out subscribers that leave the tuple of the
    ACK as it is and send no other message elsewhere than where it was going
    (so with none registered), the first thing [handleDatagram] does is emit
    the data-out event of the ACK of the single sequence number of the
    datagram, toward the origin the datagram came from, and give it to the
    listener of that origin; whatever follows is bound for the opposite side,
    so this ACK is the one message of the call that goes on the wire toward
    that origin, and the one handed to [send] for it. *)
Theorem handleDatagram_acks_origin `{Collaborators}
    (datagram : Datagram) (from : Origin) (w : World) :
  emit data_out (ACK_export [seqNumber datagram]) from
  = replaced (Some (ACK_export [seqNumber datagram])) (Some from) ->
  (forall data, keeps_destination (opposite from) (emit data_out data (opposite from))) ->
  exists rest,
    trace (snd (handleDatagram datagram from w))
    = trace w
      ++ Emit data_out (ACK_export [seqNumber datagram]) from
         :: ListenerSend (ACK_export [seqNumber datagram]) from :: rest /\
    Forall (bound_for (opposite from)) rest /\
    wire_toward from
      (Emit data_out (ACK_export [seqNumber datagram]) from
       :: ListenerSend (ACK_export [seqNumber datagram]) from :: rest)
    = [ACK_export [seqNumber datagram]] /\
    sent_toward from
      (Emit data_out (ACK_export [seqNumber datagram]) from
       :: ListenerSend (ACK_export [seqNumber datagram]) from :: rest)
    = [ACK_export [seqNumber datagram]].
Proof.
  intros Hack Hkeeps.
  destruct (adds_forM_ (bound_for (opposite from))
              (fun packet => handlePacket packet from) (packets datagram)
              (fun packet => adds_handlePacket (opposite from) Hkeeps packet from eq_refl)
              (mkWorld (session w)
                 (trace w ++ [Emit data_out (ACK_export [seqNumber datagram]) from;
                              ListenerSend (ACK_export [seqNumber datagram]) from])
                 (draws w)))
    as (rest & Htrace & Hrest).
  exists rest. split; [|split; [exact Hrest|]].
  - unfold handleDatagram, sendAck. unfold mbind at 1. unfold M_bind.
    unfold send, mbind, M_bind, perform. cbn -[forM_]. rewrite Hack. cbn -[forM_].
    rewrite <- app_assoc. cbn [trace] in Htrace.
    rewrite <- app_assoc in Htrace. exact Htrace.
  - destruct (wire_toward_opposite from rest Hrest) as [Hwire Hsent].
    unfold wire_toward, sent_toward in *. cbn [omap list_omap].
    rewrite decide_True by reflexivity. rewrite Hwire, Hsent. split; reflexivity.
Qed.

Lemma handleDatagram_acks_origin_witness :
  wire_toward client
    (trace (snd (handleDatagram (H := plain)
                   (mkDatagram 0x80 5 [mkPacket 0 [x09; x2a] None None None None]) client
                   (mkWorld (set_state Online new_session) [] 0))))
  = [ACK_export (Collaborators := plain) [5]].
Proof.
  destruct (handleDatagram_acks_origin (H := plain)
              (mkDatagram 0x80 5 [mkPacket 0 [x09; x2a] None None None None]) client
              (mkWorld (set_state Online new_session) [] 0) eq_refl (fun _ => eq_refl))
    as (rest & Htrace & _ & Hwire & _).
  rewrite Htrace. exact Hwire.
Defined.

(** C7, as stated, fails with a data-out subscriber in the way: one that
    cancels the event keeps the ACK off the wire, and the call goes on as if
    it had been sent; one that turns the message round sends the ACK to the
    opposite side. *)
Lemma handleDatagram_ack_cancelled_or_redirected :
  trace (snd (handleDatagram (H := plain_with (fun r => r) cancels first_byte)
                (mkDatagram 0x80 5 []) client
                (mkWorld (set_state Online new_session) [] 0)))
  = [Emit data_out [xc0; x05] client] /\
  trace (snd (handleDatagram (H := plain_with (fun r => r) redirects first_byte)
                (mkDatagram 0x80 5 []) client
                (mkWorld (set_state Online new_session) [] 0)))
  = [Emit data_out [xc0; x05] client; ListenerSend [xc0; x05] server] /\
  fst (handleDatagram (H := plain_with (fun r => r) cancels first_byte)
         (mkDatagram 0x80 5 []) client
         (mkWorld (set_state Online new_session) [] 0))
  = Done tt.
Proof. repeat split. Qed.

(** ** Subscribers that break the tuple *)

(** C10, as amended: when the data or the origin that a data-in subscriber
    leaves is missing ([undefined], or anything else [!] makes true),
    [handle] returns without a throw, with the session as it was and nothing
    done but the data-in event itself; on the same tuple from a data-out
    subscriber [send] throws "Event error".  A byte array of length zero is
    not missing: [handle] goes on with it as with any other payload. *)
Theorem handle_returns_on_missing `{Collaborators}
    (data : bytes) (o : Origin) (data' : option bytes) (o' : option Origin) (w : World) :
  data' = None \/ o' = None ->
  (emit data_in data o = replaced data' o' ->
   handle data o w
   = (Done tt, mkWorld (session w) (trace w ++ [Emit data_in data o]) (draws w))) /\
  (emit data_out data o = replaced data' o' ->
   send data o w
   = (Throw (Error "Event error"),
      mkWorld (session w) (trace w ++ [Emit data_out data o]) (draws w))) /\
  (forall from, emit data_in data o = replaced (Some []) (Some from) ->
   handle data o w
   = (if decide (_state (session w) = Offline)
      then handleOffline [] from
      else handleOnline [] from)
       (mkWorld (session w) (trace w ++ [Emit data_in data o]) (draws w))).
Proof.
  intros Hmissing. repeat split.
  - intros Hemit. unfold handle, mbind, M_bind, perform. cbn. rewrite Hemit.
    destruct Hmissing as [-> | ->]; [reflexivity | now destruct data'].
  - intros Hemit. unfold send, mbind, M_bind, perform. cbn. rewrite Hemit.
    destruct Hmissing as [-> | ->]; [reflexivity | now destruct data'].
  - intros from Hemit. unfold handle, mbind, M_bind, perform, get.
    cbn -[handleOffline handleOnline]. rewrite Hemit.
    cbn -[handleOffline handleOnline]. now destruct (decide _).
Qed.

Lemma handle_returns_on_missing_witness :
  (@None bytes = None \/ Some client = None) /\
  handle (H := plain_with loses_data loses_data first_byte) [x07] server
    (mkWorld new_session [] 0)
  = (Done tt, mkWorld new_session [Emit data_in [x07] server] 0) /\
  send (H := plain_with loses_data loses_data first_byte) [x07] server
    (mkWorld new_session [] 0)
  = (Throw (Error "Event error"), mkWorld new_session [Emit data_out [x07] server] 0).
Proof.
  split; [now left|].
  destruct (handle_returns_on_missing (H := plain_with loses_data loses_data first_byte)
              [x07] server None (Some client) (mkWorld new_session [] 0)
              (or_introl eq_refl)) as (Hhandle & Hsend & _).
  split; [exact (Hhandle eq_refl) | exact (Hsend eq_refl)].
Defined.

(** C10, as stated, fails for data that is empty but present: a data-in
    subscriber that replaces the payload by an array of length zero does not
    make [handle] return.  On a new (offline) session the empty payload is
    handed to [handleOffline]: with a header that fails on a short read the
    call throws, with one that does not the empty payload is forwarded to the
    opposite side. *)
Lemma handle_goes_on_with_empty_data :
  handle (H := plain_with empties_data (fun r => r) first_byte) [x07] server
    (mkWorld new_session [] 0)
  = (Throw (Foreign "ProtocolPacket.header"),
     mkWorld new_session [Emit data_in [x07] server] 0) /\
  handle (H := plain_with empties_data (fun r => r) lenient_byte) [x07] server
    (mkWorld new_session [] 0)
  = (Done tt,
     mkWorld new_session
       [Emit data_in [x07] server; Emit data_out [] server; ListenerSend [] server] 0).
Proof. split; reflexivity. Qed.

(** ** The offline phase *)

(** X4: while the session is offline, a payload whose header reads, and
    which parses if it is an Open2Request, is handed to [send] as it is,
    toward the opposite side; an Open2Request lowers [_mtuSize] to the
    minimum of its MTU and the current one, and an Open2Reply makes the
    session [Online].  A payload whose header does not read, and an
    Open2Request that does not parse, make [handleOffline] throw before
    anything is handed to [send], with the session as it was. *)
Theorem handleOffline_forwards `{Collaborators}
    (data : bytes) (from : Origin) (w : World) :
  (ProtocolPacket_header data = None ->
   handleOffline data from w = (Throw (Foreign "ProtocolPacket.header"), w)) /\
  (ProtocolPacket_header data = Some Open2Request_id ->
   Open2Request_mtuSize data = None ->
   handleOffline data from w = (Throw (Foreign "Open2Request.from"), w)) /\
  (forall id,
     ProtocolPacket_header data = Some id ->
     (id = Open2Request_id -> exists mtuSize, Open2Request_mtuSize data = Some mtuSize) ->
     exists (r : Outcome unit) (w' : World),
       handleOffline data from w = (r, w') /\
       outbound (trace w') = outbound (trace w) ++ [(data, opposite from)] /\
       (keeps_tuple (emit data_out data (opposite from)) -> r = Done tt) /\
       (forall mtuSize, id = Open2Request_id -> Open2Request_mtuSize data = Some mtuSize ->
          _mtuSize (session w') = Z.min mtuSize (_mtuSize (session w))) /\
       (id <> Open2Request_id -> _mtuSize (session w') = _mtuSize (session w)) /\
       _state (session w') = (if id =? Open2Reply_id then Online else _state (session w))).
Proof.
  split; [|split].
  { intros Hheader. unfold handleOffline, mbind, M_bind, foreign. now rewrite Hheader. }
  { intros Hheader Hparse. unfold handleOffline, mbind, M_bind, foreign.
    rewrite Hheader. cbn -[send Z.eqb]. rewrite Z.eqb_refl, Hparse. reflexivity. }
  intros id Hheader Hparse.
  set (s1 := if id =? Open2Request_id
             then match Open2Request_mtuSize data with
                  | Some m => set_mtuSize (Z.min m (_mtuSize (session w))) (session w)
                  | None => session w
                  end
             else session w).
  set (w2 := if id =? Open2Reply_id
             then mkWorld (set_state Online s1) (trace w ++ [EmitState Online]) (draws w)
             else mkWorld s1 (trace w) (draws w)).
  destruct (send_outbound data (opposite from) w2)
    as (r & w' & Hsend & _ & Hsession & _ & Hout & Hdone).
  exists r, w'.
  assert (Hrun : handleOffline data from w = send data (opposite from) w2).
  { unfold handleOffline, mbind, M_bind, foreign, set_state_M, get, modify, perform.
    rewrite Hheader. cbn -[send Z.eqb]. unfold w2, s1.
    destruct (Z.eqb_spec id Open2Request_id) as [Hreq|Hreq].
    - destruct (Hparse Hreq) as [m ->]. cbn -[send Z.eqb].
      now destruct (id =? Open2Reply_id).
    - cbn -[send Z.eqb]. now destruct w, (id =? Open2Reply_id). }
  rewrite Hrun, Hsend. split; [reflexivity|]. rewrite Hout, Hsession.
  repeat split.
  - unfold w2. destruct (id =? Open2Reply_id); cbn [trace]; [|reflexivity].
    rewrite outbound_app. cbn. now rewrite app_nil_r.
  - exact Hdone.
  - intros m Hreq Hm. unfold w2, s1. rewrite Hreq, Z.eqb_refl, Hm.
    now destruct (Open2Request_id =? Open2Reply_id).
  - intros Hreq. unfold w2, s1.
    destruct (Z.eqb_spec id Open2Request_id) as [?|_]; [contradiction|].
    now destruct (id =? Open2Reply_id).
  - unfold w2, s1. destruct (id =? Open2Reply_id); cbn [session]; [reflexivity|].
    destruct (id =? Open2Request_id); [|reflexivity].
    now destruct (Open2Request_mtuSize data).
Qed.

Lemma handleOffline_forwards_witness :
  ProtocolPacket_header (Collaborators := plain) [x07; x03; x84] = Some 7 /\
  exists (r : Outcome unit) (w' : World),
    handleOffline (H := plain) [x07; x03; x84] client (mkWorld new_session [] 0) = (r, w') /\
    outbound (trace w') = [([x07; x03; x84], server)] /\
    _mtuSize (session w') = 900.
Proof.
  split; [reflexivity|].
  destruct (handleOffline_forwards (H := plain) [x07; x03; x84] client
              (mkWorld new_session [] 0)) as (_ & _ & Hforwards).
  destruct (Hforwards 7 eq_refl (fun _ => ex_intro _ 900 eq_refl))
    as (r & w' & Hrun & Hout & _ & Hmtu & _).
  exists r, w'. split; [exact Hrun|]. split; [exact Hout|].
  apply (Hmtu 900 eq_refl eq_refl).
Defined.

(** ** Bedrock packets *)

Lemma handleBedrock_handshake `{Collaborators} (data : bytes) (w : World) :
  BedrockPacket_header data = Some ServerHandshakePacket_id ->
  handleBedrock data server w = handleHandshakePacket data w.
Proof.
  intros Hheader.
  unfold handleBedrock, mbind, M_bind, foreign. rewrite Hheader. cbn.
  rewrite (decide_False (P := server = client)) by discriminate. cbn.
  rewrite (decide_True (P := server = server)) by reflexivity. reflexivity.
Qed.

Lemma handleBedrock_login `{Collaborators} (data : bytes) (w : World) :
  BedrockPacket_header data = Some LoginPacket_id ->
  LoginPacket_id <> ResourcePackResponse_id ->
  handleBedrock data client w = handleLoginPacket data w.
Proof.
  intros Hheader Hids.
  unfold handleBedrock, mbind, M_bind, foreign. rewrite Hheader.
  cbn -[handleLoginPacket Z.eqb].
  rewrite (decide_True (P := client = client)) by reflexivity.
  rewrite Z.eqb_refl.
  destruct (Z.eqb_spec LoginPacket_id ResourcePackResponse_id) as [Heq|_];
    [contradiction|].
  destruct (handleLoginPacket data w) as [[a|e|] w']; cbn; [|reflexivity..].
  now rewrite (decide_False (P := client = server)) by discriminate.
Qed.

(** ** Login interception *)

(** X3: a LoginPacket from the client that parses and has a last token,
    with a key agreement that succeeds: [handleBedrock] answers the export of
    the login whose last token carries the public key of a fresh key pair and
    is signed with it; the session keeps that key pair and a fresh salt, and
    [_clientBatch] is the class made of the secret agreed from the fresh
    private key, the client's key and that salt.  The state stays as it
    is. *)
Theorem login_interception `{Collaborators}
    (data : bytes) (w : World) (login : LoginPacket) (final : JWT) (secret : bytes) :
  BedrockPacket_header data = Some LoginPacket_id ->
  LoginPacket_id <> ResourcePackResponse_id ->
  LoginPacket_from data = Some login ->
  last (tokens login) = Some final ->
  diffieHellman (privateKey (genKeyPair (draws w))) (identityPublicKey final)
    (toB64 (getRandomValues (S (draws w)))) = Some secret ->
  exists (out : LoginPacket) (w' : World),
    handleBedrock data client w = (Done (LoginPacket_export out), w') /\
    last (tokens out)
    = Some (sign (genKeyPair (draws w))
              (with_identityPublicKey (publicKey (genKeyPair (draws w))) final)) /\
    login_client out = sign (genKeyPair (draws w)) (login_client login) /\
    _keyPair (session w') = Some (genKeyPair (draws w)) /\
    _salt (session w') = toB64 (getRandomValues (S (draws w))) /\
    _clientBatch (session w') = Some (mkCodec secret client) /\
    _state (session w') = _state (session w) /\
    trace w' = trace w.
Proof.
  intros Hheader Hids Hparse Hlast Hsecret.
  rewrite handleBedrock_login by assumption.
  eexists _, _. split.
  - unfold handleLoginPacket, mbind, M_bind, foreign, draw, modify.
    rewrite Hparse. cbn. rewrite Hlast, Hsecret. cbn. reflexivity.
  - cbn. repeat split. apply last_snoc.
Qed.

Lemma login_interception_witness :
  BedrockPacket_header (Collaborators := plain) [x01] = Some (LoginPacket_id (Collaborators := plain)) /\
  LoginPacket_from (Collaborators := plain) [x01] = Some (mkLogin [plain_token] plain_token) /\
  exists (out : LoginPacket) (w' : World),
    handleBedrock (H := plain) [x01] client (mkWorld (set_state Online new_session) [] 0)
    = (Done (LoginPacket_export (Collaborators := plain) out), w') /\
    _salt (session w') = "AAAAAAAAAAAAAAAA"%string /\
    _state (session w') = Online.
Proof.
  split; [reflexivity|]. split; [reflexivity|].
  destruct (login_interception (H := plain) [x01]
              (mkWorld (set_state Online new_session) [] 0)
              (mkLogin [plain_token] plain_token) plain_token
              (list_byte_of_string "proxy-private-keyclient-public-keyAAAAAAAAAAAAAAAA")
              eq_refl ltac:(discriminate) eq_refl eq_refl eq_refl)
    as (out & w' & Hrun & _ & _ & _ & Hsalt & _ & Hstate & _).
  exists out, w'. repeat split; assumption.
Defined.

(** ** Handshake interception *)

(** C4: a ServerHandshakePacket from the server that parses, on a session
    that holds the key pair of the login interception and with a key
    agreement that succeeds: [handleBedrock] answers the export of a token
    whose payload salt is the session's [_salt], signed with the session's
    key pair; [_serverBatch] is the class made of the secret agreed from the
    session's private key, the server's key ([x5u]) and the server's salt;
    and the state is [Encrypted]. *)
Theorem handshake_interception `{Collaborators}
    (data : bytes) (w : World) (token : JWT) (keyPair : KeyPair) (secret : bytes) :
  BedrockPacket_header data = Some ServerHandshakePacket_id ->
  ServerHandshakePacket_from data = Some token ->
  _keyPair (session w) = Some keyPair ->
  diffieHellman (privateKey keyPair) (x5u token) (salt token) = Some secret ->
  exists (out : JWT) (w' : World),
    handleBedrock data server w = (Done (ServerHandshakePacket_export out), w') /\
    salt out = _salt (session w) /\
    out = sign keyPair (with_salt (_salt (session w)) token) /\
    _serverBatch (session w') = Some (mkCodec secret server) /\
    _state (session w') = Encrypted /\
    _salt (session w') = _salt (session w) /\
    _keyPair (session w') = Some keyPair /\
    trace w' = trace w ++ [EmitState Encrypted].
Proof.
  intros Hheader Hparse Hkeys Hsecret.
  exists (sign keyPair (with_salt (_salt (session w)) token)).
  eexists. split.
  - unfold handleBedrock, handleHandshakePacket, set_state_M,
      mbind, M_bind, foreign, get, modify, perform.
    rewrite Hheader. cbn.
    rewrite (decide_False (P := server = client)) by discriminate. cbn.
    rewrite (decide_True (P := server = server)) by reflexivity.
    cbn. rewrite Hparse. cbn. rewrite Hkeys, Hsecret. cbn.
    reflexivity.
  - cbn. repeat split; try reflexivity. exact Hkeys.
Qed.

Lemma handshake_interception_witness :
  BedrockPacket_header (Collaborators := plain) [x03] = Some ServerHandshakePacket_id /\
  ServerHandshakePacket_from (Collaborators := plain) [x03] = Some plain_token /\
  _keyPair after_login = Some (mkKeyPair "proxy-private-key" "proxy-public-key") /\
  exists (out : JWT) (w' : World),
    handleBedrock (H := plain) [x03] server (mkWorld after_login [] 0)
    = (Done (ServerHandshakePacket_export (Collaborators := plain) out), w') /\
    salt out = "proxy-salt"%string /\
    _state (session w') = Encrypted.
Proof.
  repeat (split; [reflexivity|]).
  destruct (handshake_interception (H := plain) [x03] (mkWorld after_login [] 0)
              plain_token (mkKeyPair "proxy-private-key" "proxy-public-key")
              (list_byte_of_string "proxy-private-keypeer-public-keypeer-salt")
              eq_refl eq_refl eq_refl eq_refl)
    as (out & w' & Hrun & Hsalt & _ & _ & Hstate & _).
  exists out, w'. repeat split; assumption.
Defined.

(** ** What the state of the session decides *)

Lemma oblivious_ret {A} (a : A) : oblivious (mret a).
Proof. intros v w. split; [reflexivity | now exists v]. Qed.

Lemma oblivious_throw {A} (e : Exn) : oblivious (throw (A := A) e).
Proof. intros v w. split; [reflexivity | now exists v]. Qed.

Lemma oblivious_foreign {A} (who : string) (r : option A) : oblivious (foreign who r).
Proof. destruct r; [apply oblivious_ret | apply oblivious_throw]. Qed.

Lemma oblivious_draw : oblivious draw.
Proof. intros v w. split; [reflexivity | now exists v]. Qed.

Lemma oblivious_perform (e : Effect) : oblivious (perform e).
Proof. intros v w. split; [reflexivity | now exists v]. Qed.

Lemma oblivious_modify (f : Session -> Session) :
  (forall v s, exists v', f (set_state v s) = set_state v' (f s)) ->
  oblivious (modify f).
Proof.
  intros Hf v w. split; [reflexivity|].
  destruct (Hf v (session w)) as [v' Hv']. exists v'.
  unfold modify, with_state. cbn. now rewrite Hv'.
Qed.

Lemma oblivious_bind {A B} (m : M A) (f : A -> M B) :
  oblivious m -> (forall a, oblivious (f a)) -> oblivious (m ≫= f).
Proof.
  intros Hm Hf v w. destruct (Hm v w) as [Hres [v1 Hw1]].
  unfold mbind, M_bind.
  destruct (m (with_state v w)) as [r1 w1], (m w) as [r2 w2]. cbn in *. subst.
  destruct r2 as [a| |]; [apply Hf | |]; (split; [reflexivity | now exists v1]).
Qed.

Lemma oblivious_get {A} (f : Session -> M A) :
  (forall v s, f (set_state v s) = f s) -> (forall s, oblivious (f s)) ->
  oblivious (get ≫= f).
Proof.
  intros Hsame Hf v w. unfold mbind, M_bind, get. cbn.
  rewrite Hsame. apply Hf.
Qed.

Section Oblivious.
Context `{Collaborators}.

Lemma oblivious_handleLoginPacket (buffer : bytes) : oblivious (handleLoginPacket buffer).
Proof.
  unfold handleLoginPacket.
  apply oblivious_bind; [apply oblivious_foreign | intros login].
  apply oblivious_bind; [apply oblivious_draw | intros n].
  apply oblivious_bind; [apply oblivious_draw | intros n'].
  apply oblivious_bind; [apply oblivious_modify; intros v s; now exists v | intros _].
  apply oblivious_bind; [apply oblivious_modify; intros v s; now exists v | intros _].
  destruct (last (tokens login)) as [t|]; [|apply oblivious_throw].
  apply oblivious_bind; [apply oblivious_foreign | intros secret].
  apply oblivious_bind; [apply oblivious_modify; intros v s; now exists v | intros _].
  apply oblivious_ret.
Qed.

Lemma oblivious_handleHandshakePacket (buffer : bytes) :
  oblivious (handleHandshakePacket buffer).
Proof.
  unfold handleHandshakePacket.
  apply oblivious_bind; [apply oblivious_foreign | intros token].
  apply oblivious_get; [reflexivity | intros s].
  destruct (_keyPair s) as [keyPair|]; [|apply oblivious_throw].
  apply oblivious_bind; [apply oblivious_foreign | intros secret].
  apply oblivious_bind; [apply oblivious_modify; intros v s'; now exists v | intros _].
  apply oblivious_get; [reflexivity | intros s'].
  apply oblivious_bind; [|intros _; apply oblivious_ret].
  unfold set_state_M.
  apply oblivious_bind; [apply oblivious_perform | intros _].
  apply oblivious_modify. intros v s''. now exists Encrypted.
Qed.

Lemma oblivious_handleBedrock (data : bytes) (from : Origin) :
  oblivious (handleBedrock data from).
Proof.
  unfold handleBedrock.
  apply oblivious_bind; [apply oblivious_foreign | intros id].
  apply oblivious_bind.
  - destruct (decide (from = client)); [|apply oblivious_ret].
    apply oblivious_bind.
    + destruct (id =? LoginPacket_id);
        [apply oblivious_handleLoginPacket | apply oblivious_ret].
    + intros data'. apply oblivious_bind; [|intros _; apply oblivious_ret].
      destruct (id =? ResourcePackResponse_id); [|apply oblivious_ret].
      apply oblivious_bind; [apply oblivious_foreign | intros _; apply oblivious_ret].
  - intros data'. destruct (decide (from = server)); [|apply oblivious_ret].
    destruct (id =? ServerHandshakePacket_id);
      [apply oblivious_handleHandshakePacket | apply oblivious_ret].
Qed.
End Oblivious.

(** C6, as amended: [handleBedrock] does not consult the state of the
    session.  In any state it answers the same bytes and leaves the same
    session, trace and draws, up to the state itself; a ServerHandshakePacket
    from the server is handed to [handleHandshakePacket] and a LoginPacket
    from the client to [handleLoginPacket], in the [Encrypted] state as in
    the [Online] one.  No packet is dropped for the state it arrives in. *)
Theorem handleBedrock_ignores_state `{Collaborators}
    (data : bytes) (from : Origin) (v : SessionState) (w : World) :
  fst (handleBedrock data from (with_state v w)) = fst (handleBedrock data from w) /\
  (exists v', snd (handleBedrock data from (with_state v w))
              = with_state v' (snd (handleBedrock data from w))) /\
  (BedrockPacket_header data = Some ServerHandshakePacket_id ->
   handleBedrock data server (with_state v w) = handleHandshakePacket data (with_state v w)) /\
  (BedrockPacket_header data = Some LoginPacket_id ->
   LoginPacket_id <> ResourcePackResponse_id ->
   handleBedrock data client (with_state v w) = handleLoginPacket data (with_state v w)).
Proof.
  split; [apply oblivious_handleBedrock|].
  split; [apply oblivious_handleBedrock|].
  split; [apply handleBedrock_handshake | apply handleBedrock_login].
Qed.

(** C6, as stated, fails: on a session that is [Encrypted], a
    ServerHandshakePacket from the server is intercepted again (the answer
    is the handshake re-exported with the session's salt, and [_serverBatch]
    is replaced), and so is a LoginPacket from the client (the answer is the
    login re-exported with the proxy's key, and key pair, salt and
    [_clientBatch] are made anew). *)
Lemma handshake_intercepted_when_encrypted :
  _state encrypted_session = Encrypted /\
  handleBedrock (H := plain) [x03] server (mkWorld encrypted_session [] 0)
  = (Done (x03 :: list_byte_of_string "proxy-salt"),
     mkWorld (set_batch server
                (Some (mkCodec
                         (list_byte_of_string "proxy-private-keypeer-public-keypeer-salt")
                         server))
                encrypted_session)
       [EmitState Encrypted] 0) /\
  handleBedrock (H := plain) [x01] client (mkWorld encrypted_session [] 0)
  = (Done (x01 :: list_byte_of_string "proxy-public-key"),
     mkWorld (set_batch client
                (Some (mkCodec
                         (list_byte_of_string
                            "proxy-private-keyclient-public-keyAAAAAAAAAAAAAAAA")
                         client))
                (set_salt "AAAAAAAAAAAAAAAA"
                   (set_keyPair (Some (mkKeyPair "proxy-private-key" "proxy-public-key"))
                      encrypted_session)))
       [] 2).
Proof. repeat split. Qed.

(** ** The datagram codec *)

Lemma value_of_bounded (b : byte) : 0 <= value_of b < 256.
Proof. unfold value_of. pose proof (Byte.to_N_bounded b). lia. Qed.

Lemma byte_of_value_of (b : byte) : byte_of (value_of b) = b.
Proof.
  unfold byte_of. rewrite Z.mod_small by apply value_of_bounded.
  unfold value_of. now rewrite N2Z.id, Byte.of_to_N.
Qed.

Lemma byte_of_add_multiple (v k : Z) : byte_of (v + 256 * k) = byte_of v.
Proof.
  unfold byte_of. replace (v + 256 * k) with (v + k * 256) by lia.
  now rewrite Z.mod_add by lia.
Qed.

(** The valid flag written over a header that has it changes nothing. *)
Lemma byte_of_flag_valid (b : byte) :
  Z.land (value_of b) flag_valid = flag_valid ->
  byte_of (Z.lor flag_valid (value_of b)) = b.
Proof.
  intros Hvalid. rewrite <- Hvalid.
  replace (Z.lor (Z.land (value_of b) flag_valid) (value_of b)) with (value_of b);
    [apply byte_of_value_of|].
  apply Z.bits_inj'. intros n _. rewrite Z.lor_spec, Z.land_spec.
  now destruct (Z.testbit (value_of b) n), (Z.testbit flag_valid n).
Qed.

Lemma writeLTriad_readLTriad (b0 b1 b2 : byte) :
  writeLTriad (value_of b0 + 256 * value_of b1 + 65536 * value_of b2) = [b0; b1; b2].
Proof.
  pose proof (value_of_bounded b0). pose proof (value_of_bounded b1).
  pose proof (value_of_bounded b2).
  unfold writeLTriad. rewrite !Z.shiftr_div_pow2 by lia.
  change (2 ^ 8) with 256. change (2 ^ 16) with 65536.
  f_equal; [|f_equal; [|f_equal]].
  - replace (value_of b0 + 256 * value_of b1 + 65536 * value_of b2)
      with (value_of b0 + 256 * (value_of b1 + 256 * value_of b2)) by lia.
    rewrite byte_of_add_multiple. apply byte_of_value_of.
  - replace ((value_of b0 + 256 * value_of b1 + 65536 * value_of b2) / 256)
      with (value_of b1 + 256 * value_of b2).
    + rewrite byte_of_add_multiple. apply byte_of_value_of.
    + apply Z.div_unique with (r := value_of b0); lia.
  - replace ((value_of b0 + 256 * value_of b1 + 65536 * value_of b2) / 65536)
      with (value_of b2).
    + apply byte_of_value_of.
    + apply Z.div_unique with (r := value_of b0 + 256 * value_of b1); lia.
Qed.

Lemma readByte_Some (buffer buffer' : Buffer) (v : Z) :
  readByte buffer = Some (v, buffer') ->
  exists b, v = value_of b /\
    buffer' = mkBuffer (array buffer) (S (offset buffer)) /\
    drop (offset buffer) (array buffer) = b :: drop (S (offset buffer)) (array buffer).
Proof.
  unfold readByte. destruct (array buffer !! offset buffer) as [b|] eqn:Hb; [|discriminate].
  intros [= <- <-]. exists b. repeat split. now apply drop_S.
Qed.

Lemma remaining_0 (buffer : Buffer) :
  remaining buffer = 0%nat -> drop (offset buffer) (array buffer) = [].
Proof. unfold remaining. intros Hrem. apply drop_ge. lia. Qed.

Section CodecProperties.
Variable EncapsulatedPacket_from : Buffer -> option (EncapsulatedPacket * Buffer).
Variable EncapsulatedPacket_to : EncapsulatedPacket -> bytes.
Hypothesis Hround : packets_round_trip EncapsulatedPacket_from EncapsulatedPacket_to.

Lemma read_packets_Done (fuel : nat) :
  forall (buffer : Buffer) (read all : list EncapsulatedPacket),
    read_packets EncapsulatedPacket_from fuel buffer read = Done all ->
    exists new, all = read ++ new /\
      drop (offset buffer) (array buffer) = concat (map EncapsulatedPacket_to new).
Proof.
  induction fuel as [|fuel IH]; intros buffer read all; cbn [read_packets];
    destruct (decide (remaining buffer = 0%nat)) as [Hrem|Hrem].
  - intros [= <-]. exists []. rewrite app_nil_r. split; [reflexivity|].
    now apply remaining_0.
  - discriminate.
  - intros [= <-]. exists []. rewrite app_nil_r. split; [reflexivity|].
    now apply remaining_0.
  - destruct (EncapsulatedPacket_from buffer) as [[packet buffer']|] eqn:Hfrom;
      [|discriminate].
    intros Hrest. apply IH in Hrest as (new & -> & Hdrop).
    destruct (Hround _ _ _ Hfrom) as [Harray Hbytes].
    exists (packet :: new). rewrite <- app_assoc. split; [reflexivity|].
    cbn [map concat]. now rewrite Hbytes, Hdrop.
Qed.
End CodecProperties.

(** C9, as amended: with a codec of encapsulated packets that writes back
    the bytes it has read, every byte sequence that [Datagram.from] parses
    and whose first byte has the valid flag (0x80) is written back by
    [Datagram.to] as it was. *)
Theorem Datagram_round_trip
    (EncapsulatedPacket_from : Buffer -> option (EncapsulatedPacket * Buffer))
    (EncapsulatedPacket_to : EncapsulatedPacket -> bytes)
    (data : bytes) (datagram : Datagram) :
  packets_round_trip EncapsulatedPacket_from EncapsulatedPacket_to ->
  Datagram_from EncapsulatedPacket_from (mkBuffer data 0) = Done datagram ->
  Z.land (headerFlags datagram) flag_valid = flag_valid ->
  Datagram_to EncapsulatedPacket_to datagram = data.
Proof.
  intros Hround Hfrom Hvalid. unfold Datagram_from in Hfrom.
  destruct (readByte (mkBuffer data 0)) as [[flags buffer1]|] eqn:Hflags; [|discriminate].
  apply readByte_Some in Hflags as (b & -> & -> & Hdata). cbn in Hdata.
  unfold readLTriad in Hfrom.
  destruct (readByte _) as [[v0 buffer2]|] eqn:H0 in Hfrom; [|discriminate].
  apply readByte_Some in H0 as (b0 & -> & -> & Hdata0). cbn in Hdata0.
  destruct (readByte _) as [[v1 buffer3]|] eqn:H1 in Hfrom; [|discriminate].
  apply readByte_Some in H1 as (b1 & -> & -> & Hdata1). cbn in Hdata1.
  destruct (readByte _) as [[v2 buffer4]|] eqn:H2 in Hfrom; [|discriminate].
  apply readByte_Some in H2 as (b2 & -> & -> & Hdata2). cbn in Hdata2.
  destruct (read_packets _ _ _ _) as [read| |] eqn:Hread in Hfrom; try discriminate.
  injection Hfrom as <-. cbn [headerFlags] in Hvalid.
  apply (read_packets_Done _ _ Hround) in Hread as (new & -> & Hrest).
  cbn [offset array app] in Hrest.
  unfold Datagram_to, writeByte. cbn [headerFlags seqNumber packets].
  rewrite byte_of_flag_valid by exact Hvalid.
  rewrite writeLTriad_readLTriad. cbn [app].
  now rewrite <- Hrest, <- Hdata2, <- Hdata1, <- Hdata0, <- Hdata.
Qed.

Lemma one_byte_round_trip : packets_round_trip one_byte_from one_byte_to.
Proof.
  intros buffer packet buffer'. unfold one_byte_from, one_byte_to.
  destruct (array buffer !! offset buffer) as [b|] eqn:Hb; [|discriminate].
  intros [= <- <-]. split; [reflexivity|]. now apply drop_S.
Qed.

Lemma Datagram_round_trip_witness :
  Datagram_from one_byte_from (mkBuffer [x84; x01; x02; x03; xaa; xbb] 0)
  = Done (mkDatagram 0x84 0x030201
            [mkPacket 0 [xaa] None None None None; mkPacket 0 [xbb] None None None None]) /\
  Datagram_to one_byte_to
    (mkDatagram 0x84 0x030201
       [mkPacket 0 [xaa] None None None None; mkPacket 0 [xbb] None None None None])
  = [x84; x01; x02; x03; xaa; xbb].
Proof.
  split; [reflexivity|].
  apply (Datagram_round_trip one_byte_from one_byte_to); [|reflexivity..].
  exact one_byte_round_trip.
Defined.

(** C9, as stated, fails for a sequence whose first byte lacks the valid
    flag: [Datagram.from] parses it, it has no part in what the flag means,
    and [Datagram.to] writes the flag in. *)
Lemma Datagram_to_sets_flag_valid :
  Datagram_from one_byte_from (mkBuffer [x00; x00; x00; x00] 0) = Done (mkDatagram 0 0 []) /\
  Datagram_to one_byte_to (mkDatagram 0 0 []) = [x80; x00; x00; x00].
Proof. split; reflexivity. Qed.

(** ** The outbound encryption helper *)

(** The cipher against the vectors of FIPS 197 (appendix C.3) and of the
    GCM specification (test cases 13, 14 and 17, the last one with an IV
    that is not of 96 bits). *)
Example Cipher_fips_197 :
  Gcm.Cipher (Gcm.KeyExpansion (map Z.of_nat (seq 0 32)))
    (map (fun i => Z.of_nat i * 17) (seq 0 16))
  = [0x8e; 0xa2; 0xb7; 0xca; 0x51; 0x67; 0x45; 0xbf;
     0xea; 0xfc; 0x49; 0x90; 0x4b; 0x49; 0x60; 0x89].
Proof. vm_compute. reflexivity. Qed.

Example encrypt_test_case_13 :
  Gcm.encrypt (repeat 0 32) (repeat 0 12) [] []
  = ([], [0x53; 0x0f; 0x8a; 0xfb; 0xc7; 0x45; 0x36; 0xb9;
          0xa9; 0x63; 0xb4; 0xf1; 0xc4; 0xcb; 0x73; 0x8b]).
Proof. vm_compute. reflexivity. Qed.

Example encrypt_test_case_14 :
  Gcm.encrypt (repeat 0 32) (repeat 0 12) [] (repeat 0 16)
  = ([0xce; 0xa7; 0x40; 0x3d; 0x4d; 0x60; 0x6b; 0x6e;
      0x07; 0x4e; 0xc5; 0xd3; 0xba; 0xf3; 0x9d; 0x18],
     [0xd0; 0xd1; 0xc8; 0xa7; 0x99; 0x99; 0x6b; 0xf0;
      0x26; 0x5b; 0x98; 0xb5; 0xd4; 0x8a; 0xb9; 0x19]).
Proof. vm_compute. reflexivity. Qed.

Example encrypt_test_case_17 :
  Gcm.encrypt
    [0xfe; 0xff; 0xe9; 0x92; 0x86; 0x65; 0x73; 0x1c; 0x6d; 0x6a; 0x8f; 0x94; 0x67; 0x30; 0x83; 0x08;
     0xfe; 0xff; 0xe9; 0x92; 0x86; 0x65; 0x73; 0x1c; 0x6d; 0x6a; 0x8f; 0x94; 0x67; 0x30; 0x83; 0x08]
    [0xca; 0xfe; 0xba; 0xbe; 0xfa; 0xce; 0xdb; 0xad]
    [0xfe; 0xed; 0xfa; 0xce; 0xde; 0xad; 0xbe; 0xef; 0xfe; 0xed; 0xfa; 0xce; 0xde; 0xad; 0xbe; 0xef;
     0xab; 0xad; 0xda; 0xd2]
    [0xd9; 0x31; 0x32; 0x25; 0xf8; 0x84; 0x06; 0xe5; 0xa5; 0x59; 0x09; 0xc5; 0xaf; 0xf5; 0x26; 0x9a;
     0x86; 0xa7; 0xa9; 0x53; 0x15; 0x34; 0xf7; 0xda; 0x2e; 0x4c; 0x30; 0x3d; 0x8a; 0x31; 0x8a; 0x72;
     0x1c; 0x3c; 0x0c; 0x95; 0x95; 0x68; 0x09; 0x53; 0x2f; 0xcf; 0x0e; 0x24; 0x49; 0xa6; 0xb5; 0x25;
     0xb1; 0x6a; 0xed; 0xf5; 0xaa; 0x0d; 0xe6; 0x57; 0xba; 0x63; 0x7b; 0x39]
  = ([0xc3; 0x76; 0x2d; 0xf1; 0xca; 0x78; 0x7d; 0x32; 0xae; 0x47; 0xc1; 0x3b; 0xf1; 0x98; 0x44; 0xcb;
      0xaf; 0x1a; 0xe1; 0x4d; 0x0b; 0x97; 0x6a; 0xfa; 0xc5; 0x2f; 0xf7; 0xd7; 0x9b; 0xba; 0x9d; 0xe0;
      0xfe; 0xb5; 0x82; 0xd3; 0x39; 0x34; 0xa4; 0xf0; 0x95; 0x4c; 0xc2; 0x36; 0x3b; 0xc7; 0x3f; 0x78;
      0x62; 0xac; 0x43; 0x0e; 0x64; 0xab; 0xe4; 0x99; 0xf4; 0x7c; 0x9b; 0x1f],
     [0x3a; 0x33; 0x7d; 0xbf; 0x46; 0xa7; 0x92; 0xc4; 0x5e; 0x45; 0x49; 0x13; 0xfe; 0x2e; 0xa8; 0xf2]).
Proof. vm_compute. reflexivity. Qed.

Lemma length_GCTR (w : list (list Z)) (icb : Z) (x : list Z) :
  length (Gcm.GCTR w icb x) = length x.
Proof.
  unfold Gcm.GCTR. rewrite length_map, length_combine, length_seq. lia.
Qed.

Lemma length_update (cipher : Cipheriv) (data : bytes) :
  length (update cipher data) = length data.
Proof.
  unfold update, gcm_of, Gcm.encrypt. cbn [fst].
  now rewrite length_map, length_GCTR, length_map.
Qed.

Lemma length_getAuthTag (cipher : Cipheriv) (data : bytes) :
  length (getAuthTag cipher data) = 16%nat.
Proof.
  unfold getAuthTag, gcm_of, Gcm.encrypt. cbn [snd].
  rewrite length_map, length_GCTR. unfold Gcm.block_bytes.
  now rewrite length_map, length_seq.
Qed.

(** C5, as amended: with a secret of 32 bytes, the helper encrypts with
    AES-256-GCM under the secret as key and its first 16 bytes as IV, and
    what it prints is the ciphertext alone, as long as the input; the tag,
    16 bytes that [getAuthTag] would answer, is not asked for and is no
    part of the output. *)
Theorem on_line_ciphertext_only (request : Request) :
  length (request_secret request) = 32%nat ->
  exists cipher,
    createCipheriv "aes-256-gcm" (request_secret request)
      (take 16 (request_secret request)) = Some cipher /\
    cipher_key cipher = request_secret request /\
    cipher_iv cipher = take 16 (request_secret request) /\
    on_line request = Done (update cipher (Buffer_from (request_data request))) /\
    length (update cipher (Buffer_from (request_data request)))
    = length (request_data request) /\
    length (update cipher (Buffer_from (request_data request))
            ++ getAuthTag cipher (Buffer_from (request_data request)))
    = (length (request_data request) + 16)%nat.
Proof.
  intros Hkey.
  exists (mkCipheriv (request_secret request) (take 16 (request_secret request))).
  assert (Hcreate : createCipheriv "aes-256-gcm" (request_secret request)
                      (take 16 (request_secret request))
                    = Some (mkCipheriv (request_secret request)
                              (take 16 (request_secret request)))).
  { unfold createCipheriv. rewrite length_take, Hkey. reflexivity. }
  split; [exact Hcreate|]. split; [reflexivity|]. split; [reflexivity|].
  split; [|split].
  - unfold on_line. rewrite Hcreate. unfold final. now rewrite app_nil_r.
  - rewrite length_update. unfold Buffer_from. apply length_map.
  - rewrite length_app, length_update, length_getAuthTag.
    unfold Buffer_from. now rewrite length_map.
Qed.

Lemma on_line_ciphertext_only_witness :
  length (request_secret (mkRequest [1; 2; 3; 4; 5] (replicate 32 x00))) = 32%nat /\
  on_line (mkRequest [1; 2; 3; 4; 5] (replicate 32 x00))
  = Done [xde; x51; xc3; x09; x35].
Proof.
  split; [reflexivity|].
  destruct (on_line_ciphertext_only (mkRequest [1; 2; 3; 4; 5] (replicate 32 x00)) eq_refl)
    as (cipher & Hcreate & _ & _ & Hrun & _).
  rewrite Hrun. vm_compute in Hcreate. injection Hcreate as <-.
  vm_compute. reflexivity.
Defined.

(** C5, as stated, fails: for an empty payload under the all-zero secret
    the helper prints the empty array, while ciphertext and tag together
    are the 16 bytes of the tag. *)
Lemma on_line_leaves_the_tag_out :
  on_line (mkRequest [] (replicate 32 x00)) = Done [] /\
  update (mkCipheriv (replicate 32 x00) (replicate 16 x00)) []
  ++ getAuthTag (mkCipheriv (replicate 32 x00) (replicate 16 x00)) []
  = [x83; x12; x35; x7a; x21; x11; xea; x33; xb1; xb6; x7e; xb2; xfe; x05; xfe; x86].
Proof. split; vm_compute; reflexivity. Qed.

(** ** What a call keeps *)

Section Preserved.
Variable R : Session -> Session -> Prop.
Hypothesis R_refl : forall s, R s s.
Hypothesis R_trans : forall s1 s2 s3, R s1 s2 -> R s2 s3 -> R s1 s3.

Lemma preserves_ret {A} (a : A) : preserves R (mret a).
Proof. intros w. apply R_refl. Qed.

Lemma preserves_throw {A} (e : Exn) : preserves R (throw (A := A) e).
Proof. intros w. apply R_refl. Qed.

Lemma preserves_hang {A} : preserves R (hang (A := A)).
Proof. intros w. apply R_refl. Qed.

Lemma preserves_get : preserves R get.
Proof. intros w. apply R_refl. Qed.

Lemma preserves_draw : preserves R draw.
Proof. intros w. apply R_refl. Qed.

Lemma preserves_perform (e : Effect) : preserves R (perform e).
Proof. intros w. apply R_refl. Qed.

Lemma preserves_foreign {A} (who : string) (r : option A) : preserves R (foreign who r).
Proof. destruct r; [apply preserves_ret | apply preserves_throw]. Qed.

Lemma preserves_modify (f : Session -> Session) :
  (forall s, R s (f s)) -> preserves R (modify f).
Proof. intros Hf w. apply Hf. Qed.

Lemma preserves_bind {A B} (m : M A) (f : A -> M B) :
  preserves R m -> (forall a, preserves R (f a)) -> preserves R (m ≫= f).
Proof.
  intros Hm Hf w. specialize (Hm w). unfold mbind, M_bind.
  destruct (m w) as [[a|e|] w1]; cbn in *; [|exact Hm..].
  eapply R_trans; [exact Hm | apply Hf].
Qed.

(** A value read from the session and written back changed, at once. *)
Lemma preserves_get_modify {A} (g : Session -> Session -> Session)
    (k : Session -> M A) :
  (forall s, R s (g s s)) -> (forall s, preserves R (k s)) ->
  preserves R (get ≫= fun s => modify (g s) ≫= fun _ => k s).
Proof.
  intros Hg Hk w. unfold mbind, M_bind, get, modify. cbn.
  eapply R_trans; [apply Hg|].
  exact (Hk (session w) (mkWorld (g (session w) (session w)) (trace w) (draws w))).
Qed.

Lemma preserves_mapM {A B} (f : A -> M B) (xs : list A) :
  (forall x, preserves R (f x)) -> preserves R (mapM f xs).
Proof.
  intros Hf. induction xs as [|x xs IH]; cbn [mapM].
  - apply preserves_ret.
  - apply preserves_bind; [apply Hf | intros y].
    apply preserves_bind; [apply IH | intros ys]. apply preserves_ret.
Qed.

Lemma preserves_forM_ {A} (f : A -> M unit) (xs : list A) :
  (forall x, preserves R (f x)) -> preserves R (forM_ xs f).
Proof.
  intros Hf. induction xs as [|x xs IH]; cbn [forM_].
  - apply preserves_ret.
  - apply preserves_bind; [apply Hf | intros _; apply IH].
Qed.

Lemma preserves_send `{Collaborators} (data : bytes) (to : Origin) :
  preserves R (send data to).
Proof.
  intros w. destruct (send_outbound data to w) as (r & w' & Hsend & _ & Hsession & _).
  rewrite Hsend. cbn. rewrite Hsession. apply R_refl.
Qed.
End Preserved.

(** ** What the session keeps *)

Lemma window_steady_refl (a : Window) : window_steady a a.
Proof. split; [reflexivity | lia]. Qed.

Lemma window_steady_trans (a b c : Window) :
  window_steady a b -> window_steady b c -> window_steady a c.
Proof. unfold window_steady. lia. Qed.

Lemma steady_refl (s : Session) : steady s s.
Proof. constructor; auto using window_steady_refl; lia. Qed.

Lemma steady_trans (s1 s2 s3 : Session) : steady s1 s2 -> steady s2 s3 -> steady s1 s3.
Proof.
  intros H12 H23. pose proof (steady_encrypted _ _ H12) as He12.
  pose proof (steady_encrypted _ _ H23) as He23.
  destruct H12, H23.
  constructor; eauto using window_steady_trans; try lia; try congruence.
  intros H3. destruct (He23 H3) as [H2|H2]; [|auto].
  destruct (He12 H2) as [H1|[Hb Hk]]; auto.
Qed.

Lemma online_step_refl (s : Session) : online_step s s.
Proof. left. reflexivity. Qed.

Lemma online_step_trans (s1 s2 s3 : Session) :
  online_step s1 s2 -> online_step s2 s3 -> online_step s1 s3.
Proof. unfold online_step. intros [->|H1] [->|H2]; auto. Qed.

Lemma offline_step_refl (s : Session) : offline_step s s.
Proof. left. reflexivity. Qed.

Lemma offline_step_trans (s1 s2 s3 : Session) :
  offline_step s1 s2 -> offline_step s2 s3 -> offline_step s1 s3.
Proof. unfold offline_step. intros [->|H1] [->|H2]; auto. Qed.

Create HintDb preserved.

(** Goes through a computation step by step; what is left are the writes. *)
Ltac preserved_by refl trans :=
  unfold set_state_M;
  repeat first
    [ progress intros
    | solve [auto with preserved]
    | apply (preserves_ret _ refl)
    | apply (preserves_throw _ refl)
    | apply (preserves_hang _ refl)
    | apply (preserves_get _ refl)
    | apply (preserves_draw _ refl)
    | apply (preserves_perform _ refl)
    | apply (preserves_foreign _ refl)
    | apply (preserves_send _ refl)
    | apply (preserves_mapM _ refl trans)
    | apply (preserves_forM_ _ refl trans)
    | apply preserves_modify
    | apply (preserves_bind _ trans)
    | match goal with
      | |- preserves _ (if ?c then _ else _) => destruct c
      | |- preserves _ (match ?c with _ => _ end) => destruct c
      end ].

Ltac steady_now :=
  constructor; unfold window_steady; cbn; eauto; try lia.

Section Steady.
Context `{Collaborators}.

Lemma steady_send_buffers (buffers : list bytes) (packet : EncapsulatedPacket)
    (to : Origin) (i : Z) (split : option Split) :
  preserves steady (send_buffers i buffers split packet to).
Proof.
  revert i split. induction buffers as [|sub rest IH]; intros i split; cbn [send_buffers].
  - apply (preserves_ret _ steady_refl).
  - cbv zeta. apply (preserves_get_modify _ steady_trans
      (fun s => set_packetIndex to (packetIndex_of to s + 1))).
    + intros s. destruct to; steady_now.
    + intros s. apply (preserves_get_modify _ steady_trans
        (fun s => set_seqNumber to (seqNumber_of to s + 1))).
      * intros s'. destruct to; steady_now.
      * intros s'. apply (preserves_bind _ steady_trans).
        -- apply (preserves_send _ steady_refl).
        -- intros _. apply IH.
Qed.
#[local] Hint Resolve steady_send_buffers : preserved.

Lemma steady_sendPacket (packet : EncapsulatedPacket) (to : Origin) :
  preserves steady (sendPacket packet to).
Proof.
  unfold sendPacket. apply (preserves_bind _ steady_trans); [apply (preserves_get _ steady_refl)|].
  intros s. destruct (split_buffers (sub packet) (_mtuSize s)) as [buffers| |].
  - apply (preserves_bind _ steady_trans); [|intros; apply steady_send_buffers].
    destruct (1 <? Z.of_nat (length buffers)); [|apply (preserves_ret _ steady_refl)].
    cbv zeta. apply (preserves_get_modify _ steady_trans
      (fun s => set_splitID to (splitID_of to s + 1))).
    + intros s'. destruct to; steady_now.
    + intros s'. apply (preserves_ret _ steady_refl).
  - apply (preserves_throw _ steady_refl).
  - apply (preserves_hang _ steady_refl).
Qed.
#[local] Hint Resolve steady_sendPacket : preserved.

Lemma steady_handleLoginPacket (buffer : bytes) :
  preserves steady (handleLoginPacket buffer).
Proof.
  unfold handleLoginPacket. preserved_by steady_refl steady_trans; steady_now.
Qed.
#[local] Hint Resolve steady_handleLoginPacket : preserved.

Lemma steady_handleHandshakePacket (buffer : bytes) :
  preserves steady (handleHandshakePacket buffer).
Proof.
  intros w. unfold handleHandshakePacket, set_state_M, foreign, mbind, M_bind, get.
  destruct (ServerHandshakePacket_from buffer) as [token|]; cbn; [|apply steady_refl].
  destruct (_keyPair (session w)) as [keyPair|] eqn:Hkeys; cbn; [|apply steady_refl].
  destruct (diffieHellman _ _ _); cbn; [|apply steady_refl].
  steady_now.
Qed.
#[local] Hint Resolve steady_handleHandshakePacket : preserved.

Lemma steady_handleBedrock (data : bytes) (from : Origin) :
  preserves steady (handleBedrock data from).
Proof. unfold handleBedrock. preserved_by steady_refl steady_trans. Qed.
#[local] Hint Resolve steady_handleBedrock : preserved.

Lemma steady_handleBatch (buffer : bytes) (from : Origin) :
  preserves steady (handleBatch buffer from).
Proof.
  unfold handleBatch, handleEncryptedBatch, handleUnencryptedBatch.
  preserved_by steady_refl steady_trans.
Qed.
#[local] Hint Resolve steady_handleBatch : preserved.

Lemma steady_forward (packet : EncapsulatedPacket) (from : Origin) :
  preserves steady (forward packet from).
Proof. unfold forward. preserved_by steady_refl steady_trans. Qed.
#[local] Hint Resolve steady_forward : preserved.

Lemma steady_admit_reliable (packet : EncapsulatedPacket) (from : Origin) :
  preserves steady (admit_reliable packet from).
Proof.
  intros w. unfold admit_reliable.
  destruct (isReliable (reliability packet)); [|apply steady_refl].
  destruct (index packet) as [index|]; [|apply steady_refl].
  unfold mbind, M_bind, get. cbv zeta.
  destruct (inRange _ _ _); cbn [negb]; [|apply steady_refl].
  destruct (decide _); [apply steady_refl|].
  destruct (Z.eqb_spec index (w_start (window_of from (session w)))) as [->|_].
  - rewrite slide_one_turn by (apply elem_of_union_l, elem_of_singleton; reflexivity).
    destruct from; steady_now.
  - destruct from; steady_now.
Qed.
#[local] Hint Resolve steady_admit_reliable : preserved.

Lemma steady_reassemble (packet : EncapsulatedPacket) (from : Origin) :
  preserves steady (reassemble packet from).
Proof.
  intros w. unfold reassemble.
  destruct (split packet) as [sp|]; [|apply steady_refl].
  unfold mbind, M_bind, get. cbv zeta.
  destruct (memoryOf _ _) as [[[slot memory] splits]| |] eqn:Hmem;
    [|apply steady_refl..].
  apply memoryOf_Done in Hmem as (Hlen & _).
  destruct (js_nth _ _); [|destruct (negb _)];
    destruct from; steady_now; rewrite ?length_insert; exact Hlen.
Qed.
#[local] Hint Resolve steady_reassemble : preserved.

Lemma steady_handlePacket (packet : EncapsulatedPacket) (from : Origin) :
  preserves steady (handlePacket packet from).
Proof. unfold handlePacket. preserved_by steady_refl steady_trans. Qed.
#[local] Hint Resolve steady_handlePacket : preserved.

Lemma steady_handleOnline (data : bytes) (from : Origin) :
  preserves steady (handleOnline data from).
Proof.
  unfold handleOnline, handleDatagram, handleAck, sendAck.
  preserved_by steady_refl steady_trans.
Qed.

Lemma steady_handleOffline (data : bytes) (from : Origin) :
  preserves steady (handleOffline data from).
Proof.
  unfold handleOffline. cbv zeta.
  apply (preserves_bind _ steady_trans); [apply (preserves_foreign _ steady_refl)|].
  intros id. apply (preserves_bind _ steady_trans).
  - destruct (id =? Open2Request_id); [|apply (preserves_ret _ steady_refl)].
    apply (preserves_bind _ steady_trans); [apply (preserves_foreign _ steady_refl)|].
    intros mtuSize w. unfold mbind, M_bind, get, modify. cbn. steady_now.
  - intros _. preserved_by steady_refl steady_trans. steady_now. discriminate.
Qed.

Lemma steady_handle (data : bytes) (from : Origin) :
  preserves steady (handle data from).
Proof.
  pose proof steady_handleOnline. pose proof steady_handleOffline.
  unfold handle. preserved_by steady_refl steady_trans.
Qed.

Lemma steady_feed (inputs : list (bytes * Origin)) (w : World) :
  steady (session w) (session (feed inputs w)).
Proof.
  revert w. induction inputs as [|[data from] rest IH]; intros w; cbn [feed].
  - apply steady_refl.
  - eapply steady_trans; [apply steady_handle | apply IH].
Qed.

(** The state through the online and the offline branch. *)
Ltac state_kept := intros; first [left; reflexivity | right; reflexivity].

Lemma online_step_handleOnline (data : bytes) (from : Origin) :
  preserves online_step (handleOnline data from).
Proof.
  unfold handleOnline, handleDatagram, handleAck, sendAck, handlePacket, forward,
    admit_reliable, reassemble, sendPacket, handleBatch, handleEncryptedBatch,
    handleUnencryptedBatch, handleBedrock, handleLoginPacket, handleHandshakePacket.
  cbv zeta.
  assert (Hloop : forall buffers i split packet to,
            preserves online_step (send_buffers i buffers split packet to)).
  { induction buffers as [|sub rest IH]; intros i split packet to; cbn [send_buffers];
      cbv zeta; preserved_by online_step_refl online_step_trans; state_kept. }
  preserved_by online_step_refl online_step_trans; state_kept.
Qed.

Lemma offline_step_handleOffline (data : bytes) (from : Origin) :
  preserves offline_step (handleOffline data from).
Proof.
  unfold handleOffline. cbv zeta.
  preserved_by offline_step_refl offline_step_trans; state_kept.
Qed.

Lemma rank_handle (data : bytes) (from : Origin) (w : World) :
  rank (_state (session w)) <= rank (_state (session (snd (handle data from w)))).
Proof.
  unfold handle, mbind, M_bind, perform, get. cbn.
  destruct (emit data_in data from) as [|[data'|] [from'|]]; cbn; try lia.
  destruct (decide (_state (session w) = Offline)) as [Hoff|Hon].
  - destruct (offline_step_handleOffline data' from'
                (mkWorld (session w) (trace w ++ [Emit data_in data from]) (draws w)))
      as [Heq|Heq]; cbn in Heq; rewrite Heq; [lia|].
    rewrite Hoff. cbn. lia.
  - destruct (online_step_handleOnline data' from'
                (mkWorld (session w) (trace w ++ [Emit data_in data from]) (draws w)))
      as [Heq|Heq]; cbn in Heq; rewrite Heq; [lia|].
    destruct (_state (session w)); cbn; lia.
Qed.
End Steady.

(** X5: whatever is received and whatever each call of [handle] comes to,
    the split tables keep the number of slots they have; a session that
    starts as the class declares it has four slots for each origin, and never
    more than four split sets in progress for an origin. *)
Theorem feed_keeps_slots `{Collaborators} (inputs : list (bytes * Origin))
    (w : World) (o : Origin) :
  length (splits_of o (session (feed inputs w))) = length (splits_of o (session w)) /\
  (active (splits_of o (session (feed inputs w))) <= length (splits_of o (session w)))%nat /\
  length (splits_of o (session (feed inputs (mkWorld new_session [] 0)))) = 4%nat /\
  (active (splits_of o (session (feed inputs (mkWorld new_session [] 0)))) <= 4)%nat.
Proof.
  assert (Hlen : forall w,
            length (splits_of o (session (feed inputs w)))
            = length (splits_of o (session w))).
  { intros w0. destruct (steady_feed inputs w0). destruct o; assumption. }
  assert (Hact : forall w,
            (active (splits_of o (session (feed inputs w)))
             <= length (splits_of o (session w)))%nat).
  { intros w0. rewrite <- Hlen. apply active_le_length. }
  split; [apply Hlen|]. split; [apply Hact|].
  split.
  - rewrite Hlen. destruct o; reflexivity.
  - etransitivity; [apply Hact|]. destruct o; cbn; lia.
Qed.

(** X6: no call of [handle] raises [_mtuSize]; from the 1492 a session
    starts with it can only go down. *)
Theorem feed_mtuSize_never_grows `{Collaborators} (inputs : list (bytes * Origin))
    (w : World) :
  _mtuSize (session (feed inputs w)) <= _mtuSize (session w) /\
  _mtuSize (session (feed inputs (mkWorld new_session [] 0))) <= 1492.
Proof.
  split; [apply steady_feed|].
  exact (steady_mtuSize _ _ (steady_feed inputs (mkWorld new_session [] 0))).
Qed.

(** X7: no call of [handle] lowers a split id, packet index or sequence
    number counter of either direction, also when it throws. *)
Theorem feed_counters_never_go_back `{Collaborators} (inputs : list (bytes * Origin))
    (w : World) (o : Origin) :
  splitID_of o (session w) <= splitID_of o (session (feed inputs w)) /\
  packetIndex_of o (session w) <= packetIndex_of o (session (feed inputs w)) /\
  seqNumber_of o (session w) <= seqNumber_of o (session (feed inputs w)).
Proof. destruct (steady_feed inputs w). destruct o; cbn; auto. Qed.

(** X8: the reliable windows keep their width and never move back; from
    the [{start: 0, end: 2048}] a session starts with, [end] is always
    [start + 2048]. *)
Theorem feed_windows_keep_width `{Collaborators} (inputs : list (bytes * Origin))
    (w : World) (o : Origin) :
  let before := window_of o (session w) in
  let after := window_of o (session (feed inputs w)) in
  w_end after - w_start after = w_end before - w_start before /\
  w_start before <= w_start after /\
  w_end (window_of o (session (feed inputs (mkWorld new_session [] 0))))
  = w_start (window_of o (session (feed inputs (mkWorld new_session [] 0)))) + 2048.
Proof.
  cbv zeta.
  assert (Hw : forall w, window_steady (window_of o (session w))
                           (window_of o (session (feed inputs w)))).
  { intros w0. destruct (steady_feed inputs w0). destruct o; assumption. }
  split; [apply Hw|]. split; [apply Hw|].
  destruct (Hw (mkWorld new_session [] 0)) as [Hwidth _].
  destruct o; cbn in *; lia.
Qed.

(** X9: [handle] never takes the state back: once [Online] the session is
    never [Offline] again, once [Encrypted] it stays so. *)
Theorem feed_state_never_goes_back `{Collaborators} (inputs : list (bytes * Origin))
    (w : World) :
  rank (_state (session w)) <= rank (_state (session (feed inputs w))).
Proof.
  revert w. induction inputs as [|[data from] rest IH]; intros w; cbn [feed].
  - lia.
  - etransitivity; [apply rank_handle | apply IH].
Qed.

(** X10: a session that is [Encrypted] holds a server codec and a key
    pair: if that is so before a run of [handle] calls, it is so after. *)
Theorem feed_encrypted_has_keys `{Collaborators} (inputs : list (bytes * Origin))
    (w : World) :
  (_state (session w) = Encrypted ->
   is_Some (_serverBatch (session w)) /\ is_Some (_keyPair (session w))) ->
  _state (session (feed inputs w)) = Encrypted ->
  is_Some (_serverBatch (session (feed inputs w))) /\
  is_Some (_keyPair (session (feed inputs w))).
Proof.
  intros Hbefore Hafter. destruct (steady_feed inputs w) as
    [_ _ _ _ _ _ _ _ _ _ _ Hkeys _ Hserver Hencrypted].
  destruct (Hencrypted Hafter) as [Hwas|Hnow]; [|exact Hnow].
  destruct (Hbefore Hwas). auto.
Qed.

Lemma feed_encrypted_has_keys_witness :
  let inputs := [([x08], server); ([x80; xfe; x01], client); ([x80; xfe; x03], server)] in
  let w := mkWorld new_session [] 0 in
  _state (session (feed (H := plain) inputs w)) = Encrypted /\
  is_Some (_serverBatch (session (feed (H := plain) inputs w))) /\
  is_Some (_keyPair (session (feed (H := plain) inputs w))).
Proof.
  cbv zeta. split; [vm_compute; reflexivity|].
  apply (feed_encrypted_has_keys (H := plain)).
  - intros Hstate. discriminate Hstate.
  - vm_compute. reflexivity.
Defined.

(** ** The remembered indexes stay in the window *)

Lemma keeps_indexes_refl s : keeps_indexes_in_window s s.
Proof. intros Hs. exact Hs. Qed.

Lemma keeps_indexes_trans s1 s2 s3 :
  keeps_indexes_in_window s1 s2 -> keeps_indexes_in_window s2 s3 ->
  keeps_indexes_in_window s1 s3.
Proof. unfold keeps_indexes_in_window. auto. Qed.

Ltac indexes_kept :=
  let s := fresh "s" in let Hs := fresh "Hs" in
  let o := fresh "o" in let i := fresh "i" in
  intros s Hs o i; specialize (Hs o i);
  repeat match goal with x : Origin |- _ => destruct x end; exact Hs.

Section Indexes.
Context `{Collaborators}.

Lemma indexes_admit_reliable (packet : EncapsulatedPacket) (from : Origin) :
  preserves keeps_indexes_in_window (admit_reliable packet from).
Proof.
  intros w Hs. unfold admit_reliable.
  destruct (isReliable (reliability packet)); [|exact Hs].
  destruct (index packet) as [index|]; [|exact Hs].
  unfold mbind, M_bind, get. cbv zeta.
  destruct (inRange _ _ _) eqn:Hrange; cbn [negb]; [|exact Hs].
  destruct (decide _); [exact Hs|].
  unfold inRange in Hrange. apply andb_true_iff in Hrange as [Hlo Hhi].
  apply Z.leb_le in Hlo, Hhi.
  destruct (Z.eqb_spec index (w_start (window_of from (session w)))) as [Heq|Hne].
  - rewrite slide_one_turn
      by (rewrite <- Heq; apply elem_of_union_l, elem_of_singleton; reflexivity).
    intros o i Hi. pose proof (Hs o i) as Hold.
    destruct from, o; cbn in *; auto;
      apply elem_of_difference in Hi as [Hi Hnot];
      rewrite elem_of_singleton in Hnot;
      apply elem_of_union in Hi as [Hi|Hi];
      try (apply elem_of_singleton in Hi; lia);
      specialize (Hold Hi); lia.
  - intros o i Hi. pose proof (Hs o i) as Hold.
    destruct from, o; cbn in *; auto;
      apply elem_of_union in Hi as [Hi|Hi];
      try (apply elem_of_singleton in Hi; lia); auto.
Qed.

Lemma indexes_handle (data : bytes) (from : Origin) :
  preserves keeps_indexes_in_window (handle data from).
Proof.
  pose proof indexes_admit_reliable as Hadmit.
  assert (Hloop : forall buffers i split packet to,
            preserves keeps_indexes_in_window (send_buffers i buffers split packet to)).
  { induction buffers as [|sub rest IH]; intros i split packet to; cbn [send_buffers];
      cbv zeta; preserved_by keeps_indexes_refl keeps_indexes_trans; indexes_kept. }
  unfold handle, handleOffline, handleOnline, handleDatagram, handleAck, sendAck,
    handlePacket, forward, reassemble, sendPacket, handleBatch, handleEncryptedBatch,
    handleUnencryptedBatch, handleBedrock, handleLoginPacket, handleHandshakePacket.
  cbv zeta.
  preserved_by keeps_indexes_refl keeps_indexes_trans; indexes_kept.
Qed.
End Indexes.

(** X11: the indexes remembered for an origin lie inside its reliable
    window, bounds included: if that is so before a run of [handle] calls, it
    is so after, so the set never holds more than the window has room for. *)
Theorem feed_indexes_in_window `{Collaborators} (inputs : list (bytes * Origin))
    (w : World) (o : Origin) (i : Z) :
  indexes_in_window (session w) ->
  i ∈ indexes_of o (session (feed inputs w)) ->
  w_start (window_of o (session (feed inputs w))) <= i
  <= w_end (window_of o (session (feed inputs w))).
Proof.
  intros Hw. revert o i. change (indexes_in_window (session (feed inputs w))).
  revert w Hw. induction inputs as [|[data from] rest IH]; intros w Hw; cbn [feed].
  - exact Hw.
  - apply IH. apply indexes_handle. exact Hw.
Qed.

Lemma feed_indexes_in_window_witness :
  let w := mkWorld (set_indexes client {[5]} new_session) [] 0 in
  let inputs := [([x08], server); ([x80; x09], client)] in
  5 ∈ indexes_of client (session (feed (H := plain) inputs w)) /\
  w_start (window_of client (session (feed (H := plain) inputs w))) <= 5
  <= w_end (window_of client (session (feed (H := plain) inputs w))).
Proof.
  cbv zeta.
  assert (Hin : 5 ∈ indexes_of client
                  (session (feed (H := plain) [([x08], server); ([x80; x09], client)]
                     (mkWorld (set_indexes client {[5]} new_session) [] 0)))).
  { vm_compute. reflexivity. }
  split; [exact Hin|].
  apply (feed_indexes_in_window (H := plain)); [|exact Hin].
  intros [] i Hi; cbn in Hi.
  - apply elem_of_singleton in Hi. subst i. cbn. lia.
  - apply elem_of_empty in Hi. destruct Hi.
Defined.

(** ** The counters [sendPacket] leaves *)

Lemma bump_twice (to : Origin) (s : Session) (a b c d : Z) :
  set_seqNumber to a (set_packetIndex to b (set_seqNumber to c (set_packetIndex to d s)))
  = set_seqNumber to a (set_packetIndex to b s).
Proof. destruct to; reflexivity. Qed.

Lemma send_buffers_session `{Collaborators} (buffers : list bytes)
    (packet : EncapsulatedPacket) (to : Origin) :
  (forall data, keeps_tuple (emit data_out data to)) ->
  forall (i : Z) (split : option Split) (w : World),
    buffers <> [] ->
    session (snd (send_buffers i buffers split packet to w))
    = set_seqNumber to (seqNumber_of to (session w) + Z.of_nat (length buffers))
        (set_packetIndex to (packetIndex_of to (session w) + Z.of_nat (length buffers))
           (session w)) /\
    draws (snd (send_buffers i buffers split packet to w)) = draws w.
Proof.
  intros Hkeep. induction buffers as [|sub rest IH]; intros i split w Hne; [contradiction|].
  cbn [send_buffers].
  set (split' := (fun sp => mkSplit (split_id sp) i (split_count sp)) <$> split).
  set (index := packetIndex_of to (session w)).
  set (seq := seqNumber_of to (session w)).
  set (d := mkDatagram flag_valid seq
              [mkPacket (reliability packet) sub (Some index) (sequence packet)
                 (order packet) split']).
  set (s1 := set_seqNumber to (seq + 1) (set_packetIndex to (index + 1) (session w))).
  destruct (send_outbound (Datagram_export d) to (mkWorld s1 (trace w) (draws w)))
    as (r & w1 & Hsend & _ & Hs1 & Hd1 & _ & Hdone).
  specialize (Hdone (Hkeep _)). subst r.
  unfold mbind, M_bind, get, modify, sendDatagram. cbn -[send send_buffers].
  rewrite seqNumber_of_set_packetIndex.
  fold index. fold seq. fold split'. fold d. fold s1. rewrite Hsend.
  destruct rest as [|sub' rest'].
  - cbn. rewrite Hs1, Hd1. split; reflexivity.
  - destruct (IH (i + 1) split' w1 ltac:(discriminate)) as [-> ->].
    rewrite Hs1, Hd1. cbn [session draws]. split; [|reflexivity]. unfold s1.
    destruct (counters_after_step to (session w) (index + 1) (seq + 1)) as [-> ->].
    rewrite bump_twice. f_equal; [|f_equal]; cbn [length]; lia.
Qed.

(** X12: with [mtuSize] above 60 and data-out subscribers that leave [send]
    a tuple (or cancel), [sendPacket] hands to [send] one datagram per array
    read, each with the valid flag, the next sequence number and one packet
    that has the reliability, sequence and order of the packet sent, the next
    packet index, and, when there is more than one array, the split
    descriptor [{count, id: splitID % 65536, index}].  Afterwards the
    sequence number and the packet index of that side are further by the
    number of arrays, its split id by one if there was more than one, and
    nothing else of the session has changed. *)
Theorem sendPacket_stamps `{Collaborators}
    (packet : EncapsulatedPacket) (to : Origin) (w : World) :
  60 < _mtuSize (session w) ->
  (forall data, keeps_tuple (emit data_out data to)) ->
  exists (chunks : list bytes) (w' : World),
    let n := Z.of_nat (length chunks) in
    let split_at (k : nat) :=
      if 1 <? n
      then Some (mkSplit (Z.rem (splitID_of to (session w)) 65536) (Z.of_nat k) n)
      else None in
    sendPacket packet to w = (Done tt, w') /\
    concat chunks = sub packet /\
    n = Z.of_nat (length (sub packet)) / (_mtuSize (session w) - 60) + 1 /\
    outbound (trace w')
    = outbound (trace w)
      ++ imap (fun k chunk =>
                 (Datagram_export
                    (mkDatagram flag_valid (seqNumber_of to (session w) + Z.of_nat k)
                       [mkPacket (reliability packet) chunk
                          (Some (packetIndex_of to (session w) + Z.of_nat k))
                          (sequence packet) (order packet) (split_at k)]), to))
           chunks /\
    session w'
    = set_seqNumber to (seqNumber_of to (session w) + n)
        (set_packetIndex to (packetIndex_of to (session w) + n)
           (if 1 <? n
            then set_splitID to (splitID_of to (session w) + 1) (session w)
            else session w)) /\
    draws w' = draws w.
Proof.
  intros Hmtu Hkeep.
  destruct (split_buffers_chunks (sub packet) (_mtuSize (session w)) Hmtu)
    as (chunks & Hsplit & Hcount & Hcat & _).
  exists chunks. cbv zeta.
  set (n := Z.of_nat (length chunks)) in *.
  set (split0 := if 1 <? n
                 then Some (mkSplit (Z.rem (splitID_of to (session w)) 65536) 0 n)
                 else None).
  set (w0 := if 1 <? n
             then mkWorld (set_splitID to (splitID_of to (session w) + 1) (session w))
                    (trace w) (draws w)
             else w).
  assert (Hne : chunks <> []).
  { intros ->. cbn in n. assert (0 <= Z.of_nat (length (sub packet)) / (_mtuSize (session w) - 60))
      by (apply Z.div_pos; lia). lia. }
  assert (Hcounters : seqNumber_of to (session w0) = seqNumber_of to (session w) /\
                      packetIndex_of to (session w0) = packetIndex_of to (session w) /\
                      trace w0 = trace w /\ draws w0 = draws w /\
                      session w0 = (if 1 <? n
                                    then set_splitID to (splitID_of to (session w) + 1) (session w)
                                    else session w)).
  { unfold w0. destruct (1 <? n); [|auto]. cbn [session trace draws].
    destruct (counters_of_set_splitID to (session w) (splitID_of to (session w) + 1)).
    auto. }
  destruct Hcounters as (Hseq & Hidx & Htrace & Hdraws & Hsession).
  destruct (send_buffers_outbound chunks packet to Hkeep 0%nat split0 w0)
    as (w' & Hrun & Hout).
  destruct (send_buffers_session chunks packet to Hkeep (Z.of_nat 0) split0 w0 Hne)
    as [Hs' Hd'].
  rewrite Hrun in Hs', Hd'. cbn [snd] in Hs', Hd'.
  exists w'. repeat split.
  - unfold sendPacket, mbind, M_bind, get. cbn -[send_buffers split_buffers].
    rewrite Hsplit. fold n. unfold w0, split0 in Hrun.
    destruct (1 <? n); cbn -[send_buffers]; exact Hrun.
  - exact Hcat.
  - exact Hcount.
  - rewrite Hout, Htrace. f_equal. apply imap_ext.
    intros k x _. cbn. unfold datagram_at. rewrite Hseq, Hidx, !Z.sub_0_r.
    unfold split0. destruct (1 <? n); reflexivity.
  - rewrite Hs', Hseq, Hidx, Hsession. reflexivity.
  - rewrite Hd'. exact Hdraws.
Qed.

Lemma sendPacket_stamps_witness :
  exists (chunks : list bytes) (w' : World),
    sendPacket (H := plain) packet_3000 server (mkWorld new_session [] 0) = (Done tt, w') /\
    length chunks = 3%nat /\
    _serverSeqNumber (session w') = 3 /\ _serverPacketIndex (session w') = 3 /\
    _serverSplitID (session w') = 1 /\ _clientSeqNumber (session w') = 0.
Proof.
  destruct (sendPacket_stamps (H := plain) packet_3000 server
              (mkWorld new_session [] 0) eq_refl (fun _ => I))
    as (chunks & w' & Hrun & _ & Hcount & _ & Hsession & _).
  change (Z.of_nat (length chunks) = 3) in Hcount.
  exists chunks, w'. split; [exact Hrun|]. split; [lia|].
  rewrite Hsession, Hcount. repeat split.
Defined.

(** ** [memoryOf], called again *)

(** X13: the slot [memoryOf] answers for an id is answered again for the
    same id, with the table as the first call left it; and a call for another
    id answers another slot and leaves the first one as it is. *)
Theorem memoryOf_stable_and_apart (splits : Splits) (id1 id2 : Z)
    (slot1 : nat) (m1 : SplitMemory) (splits1 : Splits) :
  memoryOf splits id1 = Done (slot1, m1, splits1) ->
  memoryOf splits1 id1 = Done (slot1, m1, splits1) /\
  (id2 <> id1 ->
   forall slot2 m2 splits2,
     memoryOf splits1 id2 = Done (slot2, m2, splits2) ->
     slot2 <> slot1 /\ splits2 !! slot1 = Some (Some m1)).
Proof.
  intros Hfirst. pose proof (memoryOf_Done _ _ _ _ _ Hfirst) as (Hlen & Hslot & Hid & Hcase).
  split.
  - destruct Hcase as [->|(Hhole & -> & ->)]; [exact Hfirst|].
    apply memoryOf_match; [exact Hslot | reflexivity|].
    intros j m' Hj Hm' Hsame.
    rewrite list_lookup_insert_ne in Hm' by lia.
    unfold memoryOf in Hfirst.
    destruct (findIndex (has_id id1) splits) as [k|] eqn:Hfind.
    + apply findIndex_Some in Hfind as [[x [Hx Hpx]] _].
      apply has_id_true in Hpx as [m'' [-> _]]. rewrite Hx in Hfirst.
      injection Hfirst as <- _ _. congruence.
    + pose proof (proj1 (no_match_iff _ _) (proj1 (findIndex_None _ _) Hfind)) as Hno.
      apply (Hno m'); [|exact Hsame]. apply list_elem_of_lookup. eauto.
  - intros Hne slot2 m2 splits2 Hsecond.
    pose proof (memoryOf_Done _ _ _ _ _ Hsecond) as (_ & Hslot2 & Hid2 & Hcase2).
    destruct Hcase2 as [->|(Hhole2 & -> & ->)].
    + split; [|exact Hslot]. intros ->. rewrite Hslot in Hslot2.
      injection Hslot2 as <-. congruence.
    + assert (Hapart : slot2 <> slot1) by (intros ->; congruence).
      split; [exact Hapart|]. rewrite list_lookup_insert_ne by exact Hapart. exact Hslot.
Qed.

Lemma memoryOf_stable_and_apart_witness :
  memoryOf (<[0%nat := Some (mkMemory 3 [])]> empty_splits) 7
  = Done (1%nat, mkMemory 7 [],
          <[1%nat := Some (mkMemory 7 [])]> (<[0%nat := Some (mkMemory 3 [])]> empty_splits)) /\
  memoryOf (<[1%nat := Some (mkMemory 7 [])]> (<[0%nat := Some (mkMemory 3 [])]> empty_splits)) 7
  = Done (1%nat, mkMemory 7 [],
          <[1%nat := Some (mkMemory 7 [])]> (<[0%nat := Some (mkMemory 3 [])]> empty_splits)).
Proof.
  split; [reflexivity|].
  apply (memoryOf_stable_and_apart (<[0%nat := Some (mkMemory 3 [])]> empty_splits) 7 9).
  reflexivity.
Defined.

(** ** Packets that pass untouched *)

Section Relay.
Context `{Collaborators}.

Lemma handleBedrock_ordinary (data : bytes) (from : Origin) (w : World) :
  ordinary from data = true -> handleBedrock data from w = (Done data, w).
Proof.
  unfold ordinary, handleBedrock, foreign, mbind, M_bind.
  destruct (BedrockPacket_header data) as [id|]; [|discriminate]. cbn.
  destruct from.
  - rewrite decide_True by reflexivity. intros Hok.
    apply andb_true_iff in Hok as [Hlogin Hpack].
    apply negb_true_iff in Hlogin. rewrite Hlogin. cbn.
    destruct (id =? ResourcePackResponse_id); cbn in *.
    + apply bool_decide_eq_true in Hpack as [status ->]. cbn.
      rewrite decide_False by discriminate. reflexivity.
    + rewrite decide_False by discriminate. reflexivity.
  - rewrite decide_False by discriminate. cbn. intros Hok.
    apply negb_true_iff in Hok. rewrite decide_True by reflexivity.
    rewrite Hok. reflexivity.
Qed.

Lemma mapM_handleBedrock_ordinary (batch : list bytes) (from : Origin) (w : World) :
  forallb (ordinary from) batch = true ->
  mapM (fun data => handleBedrock data from) batch w = (Done batch, w).
Proof.
  induction batch as [|data rest IH]; cbn [forallb mapM]; [reflexivity|].
  intros Hall. apply andb_true_iff in Hall as [Hdata Hrest].
  unfold mbind at 1. unfold M_bind at 1. rewrite (handleBedrock_ordinary _ _ _ Hdata).
  unfold mbind at 1. unfold M_bind at 1. rewrite (IH Hrest). reflexivity.
Qed.
End Relay.

(** X14: a batch whose packets are all ordinary is decoded, with the codec
    of its origin when the state is [Encrypted] and with [BatchPacket]
    otherwise, and encoded again with the same packets in the same order,
    with the codec of the opposite side when [Encrypted]; the session is left
    as it was and nothing is emitted. *)
Theorem handleBatch_relays_ordinary `{Collaborators}
    (buffer : bytes) (from : Origin) (w : World) (batch : list bytes) :
  forallb (ordinary from) batch = true ->
  (if decide (_state (session w) = Encrypted)
   then exists receive, batch_of from (session w) = Some receive /\
          EncryptedBatchPacket_from receive buffer = Some batch
   else BatchPacket_from buffer = Some batch) ->
  handleBatch buffer from w
  = (if decide (_state (session w) = Encrypted)
     then match batch_of (opposite from) (session w) with
          | Some send_ =>
              match EncryptedBatchPacket_export send_ batch with
              | Some data => Done data
              | None => Throw (Foreign "EncryptedBatchPacket.export")
              end
          | None => Throw (TypeError "SendBatch is not a constructor")
          end
     else match BatchPacket_export batch with
          | Some data => Done data
          | None => Throw (Foreign "BatchPacket.export")
          end, w).
Proof.
  intros Hall Hparse. unfold handleBatch, mbind, M_bind, get. cbn.
  destruct (decide (_state (session w) = Encrypted)) as [Henc|Hplain].
  - destruct Hparse as (receive & Hcodec & Hparse).
    unfold handleEncryptedBatch, mbind, M_bind, get. cbn. rewrite Hcodec, Hparse. cbn.
    rewrite (mapM_handleBedrock_ordinary _ _ _ Hall).
    destruct (batch_of (opposite from) (session w)) as [send_|]; [|reflexivity].
    now destruct (EncryptedBatchPacket_export send_ batch).
  - unfold handleUnencryptedBatch, mbind, M_bind. rewrite Hparse. cbn.
    rewrite (mapM_handleBedrock_ordinary _ _ _ Hall).
    now destruct (BatchPacket_export batch).
Qed.

Lemma handleBatch_relays_ordinary_witness :
  handleBatch (H := plain) [xfe; x09; x2a] client (mkWorld encrypted_session [] 0)
  = (Done [xfe; x09; x2a], mkWorld encrypted_session [] 0).
Proof.
  apply (handleBatch_relays_ordinary (H := plain) [xfe; x09; x2a] client
           (mkWorld encrypted_session [] 0) [[x09; x2a]]).
  - reflexivity.
  - cbn. eexists. split; reflexivity.
Defined.

Section Through.
Context `{Collaborators}.

Lemma split_buffers_one (sub : bytes) (mtuSize : Z) :
  60 < mtuSize -> Z.of_nat (length sub) < mtuSize - 60 ->
  split_buffers sub mtuSize = Done [sub].
Proof.
  intros Hmtu Hfits.
  destruct (split_buffers_chunks sub mtuSize Hmtu) as (chunks & -> & Hcount & Hcat & _).
  rewrite Z.div_small in Hcount by lia.
  destruct chunks as [|chunk [|]]; cbn in Hcount; try lia.
  cbn in Hcat. rewrite app_nil_r in Hcat. now subst.
Qed.

Lemma relay_counters (to : Origin) (s : Session) (a b c d : Z) :
  _mtuSize (set_seqNumber to a (set_packetIndex to b s)) = _mtuSize s /\
  set_seqNumber to c (set_packetIndex to d (set_seqNumber to a (set_packetIndex to b s)))
  = set_seqNumber to c (set_packetIndex to d s).
Proof. destruct to; split; reflexivity. Qed.

Lemma handlePacket_passes_through (p : EncapsulatedPacket) (from : Origin) (w : World) :
  (forall data to, emit data_out data to = replaced (Some data) (Some to)) ->
  passes_through (_mtuSize (session w)) p ->
  60 < _mtuSize (session w) ->
  let to := opposite from in
  let data :=
    Datagram_export
      (relayed p (packetIndex_of to (session w)) (seqNumber_of to (session w))) in
  handlePacket p from w
  = (Done tt,
     mkWorld
       (set_seqNumber to (seqNumber_of to (session w) + 1)
          (set_packetIndex to (packetIndex_of to (session w) + 1) (session w)))
       (trace w ++ [Emit data_out data to; ListenerSend data to])
       (draws w)).
Proof.
  intros Hquiet (Hrel & Hsplit & (id & Hid & Hbatch) & Hfits) Hmtu. cbv zeta.
  unfold handlePacket, admit_reliable. rewrite Hrel.
  unfold mbind at 1. unfold M_bind at 1. cbn [mret M_ret].
  unfold reassemble. rewrite Hsplit.
  unfold mbind at 1. unfold M_bind at 1. cbn [mret M_ret].
  unfold forward, foreign. rewrite Hid.
  apply Z.eqb_neq in Hbatch.
  unfold mbind at 1. unfold M_bind at 1. cbn [mret M_ret]. rewrite Hbatch.
  unfold mbind at 1. unfold M_bind at 1. cbn [mret M_ret].
  unfold sendPacket, mbind, M_bind, get. cbn -[split_buffers send].
  rewrite (split_buffers_one _ _ Hmtu Hfits).
  change (1 <? Z.of_nat (length [sub p])) with false.
  unfold modify, mbind, M_bind, get. cbn -[send].
  unfold modify, mbind, M_bind, get. cbn -[send].
  rewrite seqNumber_of_set_packetIndex.
  unfold sendDatagram, send, mbind, M_bind, perform. cbn. rewrite Hquiet. cbn.
  unfold relayed. rewrite <- app_assoc. reflexivity.
Qed.

(** What the packets of a datagram leave on the trace, the counters of the
    side they go to starting at [index] and [seqNumber]. *)
Lemma forM_passes_through (ps : list EncapsulatedPacket) (from : Origin) :
  (forall data to, emit data_out data to = replaced (Some data) (Some to)) ->
  forall w : World,
  60 < _mtuSize (session w) ->
  Forall (passes_through (_mtuSize (session w))) ps ->
  let to := opposite from in
  forM_ ps (fun p => handlePacket p from) w
  = (Done tt,
     mkWorld
       (set_seqNumber to (seqNumber_of to (session w) + Z.of_nat (length ps))
          (set_packetIndex to (packetIndex_of to (session w) + Z.of_nat (length ps))
             (session w)))
       (trace w
        ++ concat (imap (fun k p =>
                           let data :=
                             Datagram_export
                               (relayed p (packetIndex_of to (session w) + Z.of_nat k)
                                  (seqNumber_of to (session w) + Z.of_nat k)) in
                           [Emit data_out data to; ListenerSend data to]) ps))
       (draws w)).
Proof.
  intros Hquiet. induction ps as [|p rest IH]; intros w Hmtu Hall.
  { destruct w as [[] t d]. destruct from; cbn; rewrite ?Z.add_0_r, app_nil_r; reflexivity. }
  cbv zeta. apply Forall_cons in Hall as [Hp Hrest]. cbn [forM_].
  unfold mbind at 1. unfold M_bind at 1.
  rewrite (handlePacket_passes_through p from w Hquiet Hp Hmtu). cbv zeta.
  set (to := opposite from).
  set (s1 := set_seqNumber to (seqNumber_of to (session w) + 1)
               (set_packetIndex to (packetIndex_of to (session w) + 1) (session w))).
  destruct (relay_counters to (session w) (seqNumber_of to (session w) + 1)
              (packetIndex_of to (session w) + 1) 0 0) as [Hsame _].
  fold s1 in Hsame.
  rewrite IH; cbn [session trace draws]; [|lia|now rewrite Hsame].
  fold to. unfold s1.
  destruct (counters_after_step to (session w) (packetIndex_of to (session w) + 1)
              (seqNumber_of to (session w) + 1)) as [-> ->].
  f_equal. f_equal.
  - destruct (relay_counters to (session w) (seqNumber_of to (session w) + 1)
                (packetIndex_of to (session w) + 1)
                (seqNumber_of to (session w) + 1 + Z.of_nat (length rest))
                (packetIndex_of to (session w) + 1 + Z.of_nat (length rest)))
      as [_ ->].
    f_equal; [|f_equal]; cbn [length]; lia.
  - rewrite <- app_assoc. f_equal. rewrite (imap_cons _ p). cbn [concat].
      rewrite !Z.add_0_r. cbn [app]. do 3 f_equal.
      apply imap_ext. intros k x _. cbn.
      replace (packetIndex_of to (session w) + 1 + Z.of_nat k)
        with (packetIndex_of to (session w) + Z.of_nat (S k)) by lia.
      replace (seqNumber_of to (session w) + 1 + Z.of_nat k)
        with (seqNumber_of to (session w) + Z.of_nat (S k)) by lia.
      reflexivity.
Qed.
End Through.

(** X15: online, with subscribers that change nothing, a datagram whose
    packets are unreliable, unsplit, no batch and short of [mtuSize - 60]
    is acknowledged toward its origin, and each of its packets goes toward
    the opposite side in a datagram of its own, with its payload,
    reliability, sequence and order as they came and the proxy's own packet
    index and sequence number; only these two counters change. *)
Theorem handle_relays_datagram `{Collaborators}
    (data : bytes) (from : Origin) (w : World) (datagram : Datagram) :
  (forall event data o, emit event data o = replaced (Some data) (Some o)) ->
  _state (session w) <> Offline ->
  datagramOf data = Some (IsDatagram datagram) ->
  60 < _mtuSize (session w) ->
  Forall (passes_through (_mtuSize (session w))) (packets datagram) ->
  let to := opposite from in
  let ack := ACK_export [seqNumber datagram] in
  let n := Z.of_nat (length (packets datagram)) in
  handle data from w
  = (Done tt,
     mkWorld
       (set_seqNumber to (seqNumber_of to (session w) + n)
          (set_packetIndex to (packetIndex_of to (session w) + n) (session w)))
       (trace w
        ++ [Emit data_in data from; Emit data_out ack from; ListenerSend ack from]
        ++ concat (imap (fun k p =>
                           let out :=
                             Datagram_export
                               (relayed p (packetIndex_of to (session w) + Z.of_nat k)
                                  (seqNumber_of to (session w) + Z.of_nat k)) in
                           [Emit data_out out to; ListenerSend out to])
                     (packets datagram)))
       (draws w)).
Proof.
  intros Hquiet Hstate Hparse Hmtu Hall. cbv zeta.
  unfold handle, mbind, M_bind, perform, get. cbn -[handleOnline handleOffline].
  rewrite Hquiet. cbn -[handleOnline handleOffline].
  rewrite decide_False by exact Hstate.
  unfold handleOnline, foreign. rewrite Hparse.
  unfold mbind at 1. unfold M_bind at 1. cbn [mret M_ret].
  unfold handleDatagram, sendAck. cbv zeta.
  unfold mbind at 1. unfold M_bind at 1.
  unfold send, mbind, M_bind, perform. cbn -[forM_]. rewrite Hquiet. cbn -[forM_].
  rewrite (forM_passes_through (packets datagram) from (fun d o => Hquiet data_out d o));
    cbn [session trace draws]; [|exact Hmtu|exact Hall].
  rewrite <- !app_assoc. reflexivity.
Qed.

Lemma handle_relays_datagram_witness :
  handle (H := plain) [x80; x09; x2a] client (mkWorld (set_state Online new_session) [] 0)
  = (Done tt,
     mkWorld (set_seqNumber server 1 (set_packetIndex server 1 (set_state Online new_session)))
       [Emit data_in [x80; x09; x2a] client;
        Emit data_out [xc0; x00] client; ListenerSend [xc0; x00] client;
        Emit data_out [x80; x00; x09; x2a] server;
        ListenerSend [x80; x00; x09; x2a] server] 0).
Proof.
  apply (handle_relays_datagram (H := plain) [x80; x09; x2a] client
           (mkWorld (set_state Online new_session) [] 0)
           (mkDatagram 128 0 [mkPacket 0 [x09; x2a] None None None None])).
  - intros [] data o; reflexivity.
  - discriminate.
  - reflexivity.
  - reflexivity.
  - repeat constructor. exists 9. split; [reflexivity | discriminate].
Defined.

(** ** Reading back what [Datagram.to] wrote *)

Lemma value_of_byte_of (n : Z) : value_of (byte_of n) = n mod 256.
Proof.
  unfold byte_of, value_of. pose proof (Z.mod_pos_bound n 256 ltac:(lia)) as Hm.
  destruct (Byte.of_N (Z.to_N (n mod 256))) as [b|] eqn:Hb.
  - apply Byte.to_of_N in Hb. rewrite Hb. lia.
  - apply Byte.of_N_None_iff in Hb. lia.
Qed.

Lemma readByte_at (before after : bytes) (b : byte) :
  readByte (mkBuffer (before ++ b :: after) (length before))
  = Some (value_of b, mkBuffer (before ++ b :: after) (S (length before))).
Proof.
  unfold readByte. cbn [array offset].
  rewrite lookup_app_r by lia. now rewrite Nat.sub_diag.
Qed.

Lemma readLTriad_writeLTriad (n : Z) (after : bytes) (before : bytes) :
  readLTriad (mkBuffer (before ++ writeLTriad n ++ after) (length before))
  = Some (n mod 16777216,
          mkBuffer (before ++ writeLTriad n ++ after) (length before + 3)).
Proof.
  unfold readLTriad, writeLTriad. cbn [app].
  rewrite readByte_at.
  replace (before ++ byte_of n :: byte_of (n ≫ 8) :: byte_of (n ≫ 16) :: after)
    with ((before ++ [byte_of n]) ++ byte_of (n ≫ 8) :: byte_of (n ≫ 16) :: after)
    by now rewrite <- app_assoc.
  replace (S (length before)) with (length (before ++ [byte_of n]))
    by (rewrite length_app; cbn; lia).
  rewrite readByte_at.
  replace ((before ++ [byte_of n]) ++ byte_of (n ≫ 8) :: byte_of (n ≫ 16) :: after)
    with (((before ++ [byte_of n]) ++ [byte_of (n ≫ 8)]) ++ byte_of (n ≫ 16) :: after)
    by now rewrite <- (app_assoc _ [_]).
  replace (S (length (before ++ [byte_of n])))
    with (length ((before ++ [byte_of n]) ++ [byte_of (n ≫ 8)]))
    by (rewrite !length_app; cbn; lia).
  rewrite readByte_at. f_equal. f_equal.
  - rewrite !value_of_byte_of, !Z.shiftr_div_pow2 by lia.
    change (2 ^ 8) with 256. change (2 ^ 16) with 65536.
    pose proof (Z.rem_mul_r n 256 65536 ltac:(lia) ltac:(lia)) as H1.
    pose proof (Z.rem_mul_r (n / 256) 256 256 ltac:(lia) ltac:(lia)) as H2.
    rewrite Z.div_div in H2 by lia.
    change (256 * 65536) with 16777216 in H1. change (256 * 256) with 65536 in H2.
    lia.
  - f_equal. rewrite !length_app. cbn. lia.
Qed.

Section ReadBack.
Variable EncapsulatedPacket_from : Buffer -> option (EncapsulatedPacket * Buffer).
Variable EncapsulatedPacket_to : EncapsulatedPacket -> bytes.

Lemma read_packets_written (rest : list EncapsulatedPacket) :
  forall (fuel : nat) (before : bytes) (read : list EncapsulatedPacket),
    Forall (reads_back EncapsulatedPacket_from EncapsulatedPacket_to) rest ->
    (length (concat (map EncapsulatedPacket_to rest)) <= fuel)%nat ->
    read_packets EncapsulatedPacket_from fuel
      (mkBuffer (before ++ concat (map EncapsulatedPacket_to rest)) (length before)) read
    = Done (read ++ rest).
Proof.
  induction rest as [|p rest IH]; intros fuel before read Hback Hfuel.
  - cbn [map concat]. rewrite app_nil_r.
    assert (Hrem : remaining (mkBuffer before (length before)) = 0%nat)
      by (unfold remaining; cbn; lia).
    rewrite (app_nil_r read).
    destruct fuel; cbn [read_packets]; rewrite decide_True by exact Hrem; reflexivity.
  - cbn [map concat] in *. apply Forall_cons in Hback as [Hp Hback].
    destruct (Hp before (concat (map EncapsulatedPacket_to rest))) as [Hne Hfrom].
    assert (Hlen : (0 < length (EncapsulatedPacket_to p))%nat)
      by (destruct (EncapsulatedPacket_to p); [contradiction | cbn; lia]).
    rewrite length_app in Hfuel.
    destruct fuel as [|fuel]; [lia|]. cbn [read_packets].
    rewrite decide_False
      by (unfold remaining; cbn [array offset]; rewrite !length_app; lia).
    rewrite Hfrom.
    rewrite app_assoc, <- length_app.
    rewrite IH by (assumption || lia). now rewrite <- app_assoc.
Qed.
End ReadBack.

(** X16: what [Datagram.to] writes, [Datagram.from] reads back: the header
    flags with the valid flag set, the sequence number modulo 2^24 and the
    same packets, given a codec of encapsulated packets that reads back what
    it writes for each of them.  The first byte written always has the valid
    flag. *)
Theorem Datagram_read_back
    (EncapsulatedPacket_from : Buffer -> option (EncapsulatedPacket * Buffer))
    (EncapsulatedPacket_to : EncapsulatedPacket -> bytes)
    (datagram : Datagram) :
  Forall (reads_back EncapsulatedPacket_from EncapsulatedPacket_to) (packets datagram) ->
  Datagram_from EncapsulatedPacket_from
    (mkBuffer (Datagram_to EncapsulatedPacket_to datagram) 0)
  = Done (mkDatagram (Z.lor flag_valid (headerFlags datagram) mod 256)
            (seqNumber datagram mod 16777216) (packets datagram)) /\
  Z.testbit (Z.lor flag_valid (headerFlags datagram) mod 256) 7 = true /\
  (0 <= headerFlags datagram < 256 ->
   Z.lor flag_valid (headerFlags datagram) mod 256 = Z.lor flag_valid (headerFlags datagram)).
Proof.
  intros Hback. split; [|split].
  - unfold Datagram_from, Datagram_to, writeByte.
    change (mkBuffer ([byte_of (Z.lor flag_valid (headerFlags datagram))] ++ ?rest) 0)
      with (mkBuffer ([] ++ byte_of (Z.lor flag_valid (headerFlags datagram)) :: rest)
              (length (@nil byte))).
    rewrite readByte_at, value_of_byte_of.
    change ([] ++ byte_of (Z.lor flag_valid (headerFlags datagram)) :: ?rest)
      with ([byte_of (Z.lor flag_valid (headerFlags datagram))] ++ rest).
    change (S (length (@nil byte)))
      with (length [byte_of (Z.lor flag_valid (headerFlags datagram))]).
    rewrite readLTriad_writeLTriad.
    set (head := [byte_of (Z.lor flag_valid (headerFlags datagram))]
                 ++ writeLTriad (seqNumber datagram)).
    replace ([byte_of (Z.lor flag_valid (headerFlags datagram))]
             ++ writeLTriad (seqNumber datagram)
             ++ concat (map EncapsulatedPacket_to (packets datagram)))
      with (head ++ concat (map EncapsulatedPacket_to (packets datagram)))
      by (unfold head; now rewrite <- app_assoc).
    replace (length [byte_of (Z.lor flag_valid (headerFlags datagram))] + 3)%nat
      with (length head) by reflexivity.
    rewrite (read_packets_written EncapsulatedPacket_from EncapsulatedPacket_to).
    + reflexivity.
    + exact Hback.
    + unfold remaining. cbn [array offset]. rewrite length_app. lia.
  - rewrite Z.mod_pow2_bits_low with (n := 8) by lia.
    rewrite Z.lor_spec. reflexivity.
  - intros Hflags. apply Z.mod_small. split.
    + apply Z.lor_nonneg. unfold flag_valid. lia.
    + change 256 with (2 ^ 8). apply Z.log2_lt_pow2.
      * assert (0 <= Z.lor flag_valid (headerFlags datagram))
          by (apply Z.lor_nonneg; unfold flag_valid; lia).
        assert (Z.lor flag_valid (headerFlags datagram) <> 0)
          by (intros H0; apply Z.lor_eq_0_iff in H0 as [H0 _]; discriminate H0).
        lia.
      * rewrite Z.log2_lor by (unfold flag_valid; lia).
        apply Z.max_lub_lt; [reflexivity|].
        destruct (Z.eq_dec (headerFlags datagram) 0) as [->|Hnz]; [reflexivity|].
        apply Z.log2_lt_pow2; lia.
Qed.

Lemma Datagram_read_back_witness :
  Datagram_from one_byte_from
    (mkBuffer (Datagram_to one_byte_to
                 (mkDatagram 0x04 0x1030201
                    [mkPacket 0 [xaa] None None None None;
                     mkPacket 0 [xbb] None None None None])) 0)
  = Done (mkDatagram 0x84 0x030201
            [mkPacket 0 [xaa] None None None None; mkPacket 0 [xbb] None None None None]).
Proof.
  apply (Datagram_read_back one_byte_from one_byte_to
           (mkDatagram 0x04 0x1030201
              [mkPacket 0 [xaa] None None None None;
               mkPacket 0 [xbb] None None None None])).
  repeat constructor; try discriminate;
    unfold one_byte_from, one_byte_to; cbn [array offset sub];
    rewrite lookup_app_r by lia; rewrite Nat.sub_diag; cbn;
    repeat f_equal; lia.
Defined.

(** ** The inbound decryption helper *)

(** The mode against the vector of SP 800-38A (F.3.12, CFB8-AES256.Decrypt). *)
Example decrypt_cfb8_aes256 :
 Cfb8.decrypt (Gcm.KeyExpansion [0x60;0x3d;0xeb;0x10;0x15;0xca;0x71;0xbe;0x2b;0x73;0xae;0xf0;0x85;0x7d;0x77;0x81;
   0x1f;0x35;0x2c;0x07;0x3b;0x61;0x08;0xd7;0x2d;0x98;0x10;0xa3;0x09;0x14;0xdf;0xf4])
   (map Z.of_nat (seq 0 16))
   [0xdc;0x1f;0x1a;0x85;0x20;0xa6;0x4d;0xb5;0x5f;0xcc;0x8a;0xc5;0x54;0x84;0x4e;0x88;0x97;0x00]
 = [0x6b;0xc1;0xbe;0xe2;0x2e;0x40;0x9f;0x96;0xe9;0x3d;0x7e;0x11;0x73;0x93;0x17;0x2a;0xae;0x2d].
Proof. vm_compute. reflexivity. Qed.

Lemma byte_of_mod (n : Z) : byte_of (n mod 256) = byte_of n.
Proof. unfold byte_of. now rewrite Z.mod_mod by lia. Qed.

(** A mask applied to a byte stored modulo 256 is the mask applied to what
    was stored. *)
Lemma byte_of_lxor_mod (n k : Z) : byte_of (Z.lxor (n mod 256) k) = byte_of (Z.lxor n k).
Proof.
  rewrite <- (byte_of_mod (Z.lxor (n mod 256) k)), <- (byte_of_mod (Z.lxor n k)).
  f_equal. change 256 with (2 ^ 8). rewrite <- !Z.land_ones by lia.
  apply Z.bits_inj'. intros i _. rewrite !Z.land_spec, !Z.lxor_spec, Z.land_spec.
  now destruct (Z.testbit n i), (Z.testbit k i), (Z.testbit (Z.ones 8) i).
Qed.

Lemma byte_of_lxor_twice (n k : Z) : byte_of (Z.lxor (Z.lxor n k) k) = byte_of n.
Proof. now rewrite Z.lxor_assoc, Z.lxor_nilpotent, Z.lxor_0_r. Qed.

Lemma length_cfb8_decrypt (w : list (list Z)) (ciphertext register : list Z) :
  length (Cfb8.decrypt w register ciphertext) = length ciphertext.
Proof.
  revert register. induction ciphertext as [|c rest IH]; intros register; cbn;
    [reflexivity | now rewrite IH].
Qed.

Lemma cfb8_decrypt_encrypt (w : list (list Z)) (plaintext register : list Z) :
  map byte_of
    (Cfb8.decrypt w register
       (map value_of (map byte_of (Cfb8.encrypt w register plaintext))))
  = map byte_of plaintext.
Proof.
  revert register. induction plaintext as [|p rest IH]; intros register; [reflexivity|].
  cbn [Cfb8.encrypt Cfb8.decrypt map]. rewrite value_of_byte_of, Z.mod_mod by lia.
  rewrite IH. f_equal. rewrite byte_of_lxor_mod. apply byte_of_lxor_twice.
Qed.

(** X17: with a secret of 32 bytes, the decryption helper undoes AES-256 in
    CFB8 mode under the secret as key and its first 16 bytes as IV: given
    the ciphertext of a payload it prints the payload; and whatever it is
    given, it prints as many bytes as it was given ([update] alone, without
    [final], leaves nothing out). *)
Theorem decrypt_on_line_inverts_cfb8 (secret plaintext : bytes) :
  length secret = 32%nat ->
  let w := Gcm.KeyExpansion (map value_of secret) in
  let iv := map value_of (take 16 secret) in
  Decrypt.on_line (mkRequest (Cfb8.encrypt w iv (map value_of plaintext)) secret)
  = Done plaintext /\
  (forall data, exists result,
     Decrypt.on_line (mkRequest data secret) = Done result /\
     length result = length data).
Proof.
  intros Hkey. cbv zeta.
  assert (Hcreate : Decrypt.createDecipheriv "aes-256-cfb8" secret (take 16 secret)
                    = Some (Decrypt.mkDecipheriv secret (take 16 secret))).
  { unfold Decrypt.createDecipheriv. rewrite length_take, Hkey. reflexivity. }
  split.
  - unfold Decrypt.on_line. cbn [request_data request_secret]. rewrite Hcreate.
    unfold Decrypt.update, Buffer_from. cbn [Decrypt.decipher_key Decrypt.decipher_iv].
    rewrite cfb8_decrypt_encrypt. f_equal.
    rewrite map_map. rewrite <- (map_id plaintext) at 2.
    apply map_ext. intros b. apply byte_of_value_of.
  - intros data. eexists. unfold Decrypt.on_line. cbn [request_data request_secret].
    rewrite Hcreate. split; [reflexivity|].
    unfold Decrypt.update, Buffer_from.
    now rewrite length_map, length_cfb8_decrypt, !length_map.
Qed.


Lemma decrypt_on_line_inverts_cfb8_witness :
  Decrypt.on_line (mkRequest [0xdd; 0x7a; 0x96; 0x5f; 0x79] (replicate 32 x00))
  = Done [x01; x02; x03; x04; x05].
Proof.
  destruct (decrypt_on_line_inverts_cfb8 (replicate 32 x00) [x01; x02; x03; x04; x05] eq_refl)
    as [Hback _].
  vm_compute in Hback. vm_compute. exact Hback.
Defined.

(** ** One mask for every payload *)

Lemma map_combine_seq {A B} (g : nat * A -> B) (l : list A) (s : nat) :
  map g (combine (seq s (length l)) l) = imap (fun i x => g ((s + i)%nat, x)) l.
Proof.
  revert s g. induction l as [|x l IH]; intros s g; [reflexivity|].
  cbn [length seq combine map]. rewrite imap_cons, Nat.add_0_r. f_equal.
  rewrite IH. apply imap_ext. intros i y _. cbn. do 2 f_equal. lia.
Qed.

(** The mask of byte [i] under a cipher: byte [i mod 16] of the cipher of
    counter block [i / 16], counted from the block after the pre-counter
    block. *)
Lemma update_masks (cipher : Cipheriv) (data : bytes) :
  let key := map value_of (cipher_key cipher) in
  let iv := map value_of (cipher_iv cipher) in
  let w := Gcm.KeyExpansion key in
  let h := Gcm.block_value (Gcm.Cipher w (repeat 0 16)) in
  let icb := Gcm.inc32 (Gcm.J0 h iv) 1 in
  update cipher data
  = imap (fun i b =>
            byte_of (Z.lxor (value_of b)
                       (Gcm.at_ (Gcm.Cipher w (Gcm.block_bytes
                                                 (Gcm.inc32 icb (Z.of_nat (i / 16)))))
                          (i mod 16)))) data.
Proof.
  cbv zeta. unfold update, gcm_of, Gcm.encrypt. cbn [fst]. unfold Gcm.GCTR.
  rewrite map_map, length_map.
  rewrite <- (length_map value_of data) at 1. rewrite map_combine_seq.
  change (@map) with (@fmap list _). rewrite imap_fmap. apply imap_ext.
  intros i b _. reflexivity.
Qed.

Lemma imap_same {A} (f : nat -> A -> A) (l : list A) :
  (forall i x, f i x = x) -> imap f l = l.
Proof.
  revert f. induction l as [|x l IH]; intros f Hf; [reflexivity|].
  rewrite imap_cons, Hf. f_equal. apply IH. intros i y. apply Hf.
Qed.

(** X18: with a secret of 32 bytes, the encryption helper masks byte [i] of
    any payload with a value that depends on the secret and on [i] only (the
    IV is taken from the secret): every payload encrypted under one secret
    meets the same key stream, and the helper applied to its own output
    gives the payload back. *)
Theorem on_line_one_mask (secret : bytes) :
  length secret = 32%nat ->
  exists mask : nat -> Z,
    forall data : bytes,
      on_line (mkRequest (map value_of data) secret)
      = Done (imap (fun i b => byte_of (Z.lxor (value_of b) (mask i))) data) /\
      on_line (mkRequest
                 (map value_of
                    (imap (fun i b => byte_of (Z.lxor (value_of b) (mask i))) data))
                 secret)
      = Done data.
Proof.
  intros Hkey.
  assert (Hcreate : createCipheriv "aes-256-gcm" secret (take 16 secret)
                    = Some (mkCipheriv secret (take 16 secret))).
  { unfold createCipheriv. rewrite length_take, Hkey. reflexivity. }
  assert (Hstored : forall data : bytes, Buffer_from (map value_of data) = data).
  { intros data. unfold Buffer_from. rewrite map_map. rewrite <- (map_id data) at 2.
    apply map_ext. intros b. apply byte_of_value_of. }
  assert (Hrun : forall data : bytes,
            on_line (mkRequest (map value_of data) secret)
            = Done (update (mkCipheriv secret (take 16 secret)) data)).
  { intros data. unfold on_line. cbn [request_data request_secret].
    rewrite Hcreate, Hstored. unfold final. now rewrite app_nil_r. }
  pose proof (update_masks (mkCipheriv secret (take 16 secret))) as Hmasks.
  cbv zeta in Hmasks. cbn [cipher_key cipher_iv] in Hmasks.
  set (w := Gcm.KeyExpansion (map value_of secret)) in Hmasks.
  set (icb := Gcm.inc32 _ 1) in Hmasks.
  set (mask := fun i : nat =>
                 Gcm.at_ (Gcm.Cipher w (Gcm.block_bytes
                                          (Gcm.inc32 icb (Z.of_nat (i / 16)))))
                   (i mod 16)).
  assert (Hmask : forall data : bytes,
            update (mkCipheriv secret (take 16 secret)) data
            = imap (fun i b => byte_of (Z.lxor (value_of b) (mask i))) data)
    by exact Hmasks.
  clearbody mask. clear Hmasks w icb. rename Hmask into Hmasks.
  exists mask. intros data. rewrite !Hrun, !Hmasks.
  split; [reflexivity|].
  f_equal. rewrite imap_imap. apply imap_same. intros i b.
  rewrite value_of_byte_of, byte_of_lxor_mod, byte_of_lxor_twice.
  apply byte_of_value_of.
Qed.

Lemma on_line_one_mask_witness :
  on_line (mkRequest [0xde; 0x51; 0xc3; 0x09; 0x35] (replicate 32 x00))
  = Done [x01; x02; x03; x04; x05].
Proof.
  destruct (on_line_one_mask (replicate 32 x00) eq_refl) as [mask Hmask].
  destruct (Hmask [x01; x02; x03; x04; x05]) as [Hout Hback].
  assert (Hrun : on_line (mkRequest (map value_of [x01; x02; x03; x04; x05])
                            (replicate 32 x00))
                 = Done [xde; x51; xc3; x09; x35])
    by (vm_compute; reflexivity).
  rewrite Hrun in Hout.
  assert (Heq : [xde; x51; xc3; x09; x35]
                = imap (fun i b => byte_of (Z.lxor (value_of b) (mask i)))
                    [x01; x02; x03; x04; x05]) by congruence.
  rewrite <- Heq in Hback. exact Hback.
Defined.

(** ** What is absorbed, and what fails half way *)

(** X19: [handle] does no more than emit the data-in event, and leaves the
    session as it is, when a subscriber cancels the event, and when the
    session is not offline and the payload is an ACK, a NACK or nothing
    [datagramOf] knows: acknowledgements are not relayed and answered by
    nothing. *)
Theorem handle_absorbs `{Collaborators} (data : bytes) (from : Origin) (w : World) :
  emit data_in data from = cancelled \/
  (exists data' from' packet,
     emit data_in data from = replaced (Some data') (Some from') /\
     _state (session w) <> Offline /\
     datagramOf data' = Some packet /\
     forall datagram, packet <> IsDatagram datagram) ->
  handle data from w
  = (Done tt, mkWorld (session w) (trace w ++ [Emit data_in data from]) (draws w)).
Proof.
  intros [Hcancel|(data' & from' & packet & Htuple & Hstate & Hparse & Hack)];
    unfold handle, mbind, M_bind, perform, get; cbn -[handleOnline handleOffline].
  - now rewrite Hcancel.
  - rewrite Htuple. cbn -[handleOnline handleOffline].
    rewrite decide_False by exact Hstate.
    unfold handleOnline, foreign, mbind, M_bind. rewrite Hparse. cbn.
    destruct packet as [datagram| | |]; try reflexivity.
    now destruct (Hack datagram).
Qed.

Lemma handle_absorbs_witness :
  handle (H := plain) [x40; x01] client (mkWorld (set_state Online new_session) [] 0)
  = (Done tt, mkWorld (set_state Online new_session) [Emit data_in [x40; x01] client] 0).
Proof.
  apply (handle_absorbs (H := plain)). right.
  exists [x40; x01], client, IsNeither. repeat split; discriminate.
Defined.

(** X20: a LoginPacket from the client that parses but has no token, or whose
    key agreement fails, makes [handleBedrock] throw after the session has
    taken the fresh key pair and the fresh salt: these two are replaced,
    [_clientBatch] and everything else are as before. *)
Theorem login_without_key_agreement `{Collaborators}
    (data : bytes) (w : World) (login : LoginPacket) :
  BedrockPacket_header data = Some LoginPacket_id ->
  LoginPacket_id <> ResourcePackResponse_id ->
  LoginPacket_from data = Some login ->
  match last (tokens login) with
  | None => True
  | Some final =>
      diffieHellman (privateKey (genKeyPair (draws w))) (identityPublicKey final)
        (toB64 (getRandomValues (S (draws w)))) = None
  end ->
  exists e,
    handleBedrock data client w
    = (Throw e,
       mkWorld
         (set_salt (toB64 (getRandomValues (S (draws w))))
            (set_keyPair (Some (genKeyPair (draws w))) (session w)))
         (trace w) (S (S (draws w)))) /\
    e = match last (tokens login) with
        | None => TypeError "last is undefined"
        | Some _ => Foreign "diffieHellman"
        end.
Proof.
  intros Hheader Hids Hparse Hfails.
  rewrite handleBedrock_login by assumption.
  unfold handleLoginPacket, mbind, M_bind, foreign, draw, modify.
  rewrite Hparse. cbn.
  destruct (last (tokens login)) as [final|]; cbn.
  - rewrite Hfails. cbn. eauto.
  - eauto.
Qed.

Lemma login_without_key_agreement_witness :
  handleBedrock (H := plain_login (fun _ => Some (mkLogin [] plain_token))
                       (fun _ _ _ => None))
    [x01] client (mkWorld encrypted_session [] 0)
  = (Throw (TypeError "last is undefined"),
     mkWorld (set_salt "AAAAAAAAAAAAAAAA" encrypted_session) [] 2).
Proof.
  destruct (login_without_key_agreement
              (H := plain_login (fun _ => Some (mkLogin [] plain_token))
                      (fun _ _ _ => None))
              [x01] (mkWorld encrypted_session [] 0) (mkLogin [] plain_token)
              eq_refl ltac:(discriminate) eq_refl I) as (e & Hrun & ->).
  exact Hrun.
Defined.

(** X21: a ServerHandshakePacket from the server while the session has no
    key pair (no login went through) makes [handleBedrock] throw and leaves
    the session, and its state, as they are. *)
Theorem handshake_without_key_pair `{Collaborators} (data : bytes) (w : World) :
  BedrockPacket_header data = Some ServerHandshakePacket_id ->
  _keyPair (session w) = None ->
  exists e,
    handleBedrock data server w = (Throw e, w) /\
    e = match ServerHandshakePacket_from data with
        | Some _ => TypeError "keyPair is undefined"
        | None => Foreign "ServerHandshakePacket.from"
        end.
Proof.
  intros Hheader Hkeys. rewrite handleBedrock_handshake by assumption.
  unfold handleHandshakePacket, mbind, M_bind, foreign, get.
  destruct (ServerHandshakePacket_from data); cbn; [rewrite Hkeys|]; eauto.
Qed.

Lemma handshake_without_key_pair_witness :
  handleBedrock (H := plain) [x03] server (mkWorld (set_state Online new_session) [] 0)
  = (Throw (TypeError "keyPair is undefined"), mkWorld (set_state Online new_session) [] 0).
Proof.
  destruct (handshake_without_key_pair (H := plain) [x03]
              (mkWorld (set_state Online new_session) [] 0) eq_refl eq_refl)
    as (e & Hrun & ->).
  exact Hrun.
Defined.

(** X22: a fragment whose split index is one the memory of its split set
    already holds a fragment at is dropped: the tables are as before, and
    unless the packet is reliable [handlePacket] does nothing at all. *)
Theorem reassemble_drops_what_it_holds `{Collaborators}
    (packet : EncapsulatedPacket) (from : Origin) (w : World)
    (sp : Split) (slot : nat) (memory : SplitMemory) (splits : Splits)
    (held : EncapsulatedPacket) :
  split packet = Some sp ->
  memoryOf (splits_of from (session w)) (split_id sp) = Done (slot, memory, splits) ->
  js_nth (memory_packets memory) (split_index sp) = Some held ->
  reassemble packet from w = (Done None, w) /\
  (isReliable (reliability packet) = false ->
   handlePacket packet from w = (Done tt, w)).
Proof.
  intros Hsplit Hmemory Hheld.
  assert (Hsame : splits = splits_of from (session w)).
  { destruct (memoryOf_Done _ _ _ _ _ Hmemory) as (_ & _ & _ & [Heq|(_ & -> & _)]);
      [exact Heq|]. unfold js_nth in Hheld. cbn in Hheld.
    destruct (split_index sp <? 0); [discriminate|].
    now rewrite lookup_nil in Hheld. }
  assert (Hdrop : reassemble packet from w = (Done None, w)).
  { unfold reassemble, mbind, M_bind, get, modify. rewrite Hsplit. cbn.
    rewrite Hmemory. cbn. rewrite Hheld. cbn. rewrite Hsame, set_splits_same.
    now destruct w. }
  split; [exact Hdrop|]. intros Hrel.
  unfold handlePacket, admit_reliable. rewrite Hrel.
  unfold mbind at 1. unfold M_bind at 1. cbn [mret M_ret].
  unfold mbind at 1. unfold M_bind at 1. now rewrite Hdrop.
Qed.

Lemma reassemble_drops_what_it_holds_witness :
  reassemble first_fragment client
    (holding client (mkWorld new_session [] 0) 0 7 [first_fragment])
  = (Done None, holding client (mkWorld new_session [] 0) 0 7 [first_fragment]).
Proof.
  apply (reassemble_drops_what_it_holds (H := plain) first_fragment client
           (holding client (mkWorld new_session [] 0) 0 7 [first_fragment])
           (mkSplit 7 0 2) 0%nat (mkMemory 7 [first_fragment])
           (<[0%nat := Some (mkMemory 7 [first_fragment])]> empty_splits)
           first_fragment); reflexivity.
Defined.

(** ** A batch on its way through [handlePacket] *)

(** X23: an unreliable, unsplit packet whose payload is a batch of ordinary
    packets goes through [handlePacket] as [sendPacket], toward the opposite
    side, of the same packet with the batch encoded again (with the codec of
    the opposite side when the state is [Encrypted]) as its payload. *)
Theorem handlePacket_relays_batch `{Collaborators}
    (packet : EncapsulatedPacket) (from : Origin) (w : World)
    (batch : list bytes) (data : bytes) :
  isReliable (reliability packet) = false ->
  split packet = None ->
  ProtocolPacket_header (sub packet) = Some BatchPacket_id ->
  forallb (ordinary from) batch = true ->
  (if decide (_state (session w) = Encrypted)
   then exists receive send_,
          batch_of from (session w) = Some receive /\
          batch_of (opposite from) (session w) = Some send_ /\
          EncryptedBatchPacket_from receive (sub packet) = Some batch /\
          EncryptedBatchPacket_export send_ batch = Some data
   else BatchPacket_from (sub packet) = Some batch /\
        BatchPacket_export batch = Some data) ->
  handlePacket packet from w = sendPacket (with_sub data packet) (opposite from) w.
Proof.
  intros Hrel Hsplit Hheader Hall Hcodec.
  assert (Hbatch : handleBatch (sub packet) from w = (Done data, w)).
  { unfold handleBatch, mbind, M_bind, get. cbn.
    destruct (decide (_state (session w) = Encrypted)).
    - destruct Hcodec as (receive & send_ & Hreceive & Hsend & Hparse & Hexport).
      unfold handleEncryptedBatch, mbind, M_bind, get. cbn.
      rewrite Hreceive, Hparse. cbn.
      rewrite (mapM_handleBedrock_ordinary _ _ _ Hall), Hsend, Hexport. reflexivity.
    - destruct Hcodec as [Hparse Hexport].
      unfold handleUnencryptedBatch, mbind, M_bind. rewrite Hparse. cbn.
      rewrite (mapM_handleBedrock_ordinary _ _ _ Hall), Hexport. reflexivity. }
  unfold handlePacket, admit_reliable. rewrite Hrel.
  unfold mbind at 1. unfold M_bind at 1. cbn [mret M_ret].
  unfold reassemble. rewrite Hsplit.
  unfold mbind at 1. unfold M_bind at 1. cbn [mret M_ret].
  unfold forward, foreign. rewrite Hheader.
  unfold mbind at 1. unfold M_bind at 1. cbn [mret M_ret]. rewrite Z.eqb_refl.
  unfold mbind at 1. unfold M_bind at 1.
  unfold mbind at 1. unfold M_bind at 1. rewrite Hbatch. reflexivity.
Qed.

Lemma handlePacket_relays_batch_witness :
  handlePacket (H := plain) (mkPacket 0 [xfe; x09; x2a] None None None None) client
    (mkWorld encrypted_session [] 0)
  = sendPacket (H := plain) (mkPacket 0 [xfe; x09; x2a] None None None None) server
      (mkWorld encrypted_session [] 0).
Proof.
  apply (handlePacket_relays_batch (H := plain)
           (mkPacket 0 [xfe; x09; x2a] None None None None) client
           (mkWorld encrypted_session [] 0) [[x09; x2a]] [xfe; x09; x2a]);
    try reflexivity.
  cbn. eexists _, _. repeat split; reflexivity.
Defined.

(** ** [sendPacket] with an MTU of 60 or less *)

Lemma read_buffers_no_turn (fuel : nat) (quotient remainder maxSize : Z)
    (buffer : Buffer) :
  quotient < 0 -> read_buffers fuel 0 quotient remainder maxSize buffer [] = Done [].
Proof.
  intros Hneg. destruct fuel; cbn [read_buffers];
    destruct (Z.leb_spec 0 quotient); try lia; reflexivity.
Qed.

(** X24: with [mtuSize] below 60 [sendPacket] returns without having sent
    anything of a packet that has a payload, and without touching a counter:
    the quotient is negative and the loop of lines 299-302 has no turn; with
    [mtuSize] 60 the call does not come back. *)
Theorem sendPacket_drops_below_60 `{Collaborators}
    (packet : EncapsulatedPacket) (to : Origin) (w : World) :
  _mtuSize (session w) <= 60 ->
  sub packet <> [] ->
  sendPacket packet to w
  = (if _mtuSize (session w) =? 60 then (Hang, w) else (Done tt, w)).
Proof.
  intros Hmtu Hsub.
  assert (Hlen : 0 < Z.of_nat (length (sub packet)))
    by (destruct (sub packet); [contradiction | cbn; lia]).
  unfold sendPacket, mbind, M_bind, get. cbn -[split_buffers send_buffers].
  unfold split_buffers.
  destruct (Z.eqb_spec (_mtuSize (session w)) 60) as [->|Hbelow].
  - cbn -[Z.of_nat]. destruct (Z.eqb_spec (Z.of_nat (length (sub packet))) 0); [lia|].
    reflexivity.
  - destruct (Z.eqb_spec (_mtuSize (session w) - 60) 0); [lia|].
    rewrite read_buffers_no_turn; [reflexivity|].
    assert (Hq : Z.of_nat (length (sub packet)) / (_mtuSize (session w) - 60) < 0).
    { pose proof (Z.mod_neg_bound (Z.of_nat (length (sub packet)))
                    (_mtuSize (session w) - 60) ltac:(lia)) as Hr.
      pose proof (Z.div_mod (Z.of_nat (length (sub packet)))
                    (_mtuSize (session w) - 60) ltac:(lia)) as Hd.
      nia. }
    exact Hq.
Qed.

Lemma sendPacket_drops_below_60_witness :
  sendPacket (H := plain) packet_5 server (mkWorld (set_mtuSize 50 new_session) [] 0)
  = (Done tt, mkWorld (set_mtuSize 50 new_session) [] 0).
Proof.
  apply (sendPacket_drops_below_60 (H := plain) packet_5 server
           (mkWorld (set_mtuSize 50 new_session) [] 0)).
  - cbn. lia.
  - discriminate.
Defined.

(** ** The login and the handshake, one after the other *)

(** X25: a login from the client and then a handshake from the server, both
    intercepted: the handshake goes out with the salt drawn at the login and
    signed with the key pair generated there, [_clientBatch] and
    [_serverBatch] are the codecs of the secrets agreed from that key pair's
    private key with the client's key and the proxy's salt and with the
    server's key and the server's salt, and the state is [Encrypted]. *)
Theorem login_then_handshake `{Collaborators}
    (login_data shake_data : bytes) (w : World)
    (login : LoginPacket) (final token : JWT) (client_secret server_secret : bytes) :
  let keyPair := genKeyPair (draws w) in
  let salt_ := toB64 (getRandomValues (S (draws w))) in
  BedrockPacket_header login_data = Some LoginPacket_id ->
  LoginPacket_id <> ResourcePackResponse_id ->
  LoginPacket_from login_data = Some login ->
  last (tokens login) = Some final ->
  diffieHellman (privateKey keyPair) (identityPublicKey final) salt_ = Some client_secret ->
  BedrockPacket_header shake_data = Some ServerHandshakePacket_id ->
  ServerHandshakePacket_from shake_data = Some token ->
  diffieHellman (privateKey keyPair) (x5u token) (salt token) = Some server_secret ->
  exists (out : bytes) (w' : World),
    (handleBedrock login_data client ≫= fun out =>
     handleBedrock shake_data server ≫= fun out' => mret (out, out')) w
    = (Done (out, ServerHandshakePacket_export (sign keyPair (with_salt salt_ token))), w') /\
    _state (session w') = Encrypted /\
    _keyPair (session w') = Some keyPair /\
    _salt (session w') = salt_ /\
    _clientBatch (session w') = Some (mkCodec client_secret client) /\
    _serverBatch (session w') = Some (mkCodec server_secret server).
Proof.
  cbv zeta. intros Hlogin Hids Hparse Hlast Hclient Hshake Htoken Hserver.
  unfold mbind at 1. unfold M_bind at 1.
  rewrite handleBedrock_login by assumption.
  unfold handleLoginPacket, mbind, M_bind, foreign, draw, modify.
  rewrite Hparse. cbn -[handleBedrock]. rewrite Hlast, Hclient. cbn -[handleBedrock].
  rewrite handleBedrock_handshake by assumption.
  unfold handleHandshakePacket, set_state_M, mbind, M_bind, foreign, get, modify, perform.
  rewrite Htoken. cbn. rewrite Hserver. cbn.
  eexists _, _. split; [reflexivity|]. cbn. repeat split.
Qed.

Lemma login_then_handshake_witness :
  exists (out : bytes) (w' : World),
    (handleBedrock (H := plain) [x01] client ≫= fun out =>
     handleBedrock (H := plain) [x03] server ≫= fun out' => mret (out, out'))
      (mkWorld (set_state Online new_session) [] 0)
    = (Done (out, x03 :: list_byte_of_string "AAAAAAAAAAAAAAAA"), w') /\
    _state (session w') = Encrypted.
Proof.
  destruct (login_then_handshake (H := plain) [x01] [x03]
              (mkWorld (set_state Online new_session) [] 0)
              (mkLogin [plain_token] plain_token) plain_token plain_token
              (list_byte_of_string "proxy-private-keyclient-public-keyAAAAAAAAAAAAAAAA")
              (list_byte_of_string "proxy-private-keypeer-public-keypeer-salt")
              eq_refl ltac:(discriminate) eq_refl eq_refl eq_refl eq_refl eq_refl eq_refl)
    as (out & w' & Hrun & Hstate & _).
  exists out, w'. split; [exact Hrun | exact Hstate].
Defined.

(** A session can be [Encrypted] without a client codec: a login without
    tokens throws after the key pair is stored, and the handshake that
    follows goes through. *)
Example encrypted_without_client_codec :
  let w := feed (H := plain_login (fun _ => Some (mkLogin [] plain_token))
                        (diffieHellman (Collaborators := plain)))
             [([x08], server); ([x80; xfe; x01], client); ([x80; xfe; x03], server)]
             (mkWorld new_session [] 0) in
  _state (session w) = Encrypted /\ _clientBatch (session w) = None /\
  is_Some (_serverBatch (session w)).
Proof. vm_compute. repeat split. eauto. Qed.

(** ** Reliable packets in order, and a window that is stuck *)

Lemma set_window_twice (from : Origin) (v v' : Window) (s : Session) :
  set_window from v' (set_window from v s) = set_window from v' s /\
  indexes_of from (set_window from v s) = indexes_of from s /\
  window_of from (set_window from v s) = v.
Proof. destruct from; repeat split. Qed.

Lemma admit_reliable_start (packet : EncapsulatedPacket) (from : Origin) (w : World) :
  isReliable (reliability packet) = true ->
  index packet = Some (w_start (window_of from (session w))) ->
  w_start (window_of from (session w)) <= w_end (window_of from (session w)) ->
  w_start (window_of from (session w)) ∉ indexes_of from (session w) ->
  admit_reliable packet from w
  = (Done true,
     mkWorld (set_window from
                (mkWindow (w_start (window_of from (session w)) + 1)
                   (w_end (window_of from (session w)) + 1))
                (session w))
       (trace w) (draws w)).
Proof.
  intros Hreliable Hindex Hwindow Hnew. unfold admit_reliable.
  rewrite Hreliable, Hindex. unfold mbind, M_bind, get. cbn [fst snd].
  unfold inRange. rewrite Z.leb_refl. cbn [andb].
  destruct (Z.leb_spec (w_start (window_of from (session w)))
              (w_end (window_of from (session w)))) as [_|]; [|lia].
  cbn [negb]. rewrite decide_False by exact Hnew. rewrite Z.eqb_refl.
  rewrite slide_one_turn by (apply elem_of_union_l, elem_of_singleton; reflexivity).
  assert (Hsame : ({[w_start (window_of from (session w))]} ∪ indexes_of from (session w))
                  ∖ {[w_start (window_of from (session w))]}
                  = indexes_of from (session w)).
  { apply set_eq. intros x.
    rewrite elem_of_difference, elem_of_union, !elem_of_singleton.
    split; [tauto|]. intros Hx. split; [now right|]. intros ->. contradiction. }
  rewrite Hsame. unfold modify.
  cbn -[set_window set_indexes indexes_of window_of].
  now rewrite set_indexes_same.
Qed.

(** X26: reliable packets from one origin that carry the indexes
    [start], [start + 1], ... in this order, none of them remembered, are all
    admitted; the window has moved by as many steps as there were packets
    and the set of remembered indexes is as it was. *)
Theorem admit_reliable_in_order (ps : list EncapsulatedPacket) (from : Origin) (w : World) :
  w_start (window_of from (session w)) <= w_end (window_of from (session w)) ->
  (forall k p, ps !! k = Some p ->
     isReliable (reliability p) = true /\
     index p = Some (w_start (window_of from (session w)) + Z.of_nat k)) ->
  (forall k, (k < length ps)%nat ->
     w_start (window_of from (session w)) + Z.of_nat k ∉ indexes_of from (session w)) ->
  ps <> [] ->
  mapM (fun p => admit_reliable p from) ps w
  = (Done (replicate (length ps) true),
     mkWorld (set_window from
                (mkWindow (w_start (window_of from (session w)) + Z.of_nat (length ps))
                   (w_end (window_of from (session w)) + Z.of_nat (length ps)))
                (session w))
       (trace w) (draws w)).
Proof.
  revert w. induction ps as [|p rest IH]; intros w Hwindow Hps Hnew Hne; [contradiction|].
  destruct (Hps 0%nat p eq_refl) as [Hreliable Hindex]. rewrite Z.add_0_r in Hindex.
  pose proof (Hnew 0%nat ltac:(cbn; lia)) as Hnew0. rewrite Z.add_0_r in Hnew0.
  cbn [mapM]. unfold mbind at 1. unfold M_bind at 1.
  rewrite (admit_reliable_start p from w Hreliable Hindex Hwindow Hnew0).
  set (start := w_start (window_of from (session w))) in *.
  set (end_ := w_end (window_of from (session w))) in *.
  destruct (set_window_twice from (mkWindow (start + 1) (end_ + 1))
              (mkWindow (start + 1 + Z.of_nat (length rest))
                 (end_ + 1 + Z.of_nat (length rest))) (session w))
    as (Htwice & Hindexes & Hwindow1).
  destruct rest as [|p' rest'].
  - cbn. reflexivity.
  - unfold mbind at 1. unfold M_bind at 1. rewrite IH; cbn [session trace draws].
    + rewrite Hwindow1. cbn [w_start w_end]. rewrite Htwice.
      cbn [mret M_ret replicate length]. do 3 f_equal. f_equal; lia.
    + rewrite Hwindow1. cbn. lia.
    + intros k q Hq. rewrite Hwindow1. cbn [w_start].
      destruct (Hps (S k) q Hq) as [Hr Hi]. split; [exact Hr|].
      rewrite Hi. f_equal. lia.
    + intros k Hk. rewrite Hwindow1, Hindexes. cbn [w_start].
      replace (start + 1 + Z.of_nat k) with (start + Z.of_nat (S k)) by lia.
      apply Hnew. cbn [length] in *. lia.
    + discriminate.
Qed.

Lemma admit_reliable_in_order_witness :
  mapM (fun p => admit_reliable p client) [reliable 0; reliable 1; reliable 2]
    (mkWorld new_session [] 0)
  = (Done [true; true; true],
     mkWorld (set_window client (mkWindow 3 2051) new_session) [] 0).
Proof.
  apply (admit_reliable_in_order [reliable 0; reliable 1; reliable 2] client
           (mkWorld new_session [] 0)).
  - cbn. lia.
  - intros [|[|[|k]]] p Hp; try discriminate; injection Hp as <-; split; reflexivity.
  - intros k _. cbn. apply not_elem_of_empty.
  - discriminate.
Defined.

Lemma stays_stuck_refl (o : Origin) (s : Session) : stays_stuck o s s.
Proof. intros Hs. split; [exact Hs | reflexivity]. Qed.

Lemma stays_stuck_trans (o : Origin) (s1 s2 s3 : Session) :
  stays_stuck o s1 s2 -> stays_stuck o s2 s3 -> stays_stuck o s1 s3.
Proof.
  intros H12 H23 Hs. destruct (H12 Hs) as [Hs2 Hw2]. destruct (H23 Hs2) as [Hs3 Hw3].
  split; [exact Hs3 | congruence].
Qed.

Ltac stuck_kept :=
  let s := fresh "s" in let Hs := fresh "Hs" in
  intros s Hs;
  repeat match goal with x : Origin |- _ => destruct x end;
  (split; [exact Hs | reflexivity]).

Section Stuck.
Context `{Collaborators}.
Variable o : Origin.

Lemma stuck_admit_reliable (packet : EncapsulatedPacket) (from : Origin) :
  preserves (stays_stuck o) (admit_reliable packet from).
Proof.
  intros w Hs. unfold admit_reliable.
  destruct (isReliable (reliability packet)); [|split; [exact Hs | reflexivity]].
  destruct (index packet) as [index|]; [|split; [exact Hs | reflexivity]].
  unfold mbind, M_bind, get. cbv zeta.
  destruct (inRange _ _ _); cbn [negb]; [|split; [exact Hs | reflexivity]].
  destruct (decide _) as [Hin|Hout]; [split; [exact Hs | reflexivity]|].
  destruct (Z.eqb_spec index (w_start (window_of from (session w)))) as [Heq|Hne].
  - rewrite slide_one_turn
      by (rewrite <- Heq; apply elem_of_union_l, elem_of_singleton; reflexivity).
    unfold stuck in *. destruct from, o; cbn in *;
      try (split; [exact Hs | reflexivity]);
      exfalso; apply Hout; rewrite Heq; exact Hs.
  - unfold stuck in *. destruct from, o; cbn in *;
      try (split; [exact Hs | reflexivity]);
      (split; [apply elem_of_union_r; exact Hs | reflexivity]).
Qed.

Lemma stuck_handle (data : bytes) (from : Origin) :
  preserves (stays_stuck o) (handle data from).
Proof.
  pose proof stuck_admit_reliable as Hadmit.
  assert (Hloop : forall buffers i split packet to,
            preserves (stays_stuck o) (send_buffers i buffers split packet to)).
  { induction buffers as [|sub rest IH]; intros i split packet to; cbn [send_buffers];
      cbv zeta; preserved_by (stays_stuck_refl o) (stays_stuck_trans o); stuck_kept. }
  unfold handle, handleOffline, handleOnline, handleDatagram, handleAck, sendAck,
    handlePacket, forward, reassemble, sendPacket, handleBatch, handleEncryptedBatch,
    handleUnencryptedBatch, handleBedrock, handleLoginPacket, handleHandshakePacket.
  cbv zeta.
  preserved_by (stays_stuck_refl o) (stays_stuck_trans o); stuck_kept.
Qed.
End Stuck.

(** X27: once the start of a reliable window is among the remembered
    indexes, no call of [handle] moves that window again, and its start stays
    remembered: a packet with that index is a duplicate, and every other
    index leaves the window alone. *)
Theorem feed_window_stuck `{Collaborators} (inputs : list (bytes * Origin))
    (w : World) (o : Origin) :
  w_start (window_of o (session w)) ∈ indexes_of o (session w) ->
  window_of o (session (feed inputs w)) = window_of o (session w) /\
  w_start (window_of o (session (feed inputs w))) ∈ indexes_of o (session (feed inputs w)).
Proof.
  revert w. induction inputs as [|[data from] rest IH]; intros w Hs; cbn [feed].
  - split; [reflexivity | exact Hs].
  - destruct (stuck_handle o data from w Hs) as [Hs1 Hw1].
    destruct (IH _ Hs1) as [Hw Hs']. split; [congruence | exact Hs'].
Qed.

Lemma feed_window_stuck_witness :
  let w := snd (mapM (fun p => admit_reliable p client) [reliable 1; reliable 0]
                  (mkWorld new_session [] 0)) in
  window_of client (session w) = mkWindow 1 2049 /\
  window_of client
    (session (feed (H := plain) [([x08], server); ([x80; x09], client)] w))
  = window_of client (session w).
Proof.
  cbv zeta. split; [vm_compute; reflexivity|].
  apply (feed_window_stuck (H := plain) [([x08], server); ([x80; x09], client)]
           (snd (mapM (fun p => admit_reliable p client) [reliable 1; reliable 0]
                   (mkWorld new_session [] 0))) client).
  vm_compute. reflexivity.
Defined.
